(** * Samurai audio engine: tempo and key ensemble fusion

    Shallow embedding of [server/audio_analysis.py]
    ([advanced_bpm_detection], [advanced_key_detection],
    [analyze_audio_features]) and the properties of its aggregation logic;
    then of the Gemini analysis, of the stem separation
    ([server/audio_processing.py]) and of the job thread of the API
    ([server/audio_api.py]).

    Numbers.  The program computes on IEEE doubles.  The embedding uses exact
    arithmetic: canonical rationals [Qc] for the tempo side, where every
    comparison of the source can be decided on rationals, and the reals [R]
    for the key side, where Pearson correlation needs a square root.  The key
    aggregator itself is written once over an abstract score arithmetic and
    is instantiated at both.  NaN and infinities have no counterpart; the
    places where the source relies on them (a division by zero that yields
    [inf], a correlation that yields [nan]) are modelled by an explicit
    [option]. *)

From Stdlib Require Import Ascii String Bool Arith ZArith NArith QArith Qcanon.
From Stdlib Require Import Qround Qreals DecimalString.
From Stdlib Require Import Reals Lqa Lra Lia List Permutation Sorted.
Import ListNotations.

Open Scope Qc_scope.

(** ** Python exceptions and the calls that may raise them *)

(** An exception object of a class derived from [Exception]; [exc_str] is
    what [str(e)] returns. *)
Record PyExc : Type := mkExc { exc_class : string; exc_str : string }.

Inductive result (A : Type) : Type :=
| Ok (a : A)
| Raise (e : PyExc).
Arguments Ok {A} a.
Arguments Raise {A} e.

Definition bind {A B : Type} (c : result A) (k : A -> result B) : result B :=
  match c with
  | Ok a => k a
  | Raise e => Raise e
  end.

Notation "x <- c ;; k" := (bind c (fun x => k))
  (at level 61, c at next level, right associativity).

(** [try: body / except: pass] around a block that appends candidates: a
    raising block appends nothing. *)
Definition try_pass {A : Type} (body : result (list A)) : list A :=
  match body with
  | Ok l => l
  | Raise _ => []
  end.

(** ** Rational arithmetic helpers *)

Definition Qcleb (x y : Qc) : bool := Qle_bool x y.
Definition Qcltb (x y : Qc) : bool := negb (Qle_bool y x).

Infix "<=?" := Qcleb (at level 70, no associativity) : Qc_scope.
Infix "<?" := Qcltb (at level 70, no associativity) : Qc_scope.

Definition Qc_of_Z (z : Z) : Qc := Q2Qc (inject_Z z).
Definition Qc_of_nat (n : nat) : Qc := Qc_of_Z (Z.of_nat n).

(** [np.rint]: nearest integer, exact halves go to the even neighbour. *)
Definition rint (x : Qc) : Z :=
  let f := Qfloor x in
  let r := x - Qc_of_Z f in
  if r <? Q2Qc 0.5 then f
  else if Q2Qc 0.5 <? r then (f + 1)%Z
  else if Z.even f then f else (f + 1)%Z.

(** [round(x, ndigits)] on a double: scale, [rint], unscale. *)
Definition py_round (x : Qc) (ndigits : nat) : Qc :=
  let scale := Qc_of_Z (10 ^ Z.of_nat ndigits) in
  Qc_of_Z (rint (x * scale)) / scale.

(** A double division [a / b]: [None] stands for the [inf] or [nan] that a
    zero divisor produces (numpy warns, it does not raise); such a value
    fails every range test of the program. *)
Definition float_div (a b : Qc) : option Qc :=
  if Qc_eq_bool b 0 then None else Some (a / b).

(** ** numpy reductions *)

Definition np_sum (a : list Qc) : Qc := fold_right Qcplus 0 a.

Definition np_mean (a : list Qc) : Qc := np_sum a / Qc_of_nat (length a).

Fixpoint insert_sorted (x : Qc) (s : list Qc) : list Qc :=
  match s with
  | [] => [x]
  | y :: t => if x <=? y then x :: s else y :: insert_sorted x t
  end.

Definition np_sort (a : list Qc) : list Qc := fold_right insert_sorted [] a.

(** [np.median]: middle element of the sorted array, mean of the two middle
    elements when the length is even. *)
Definition np_median (a : list Qc) : Qc :=
  let s := np_sort a in
  let n := length a in
  if Nat.even n
  then (nth (n / 2 - 1) s 0 + nth (n / 2) s 0) / Q2Qc 2
  else nth (n / 2) s 0.

(** [np.diff]: consecutive differences. *)
Fixpoint np_diff (a : list Qc) : list Qc :=
  match a with
  | x :: (y :: _) as t => (y - x) :: np_diff t
  | _ => []
  end.

(** [np.var], the square of [np.std]: mean squared deviation from the mean
    (population form, [ddof = 0]). *)
Definition np_var (a : list Qc) : Qc :=
  let m := np_mean a in
  np_mean (map (fun x => (x - m) * (x - m)) a).

(** The test [np.abs(d) <= 2 * np.std(a)] with [v = np.var a].  Both sides
    are non-negative, so it is the comparison of their squares, which stays
    in the rationals ([abs_le_2std_sqrt] relates it to the square root). *)
Definition abs_le_2std (d v : Qc) : bool := d * d <=? Q2Qc 4 * v.

(** [np.average(values, weights=weights)]. *)
Definition np_average (values weights : list Qc) : result Qc :=
  let scl := np_sum weights in
  if Qc_eq_bool scl 0
  then Raise (mkExc "ZeroDivisionError"
                    "Weights sum to zero, can't be normalized")
  else Ok (np_sum (map (fun vw => fst vw * snd vw) (combine values weights))
           / scl).

(** ** Tempo estimator ensemble ([advanced_bpm_detection], methods 1 to 5) *)

(** The source grows [tempo_estimates] and [confidence_scores] by one entry
    each at every append and masks them with the same mask, so the two
    arrays are kept as one list of (estimate, confidence) pairs. *)
Definition candidate : Type := (Qc * Qc)%type.

Definition in_range (lo x hi : Qc) : bool := (lo <=? x) && (x <=? hi).

(** [a[0]]. *)
Definition getitem0 {A : Type} (a : list A) : result A :=
  match a with
  | x :: _ => Ok x
  | [] => Raise (mkExc "IndexError" "index 0 is out of bounds")
  end.

Definition hop_lengths : list Z := [512; 1024; 2048]%Z.

(** Method 2 once the onset times are known. *)
Definition onset_candidates (onset_frames : list Qc) : list candidate :=
  if (3 <? length onset_frames)%nat then
    let onset_intervals := np_diff onset_frames in
    if (0 <? length onset_intervals)%nat then
      match float_div (Q2Qc 60) (np_median onset_intervals) with
      | Some onset_bpm =>
          if in_range (Q2Qc 40) onset_bpm (Q2Qc 200)
          then [(onset_bpm, Q2Qc 0.6)] else []
      | None => []
      end
    else []
  else [].

(** Method 4 once the autocorrelation peaks are known. *)
Definition autocorr_candidates (sr : Z) (peaks : list Z) : list candidate :=
  match peaks with
  | best_peak :: _ =>
      if (0 <? best_peak)%Z then
        let bpm_autocorr :=
          Q2Qc 60 * Qc_of_Z sr / (Qc_of_Z best_peak * Q2Qc 512) in
        if in_range (Q2Qc 40) bpm_autocorr (Q2Qc 200)
        then [(bpm_autocorr, Q2Qc 0.65)] else []
      else []
  | [] => []
  end.

(** Handle common tempo doubling/halving errors. *)
Definition octave_correction (final_bpm : Qc) : Qc :=
  if Q2Qc 160 <? final_bpm then
    let half_tempo := final_bpm / Q2Qc 2 in
    if in_range (Q2Qc 80) half_tempo (Q2Qc 140) then half_tempo else final_bpm
  else if final_bpm <? Q2Qc 80 then
    let double_tempo := final_bpm * Q2Qc 2 in
    if in_range (Q2Qc 120) double_tempo (Q2Qc 160)
    then double_tempo else final_bpm
  else final_bpm.

(** Remove outliers (more than 2 standard deviations from median). *)
Definition remove_outliers (cands : list candidate) : list candidate :=
  if (2 <? length cands)%nat then
    let tempo_estimates := map fst cands in
    let median_tempo := np_median tempo_estimates in
    let var_tempo := np_var tempo_estimates in
    filter (fun c => abs_le_2std (fst c - median_tempo) var_tempo) cands
  else cands.

(** Weighted average, octave correction and rounding of the candidates that
    are left (source lines 233 to 252). *)
Definition weighted_result (cands : list candidate)
  : result (option Qc * Qc) :=
  if (length cands =? 0)%nat then Ok (None, 0)
  else
    final_bpm <- np_average (map fst cands) (map snd cands) ;;
    let final_confidence := np_mean (map snd cands) in
    Ok (Some (py_round (octave_correction final_bpm) 1),
        py_round final_confidence 2).

(** The aggregation stage (source lines 217 to 252). *)
Definition tempo_aggregate (cands : list candidate)
  : result (option Qc * Qc) :=
  match cands with
  | [] => Ok (None, 0)
  | _ => weighted_result (remove_outliers cands)
  end.

(** The outermost [try / except Exception: return None, 0.0]. *)
Definition except_none (body : result (option Qc * Qc)) : option Qc * Qc :=
  match body with
  | Ok r => r
  | Raise _ => (None, 0)
  end.

(** ** The external collaborators

    librosa and essentia are black boxes: every call returns a value or
    raises.  [Waveform] is the decoded signal [y]; the sample rate [sr] is
    an integer.  A chromagram is a matrix with one row per pitch class and
    one column per frame. *)

Definition chromagram : Type := list (list R).

Record Librosa (Waveform : Type) : Type := {
  (** [librosa.load(audio_path, sr=None)] *)
  librosa_load : string -> result (Waveform * Z);
  (** the tempo returned by [librosa.beat.beat_track(y, sr, hop_length)] *)
  librosa_beat_track : Waveform -> Z -> Z -> result Qc;
  (** [librosa.onset.onset_detect(y, sr, units='time')] *)
  librosa_onset_detect : Waveform -> Z -> result (list Qc);
  (** [onset_strength], [autocorrelate] and [peak_pick] in sequence *)
  librosa_autocorr_peaks : Waveform -> Z -> result (list Z);
  (** [onset_strength], [tempo_frequencies] and [librosa.beat.tempo] *)
  librosa_dynamic_tempo : Waveform -> Z -> result (list Qc);
  librosa_chroma_stft : Waveform -> Z -> result chromagram;
  librosa_chroma_cqt : Waveform -> Z -> result chromagram;
  librosa_chroma_cens : Waveform -> Z -> result chromagram;
  (** the harmonic part returned by [librosa.effects.hpss(y)] *)
  librosa_hpss : Waveform -> result Waveform;
  librosa_get_duration : Waveform -> Z -> result Qc;
  (** frame-wise features, flattened *)
  librosa_spectral_centroid : Waveform -> Z -> result (list Qc);
  librosa_zero_crossing_rate : Waveform -> result (list Qc);
  librosa_spectral_rolloff : Waveform -> Z -> result (list Qc);
  librosa_spectral_bandwidth : Waveform -> Z -> result (list Qc);
  (** [librosa.feature.mfcc(y, sr, n_mfcc=13)], one row per coefficient *)
  librosa_mfcc : Waveform -> Z -> result (list (list Qc));
  (** [librosa.feature.rms(y)[0]] *)
  librosa_rms : Waveform -> result (list Qc)
}.

Record Essentia (Waveform EssentiaAudio : Type) : Type := {
  (** [es.MonoLoader(filename)()] reads a file of the working directory *)
  es_MonoLoader : string -> result EssentiaAudio;
  (** [es.BpmHistogram()] followed by [es.BpmHistogramDescriptors()] *)
  es_BpmHistogramDescriptors : EssentiaAudio -> result (list Qc);
  (** [es.KeyExtractor()(y)]: key, scale, strength *)
  es_KeyExtractor : Waveform -> result (string * string * R)
}.

Arguments librosa_load {Waveform} _ _.
Arguments librosa_beat_track {Waveform} _ _ _ _.
Arguments librosa_onset_detect {Waveform} _ _ _.
Arguments librosa_autocorr_peaks {Waveform} _ _ _.
Arguments librosa_dynamic_tempo {Waveform} _ _ _.
Arguments librosa_chroma_stft {Waveform} _ _ _.
Arguments librosa_chroma_cqt {Waveform} _ _ _.
Arguments librosa_chroma_cens {Waveform} _ _ _.
Arguments librosa_hpss {Waveform} _ _.
Arguments librosa_get_duration {Waveform} _ _ _.
Arguments librosa_spectral_centroid {Waveform} _ _ _.
Arguments librosa_zero_crossing_rate {Waveform} _ _.
Arguments librosa_spectral_rolloff {Waveform} _ _ _.
Arguments librosa_spectral_bandwidth {Waveform} _ _ _.
Arguments librosa_mfcc {Waveform} _ _ _.
Arguments librosa_rms {Waveform} _ _.
Arguments es_MonoLoader {Waveform EssentiaAudio} _ _.
Arguments es_BpmHistogramDescriptors {Waveform EssentiaAudio} _ _.
Arguments es_KeyExtractor {Waveform EssentiaAudio} _ _.

Section TempoEnsemble.

Context {Waveform EssentiaAudio : Type}.
Variable librosa : Librosa Waveform.
Variable es : Essentia Waveform EssentiaAudio.

(** Method 1: librosa beat tracking with different hop lengths. *)
Definition beat_tracking (y : Waveform) (sr : Z) : list candidate :=
  flat_map
    (fun hop_length =>
       try_pass (tempo <- librosa_beat_track librosa y sr hop_length ;;
                 Ok (if 0 <? tempo then [(tempo, Q2Qc 0.7)] else [])))
    hop_lengths.

(** Method 2: onset-based tempo detection. *)
Definition onset_based (y : Waveform) (sr : Z) : list candidate :=
  try_pass (onset_frames <- librosa_onset_detect librosa y sr ;;
            Ok (onset_candidates onset_frames)).

(** Method 3: essentia BPM detection.  The signal is not passed on: the
    loader is given the literal file name. *)
Definition essentia_bpm (y : Waveform) (sr : Z) : list candidate :=
  try_pass (audio_essentia <- es_MonoLoader es "temp" ;;
            bpm_desc <- es_BpmHistogramDescriptors es audio_essentia ;;
            bpm0 <- getitem0 bpm_desc ;;
            Ok (if 0 <? bpm0 then [(bpm0, Q2Qc 0.8)] else [])).

(** Method 4: autocorrelation-based tempo detection. *)
Definition autocorrelation (y : Waveform) (sr : Z) : list candidate :=
  try_pass (peaks <- librosa_autocorr_peaks librosa y sr ;;
            Ok (autocorr_candidates sr peaks)).

(** Method 5: dynamic tempo tracking. *)
Definition dynamic_tracking (y : Waveform) (sr : Z) : list candidate :=
  try_pass (utempo <- librosa_dynamic_tempo librosa y sr ;;
            utempo0 <- getitem0 utempo ;;
            Ok (if 0 <? utempo0 then [(utempo0, Q2Qc 0.75)] else [])).

Definition tempo_candidates (y : Waveform) (sr : Z) : list candidate :=
  beat_tracking y sr ++ onset_based y sr ++ essentia_bpm y sr
    ++ autocorrelation y sr ++ dynamic_tracking y sr.

Definition advanced_bpm_detection (y : Waveform) (sr : Z)
  : option Qc * Qc :=
  except_none (tempo_aggregate (tempo_candidates y sr)).

End TempoEnsemble.

(** ** Key aggregator (source lines 343 to 361)

    Written over an abstract score arithmetic: addition, the strict order
    and [round(x, 2)]. *)

Class ScoreArith (T : Type) : Type := {
  sc_zero : T;
  sc_one : T;
  sc_add : T -> T -> T;
  sc_ltb : T -> T -> bool;
  sc_round2 : T -> T
}.

Section KeyAggregator.

Context {T : Type} {SA : ScoreArith T}.

(** [key_aggregated]: a Python dict keeps its keys in insertion order, and
    that order is what [max] iterates over. *)
Definition score_dict : Type := list (string * T).

Fixpoint dict_get (d : score_dict) (key : string) : option T :=
  match d with
  | [] => None
  | (k, v) :: rest => if String.eqb k key then Some v else dict_get rest key
  end.

(** [if key in d: d[key] += score else: d[key] = score] *)
Fixpoint dict_accumulate (d : score_dict) (key : string) (score : T)
  : score_dict :=
  match d with
  | [] => [(key, score)]
  | (k, v) :: rest =>
      if String.eqb k key then (k, sc_add v score) :: rest
      else (k, v) :: dict_accumulate rest key score
  end.

Definition aggregate_scores (key_scores : list (string * T)) : score_dict :=
  fold_left (fun d ks => dict_accumulate d (fst ks) (snd ks)) key_scores [].

(** [max(d, key=d.get)] after its first item: a later item replaces the
    current best only when its value is strictly greater. *)
Fixpoint py_max_from (best : string * T) (rest : score_dict) : string * T :=
  match rest with
  | [] => best
  | kv :: rest' =>
      py_max_from (if sc_ltb (snd best) (snd kv) then kv else best) rest'
  end.

(** [max(a, b)] and [min(a, b)] of two arguments: the first one is kept
    unless the second is strictly beyond it. *)
Definition py_max2 (a b : T) : T := if sc_ltb a b then b else a.
Definition py_min2 (a b : T) : T := if sc_ltb b a then b else a.

Definition key_aggregate (key_scores : list (string * T)) : string * T :=
  match key_scores with
  | [] => ("Unknown"%string, sc_zero)
  | _ =>
      match aggregate_scores key_scores with
      | first :: rest =>
          let best := py_max_from first rest in
          let best_key := fst best in
          let best_score := snd best in
          let confidence := py_min2 sc_one (py_max2 sc_zero best_score) in
          (best_key, sc_round2 confidence)
      | [] => ("Unknown"%string, sc_zero)
      end
  end.

End KeyAggregator.

#[global] Instance Qc_score : ScoreArith Qc := {
  sc_zero := 0;
  sc_one := 1;
  sc_add := Qcplus;
  sc_ltb := Qcltb;
  sc_round2 := fun x => py_round x 2
}.

(** ** Real arithmetic for the key side *)

Definition Rltb (x y : R) : bool := if Rlt_dec x y then true else false.

(** [np.rint] and [round(x, 2)] on the reals. *)
Definition R_rint (x : R) : Z :=
  let f := Int_part x in
  let r := (x - IZR f)%R in
  if Rlt_dec r 0.5 then f
  else if Rlt_dec 0.5 r then (f + 1)%Z
  else if Z.even f then f else (f + 1)%Z.

Definition R_round2 (x : R) : R := (IZR (R_rint (x * 100)) / 100)%R.

#[global] Instance R_score : ScoreArith R := {
  sc_zero := 0%R;
  sc_one := 1%R;
  sc_add := Rplus;
  sc_ltb := Rltb;
  sc_round2 := R_round2
}.

Definition Rsum (a : list R) : R := fold_right Rplus 0%R a.

(** [np.mean].  On an empty array numpy yields [nan]; here the quotient by
    zero is [0], so that the row means of a chromagram without frames sum
    to [0] and [normalize] below reports them as not finite. *)
Definition Rmean (a : list R) : R := (Rsum a / INR (length a))%R.

(** [np.roll(a, i)]: the element at index [n] moves to [(n + i) mod len]. *)
Definition np_roll {A : Type} (a : list A) (i : nat) : list A :=
  let n := length a in
  let k := (n - i mod n)%nat in
  skipn k a ++ firstn k a.

(** A float array: either all entries are finite, or some are [nan] or
    [inf], and then only its length matters to what follows. *)
Inductive fvec : Type :=
| Finite (v : list R)
| NotFinite (len : nat).

Definition fvec_length (x : fvec) : nat :=
  match x with
  | Finite v => length v
  | NotFinite len => len
  end.

(** [a / np.sum(a)]: a zero sum produces [nan] and [inf] entries. *)
Definition normalize (a : list R) : fvec :=
  if Req_dec_T (Rsum a) 0 then NotFinite (length a)
  else Finite (map (fun x => (x / Rsum a)%R) a).

Definition centered (a : list R) : list R :=
  map (fun x => (x - Rmean a)%R) a.

Definition dot (a b : list R) : R :=
  Rsum (map (fun p => (fst p * snd p)%R) (combine a b)).

(** An entry of [np.cov] ([ddof = 1]). *)
Definition np_cov (x y : list R) : R :=
  (dot (centered x) (centered y) / (INR (length x) - 1))%R.

Definition np_clip (x lo hi : R) : R := Rmax lo (Rmin x hi).

(** [np.corrcoef(x, y)[0, 1]].  Arrays of different lengths cannot be
    stacked: [ValueError].  [Ok None] is [nan], the outcome when an entry is
    not finite or one of the two variances is zero. *)
Definition np_corrcoef (x : fvec) (y : list R) : result (option R) :=
  if negb (fvec_length x =? length y)%nat
  then Raise (mkExc "ValueError"
                    "all the input array dimensions must match exactly")
  else
    match x with
    | NotFinite _ => Ok None
    | Finite x =>
        let cxx := np_cov x x in
        let cyy := np_cov y y in
        if Req_dec_T cxx 0 then Ok None
        else if Req_dec_T cyy 0 then Ok None
        else Ok (Some (np_clip (np_cov x y / sqrt cxx / sqrt cyy) (-1) 1))
    end.

(** ** Key estimator ensemble ([advanced_key_detection]) *)

(** Krumhansl-Schmuckler key profiles, as written in the source. *)
Definition major_profile_raw : list Q :=
  [6.35; 2.23; 3.48; 2.33; 4.38; 4.09; 2.52; 5.19; 2.39; 3.66; 2.29; 2.88]%Q.
Definition minor_profile_raw : list Q :=
  [6.33; 2.68; 3.52; 5.38; 2.60; 3.53; 2.54; 4.75; 3.98; 2.69; 3.34; 3.17]%Q.

(** Normalize profiles. *)
Definition normalize_profile (p : list Q) : list R :=
  map (fun x => (x / Rsum (map Q2R p))%R) (map Q2R p).
Definition major_profile : list R := normalize_profile major_profile_raw.
Definition minor_profile : list R := normalize_profile minor_profile_raw.

Definition pitch_names : list string :=
  ["C"; "C#"; "D"; "D#"; "E"; "F"; "F#"; "G"; "G#"; "A"; "A#"; "B"]%string.

Definition key_name (i : nat) (scale : string) : string :=
  (nth i pitch_names "" ++ " " ++ scale)%string.

(** One candidate: present unless the correlation is [nan]. *)
Definition scored (name : string) (corr : option R) (weight : R)
  : list (string * R) :=
  match corr with
  | Some c => [(name, (c * weight)%R)]
  | None => []
  end.

(** The body of [for i in range(12)] of methods 1 and 3 for a normalized
    mean chroma vector. *)
Definition correlate_key (chroma_mean : fvec) (weight : R) (i : nat)
  : result (list (string * R)) :=
  major_corr <- np_corrcoef chroma_mean (np_roll major_profile i) ;;
  minor_corr <- np_corrcoef chroma_mean (np_roll minor_profile i) ;;
  Ok (scored (key_name i "major") major_corr weight
      ++ scored (key_name i "minor") minor_corr weight).

(** A loop whose body may raise; the appends of a raising loop are dropped.
    The only raising call in these loops is [np_corrcoef] on arrays of
    different lengths.  In the loop over the 12 rotations the lengths are
    the same at every iteration, so it raises before its first append or
    not at all; when the loop over the chroma variants of method 1 raises,
    the exception reaches the outermost handler and every candidate is
    discarded with it. *)
Fixpoint for_each {A B : Type} (body : A -> result (list B)) (xs : list A)
  : result (list B) :=
  match xs with
  | [] => Ok []
  | x :: rest =>
      here <- body x ;;
      after <- for_each body rest ;;
      Ok (here ++ after)
  end.

(** [np.mean(chroma, axis=1)] followed by the normalization. *)
Definition chroma_profile (chroma : chromagram) : fvec :=
  normalize (map Rmean chroma).

Definition correlate_chroma (chroma : chromagram) (weight : R)
  : result (list (string * R)) :=
  for_each (correlate_key (chroma_profile chroma) weight) (seq 0 12).

Definition except_unknown (body : result (string * R)) : string * R :=
  match body with
  | Ok r => r
  | Raise _ => ("Unknown"%string, 0%R)
  end.

Section KeyEnsemble.

Context {Waveform EssentiaAudio : Type}.
Variable librosa : Librosa Waveform.
Variable es : Essentia Waveform EssentiaAudio.

(** Method 1: enhanced chroma-based key detection. *)
Definition chroma_based (y : Waveform) (sr : Z)
  : result (list (string * R)) :=
  chroma_stft <- librosa_chroma_stft librosa y sr ;;
  chroma_cqt <- librosa_chroma_cqt librosa y sr ;;
  chroma_cens <- librosa_chroma_cens librosa y sr ;;
  for_each (fun cw => correlate_chroma (fst cw) (snd cw))
    [(chroma_stft, 0.4%R); (chroma_cqt, 0.4%R); (chroma_cens, 0.2%R)].

(** Method 2: essentia key detection. *)
Definition essentia_key (y : Waveform) : list (string * R) :=
  try_pass (kss <- es_KeyExtractor es y ;;
            let '(key, scale, strength) := kss in
            Ok (if Rltb 0.1 strength
                then [((key ++ " " ++ scale)%string, (strength * 0.8)%R)]
                else [])).

(** Method 3: harmonic analysis-based key detection. *)
Definition harmonic_based (y : Waveform) (sr : Z) : list (string * R) :=
  try_pass (harmonic <- librosa_hpss librosa y ;;
            chroma_harmonic <- librosa_chroma_cqt librosa harmonic sr ;;
            correlate_chroma chroma_harmonic 0.6%R).

Definition advanced_key_detection (y : Waveform) (sr : Z) : string * R :=
  except_unknown
    (method1 <- chroma_based y sr ;;
     Ok (key_aggregate
           (method1 ++ essentia_key y ++ harmonic_based y sr))).

End KeyEnsemble.

(** ** Comprehensive feature summary ([analyze_audio_features]) *)

(** The returned dict.  [None] is Python's [None]; [error] is [None] when the
    dict has no ['error'] entry. *)
Record AnalysisResult : Type := {
  bpm : option Qc;
  bpm_confidence : Qc;
  key : string;
  key_confidence : R;
  duration : option Qc;
  spectral_centroid : option Qc;
  spectral_rolloff : option Qc;
  spectral_bandwidth : option Qc;
  zero_crossing_rate : option Qc;
  dynamic_range : option Qc;
  mfcc_features : option (list Qc);
  sample_rate : option Z;
  analysis_success : bool;
  error : option string
}.

(** [np.max(a)] and [np.min(a)]: an empty array has no extremum. *)
Definition np_max (a : list Qc) : result Qc :=
  match a with
  | [] => Raise (mkExc "ValueError"
             "zero-size array to reduction operation maximum which has no identity")
  | x :: rest => Ok (fold_left (fun m v => if m <? v then v else m) rest x)
  end.

Definition np_min (a : list Qc) : result Qc :=
  match a with
  | [] => Raise (mkExc "ValueError"
             "zero-size array to reduction operation minimum which has no identity")
  | x :: rest => Ok (fold_left (fun m v => if v <? m then v else m) rest x)
  end.

(** Truth value of [bpm] in [bpm_confidence if bpm else 0.0]. *)
Definition truthy (b : option Qc) : bool :=
  match b with
  | None => false
  | Some v => negb (Qc_eq_bool v 0)
  end.

(** The dict of the [except Exception as e] branch. *)
Definition failure_result (e : PyExc) : AnalysisResult := {|
  bpm := None;
  bpm_confidence := 0;
  key := "Unknown";
  key_confidence := 0%R;
  duration := None;
  spectral_centroid := None;
  spectral_rolloff := None;
  spectral_bandwidth := None;
  zero_crossing_rate := None;
  dynamic_range := None;
  mfcc_features := None;
  sample_rate := None;
  analysis_success := false;
  error := Some (exc_str e)
|}.

Section Summarizer.

Context {Waveform EssentiaAudio : Type}.
Variable librosa : Librosa Waveform.
Variable es : Essentia Waveform EssentiaAudio.

(** The [try] block. *)
Definition analyze_body (audio_path : string) : result AnalysisResult :=
  loaded <- librosa_load librosa audio_path ;;
  let '(y, sr) := loaded in
  let '(bpm_, bpm_confidence_) := advanced_bpm_detection librosa es y sr in
  let '(key_signature, key_confidence_) :=
    advanced_key_detection librosa es y sr in
  duration_ <- librosa_get_duration librosa y sr ;;
  centroid <- librosa_spectral_centroid librosa y sr ;;
  zcr <- librosa_zero_crossing_rate librosa y ;;
  rolloff <- librosa_spectral_rolloff librosa y sr ;;
  bandwidth <- librosa_spectral_bandwidth librosa y sr ;;
  mfccs <- librosa_mfcc librosa y sr ;;
  let mfcc_mean := map np_mean mfccs in
  rms <- librosa_rms librosa y ;;
  rms_max <- np_max rms ;;
  rms_min <- np_min rms ;;
  let dynamic_range_ := rms_max - rms_min in
  Ok {| bpm := bpm_;
        bpm_confidence := if truthy bpm_ then bpm_confidence_ else 0;
        key := key_signature;
        key_confidence := key_confidence_;
        duration := Some (py_round duration_ 2);
        spectral_centroid := Some (py_round (np_mean centroid) 1);
        spectral_rolloff := Some (py_round (np_mean rolloff) 1);
        spectral_bandwidth := Some (py_round (np_mean bandwidth) 1);
        zero_crossing_rate := Some (py_round (np_mean zcr) 4);
        dynamic_range := Some (py_round dynamic_range_ 4);
        mfcc_features := Some mfcc_mean;
        sample_rate := Some sr;
        analysis_success := true;
        error := None |}.

Definition analyze_audio_features (audio_path : string) : AnalysisResult :=
  match analyze_body audio_path with
  | Ok r => r
  | Raise e => failure_result e
  end.

End Summarizer.

(** ** Vocabulary for the properties of the key aggregator *)

(** What the properties below assume of the score arithmetic: addition is
    commutative and associative, the order is a strict total order, and
    [round(x, 2)] keeps the unit interval.  Both instances satisfy it
    ([Qc_score_laws], [R_score_laws]). *)
Class ScoreLaws {T : Type} (SA : ScoreArith T) : Prop := {
  sc_add_comm : forall a b, sc_add a b = sc_add b a;
  sc_add_assoc : forall a b c, sc_add a (sc_add b c) = sc_add (sc_add a b) c;
  sc_ltb_irrefl : forall a, sc_ltb a a = false;
  sc_ltb_trans : forall a b c,
    sc_ltb a b = true -> sc_ltb b c = true -> sc_ltb a c = true;
  sc_ltb_cotrans : forall a b c,
    sc_ltb a c = true -> sc_ltb a b = true \/ sc_ltb b c = true;
  sc_ltb_connected : forall a b,
    sc_ltb a b = false -> sc_ltb b a = false -> a = b;
  sc_zero_one : sc_ltb sc_zero sc_one = true;
  sc_round2_unit : forall x,
    sc_ltb x sc_zero = false -> sc_ltb sc_one x = false ->
    sc_ltb (sc_round2 x) sc_zero = false
    /\ sc_ltb sc_one (sc_round2 x) = false
}.

(** The accumulated score of a key label, if any candidate carries it. *)
Definition accumulated {T : Type} {SA : ScoreArith T}
  (key_scores : list (string * T)) (key : string) : option T :=
  dict_get (aggregate_scores key_scores) key.

(** [min(1.0, max(0.0, best_score))]. *)
Definition clamp01 {T : Type} {SA : ScoreArith T} (best_score : T) : T :=
  py_min2 sc_one (py_max2 sc_zero best_score).

(** One step of the accumulation loop, and its effect on the entry of
    [key]. *)
Definition acc_step {T : Type} {SA : ScoreArith T}
  (d : list (string * T)) (ks : string * T) : list (string * T) :=
  dict_accumulate d (fst ks) (snd ks).

Definition opt_add {T : Type} {SA : ScoreArith T}
  (key : string) (o : option T) (ks : string * T) : option T :=
  if String.eqb (fst ks) key
  then Some (match o with Some v => sc_add v (snd ks) | None => snd ks end)
  else o.

(** The labels of a candidate list in the order of their first
    occurrence. *)
Definition seen_step (seen : list string) (k : string) : list string :=
  if existsb (String.eqb k) seen then seen else seen ++ [k].

Definition first_seen (keys : list string) : list string :=
  fold_left seen_step keys [].

(** The 24 slots in the order "ascending pitch class, major before minor":
    slot [2 * i] is pitch class [i] major, slot [2 * i + 1] pitch class [i]
    minor. *)
Definition slot_label (slot : nat) : string :=
  key_name (slot / 2) (if Nat.even slot then "major" else "minor").

(** ** Collaborators used as concrete instances *)

(** A collaborator every call of which raises [e]. *)
Definition failing_librosa (e : PyExc) : Librosa unit := {|
  librosa_load := fun _ => Raise e;
  librosa_beat_track := fun _ _ _ => Raise e;
  librosa_onset_detect := fun _ _ => Raise e;
  librosa_autocorr_peaks := fun _ _ => Raise e;
  librosa_dynamic_tempo := fun _ _ => Raise e;
  librosa_chroma_stft := fun _ _ => Raise e;
  librosa_chroma_cqt := fun _ _ => Raise e;
  librosa_chroma_cens := fun _ _ => Raise e;
  librosa_hpss := fun _ => Raise e;
  librosa_get_duration := fun _ _ => Raise e;
  librosa_spectral_centroid := fun _ _ => Raise e;
  librosa_zero_crossing_rate := fun _ => Raise e;
  librosa_spectral_rolloff := fun _ _ => Raise e;
  librosa_spectral_bandwidth := fun _ _ => Raise e;
  librosa_mfcc := fun _ _ => Raise e;
  librosa_rms := fun _ => Raise e
|}.

Definition failing_essentia (e : PyExc) : Essentia unit unit := {|
  es_MonoLoader := fun _ => Raise e;
  es_BpmHistogramDescriptors := fun _ => Raise e;
  es_KeyExtractor := fun _ => Raise e
|}.

(** Only onset detection works, and reports [onsets]. *)
Definition onset_only_librosa (onsets : list Qc) (e : PyExc) : Librosa unit := {|
  librosa_load := fun _ => Raise e;
  librosa_beat_track := fun _ _ _ => Raise e;
  librosa_onset_detect := fun _ _ => Ok onsets;
  librosa_autocorr_peaks := fun _ _ => Raise e;
  librosa_dynamic_tempo := fun _ _ => Raise e;
  librosa_chroma_stft := fun _ _ => Raise e;
  librosa_chroma_cqt := fun _ _ => Raise e;
  librosa_chroma_cens := fun _ _ => Raise e;
  librosa_hpss := fun _ => Raise e;
  librosa_get_duration := fun _ _ => Raise e;
  librosa_spectral_centroid := fun _ _ => Raise e;
  librosa_zero_crossing_rate := fun _ => Raise e;
  librosa_spectral_rolloff := fun _ _ => Raise e;
  librosa_spectral_bandwidth := fun _ _ => Raise e;
  librosa_mfcc := fun _ _ => Raise e;
  librosa_rms := fun _ => Raise e
|}.

(** What audioread raises, without a message, when no backend can decode the
    file given to [librosa.load]. *)
Definition NoBackendError : PyExc := mkExc "NoBackendError" "".

(** [n] onset times starting at [t0], spaced by [d]. *)
Definition uniform_train (t0 d : Qc) (n : nat) : list Qc :=
  map (fun i => t0 + Qc_of_nat i * d) (seq 0 n).

(** Candidates with the given estimates, all at confidence [w]. *)
Definition at_confidence (w : Q) (estimates : list Q) : list candidate :=
  map (fun v => (Q2Qc v, Q2Qc w)) estimates.

(** The outlier test of [remove_outliers] for one candidate, with the median
    and the variance of the whole list. *)
Definition is_outlier (cands : list candidate) (c : candidate) : bool :=
  negb (abs_le_2std (fst c - np_median (map fst cands))
          (np_var (map fst cands))).

(** Two key candidates with equal scores, in both orders. *)
Definition tied_low_first : list (string * Qc) :=
  [("C major"%string, Q2Qc 0.5); ("D minor"%string, Q2Qc 0.5)].
Definition tied_high_first : list (string * Qc) :=
  [("D minor"%string, Q2Qc 0.5); ("C major"%string, Q2Qc 0.5)].

(** A weight or confidence of the unit interval. *)
Definition unit_weight (c : candidate) : Prop := 0 <= snd c /\ snd c <= 1.

(** Two key candidates with different scores. *)
Definition clear_winner : list (string * Qc) :=
  [("C major"%string, Q2Qc 0.5); ("D minor"%string, Q2Qc 0.25)].

(** ** Vocabulary for the key ensemble on a rotated profile *)

(** Injection of the rationals into the reals. *)
Definition QcR (x : Qc) : R := Q2R x.

(** The statistics behind [np_cov] on rationals, where they can be
    evaluated. *)
Definition Qc_centered (a : list Qc) : list Qc :=
  let m := np_mean a in map (fun x => x - m) a.
Definition Qc_dot (a b : list Qc) : Qc :=
  np_sum (map (fun p => fst p * snd p) (combine a b)).
Definition Qc_cov (x y : list Qc) : Qc :=
  Qc_dot (Qc_centered x) (Qc_centered y) / (Qc_of_nat (length x) - 1).
Definition Qc_profile (p : list Q) : list Qc :=
  let s := np_sum (map Q2Qc p) in map (fun x => Q2Qc x / s) p.

(** [cov(a,b) / sqrt(var a) / sqrt(var b) < 1], decided on the squares. *)
Definition corr_below_one (a b : list Qc) : bool :=
  let c := Qc_cov a b in
  (c <=? 0) || (c * c <? Qc_cov a a * Qc_cov b b).
Definition var_positive (a : list Qc) : bool := 0 <? Qc_cov a a.

(** The two normalized profiles as rationals. *)
Definition Mq : list Qc := Qc_profile major_profile_raw.
Definition mq : list Qc := Qc_profile minor_profile_raw.

(** For the major profile rotated by [k]: its entries sum to 1, both
    rotated profiles have a positive variance, and every other rotated
    profile correlates with it strictly below 1. *)
Definition profile_cell (k i : nat) : bool :=
  (Nat.eqb i k || corr_below_one (np_roll Mq k) (np_roll Mq i))
  && corr_below_one (np_roll Mq k) (np_roll mq i).

Definition profile_row (k : nat) : bool :=
  Qc_eq_bool (np_sum (np_roll Mq k)) 1
  && var_positive (np_roll Mq k)
  && var_positive (np_roll mq k)
  && forallb (profile_cell k) (seq 0 12).

(** The value of [np.corrcoef(x, y)[0, 1]] when it is not [nan]. *)
Definition corr_value (x y : list R) : R :=
  np_clip (np_cov x y / sqrt (np_cov x x) / sqrt (np_cov y y)) (-1) 1.

Open Scope R_scope.

(** The 24 correlations of [x] with the rotated profiles, in loop order. *)
Definition base_corr (x : list R) : list (string * R) :=
  flat_map (fun i =>
    [(key_name i "major", corr_value x (np_roll major_profile i));
     (key_name i "minor", corr_value x (np_roll minor_profile i))])
  (seq 0 12).

Definition scaled (w : R) (c : string * R) : string * R := (fst c, snd c * w).

(** The candidates one chroma variant contributes at weight [w]. *)
Definition chroma_candidates (x : list R) (w : R) : list (string * R) :=
  map (scaled w) (base_corr x).

(** The labels of the 24 slots. *)
Definition key_labels : list string := map slot_label (seq 0 24).

(** Sum of the scores of the candidates that carry a label. *)
Definition label_total (lab : string) (ks : list (string * R)) : R :=
  Rsum (map snd (filter (fun c => String.eqb (fst c) lab) ks)).

Fixpoint nodupb (l : list string) : bool :=
  match l with
  | [] => true
  | x :: t => negb (existsb (String.eqb x) t) && nodupb t
  end.

(** A chromagram of one frame whose column is [v]. *)
Definition one_frame (v : list R) : chromagram := map (fun x => [x]) v.

(** The three chroma variants all show the major profile rotated by [k];
    every other call raises [e]. *)
Definition profile_librosa (k : nat) (e : PyExc) : Librosa unit := {|
  librosa_load := fun _ => Raise e;
  librosa_beat_track := fun _ _ _ => Raise e;
  librosa_onset_detect := fun _ _ => Raise e;
  librosa_autocorr_peaks := fun _ _ => Raise e;
  librosa_dynamic_tempo := fun _ _ => Raise e;
  librosa_chroma_stft := fun _ _ => Ok (one_frame (np_roll major_profile k));
  librosa_chroma_cqt := fun _ _ => Ok (one_frame (np_roll major_profile k));
  librosa_chroma_cens := fun _ _ => Ok (one_frame (np_roll major_profile k));
  librosa_hpss := fun _ => Raise e;
  librosa_get_duration := fun _ _ => Raise e;
  librosa_spectral_centroid := fun _ _ => Raise e;
  librosa_zero_crossing_rate := fun _ => Raise e;
  librosa_spectral_rolloff := fun _ _ => Raise e;
  librosa_spectral_bandwidth := fun _ _ => Raise e;
  librosa_mfcc := fun _ _ => Raise e;
  librosa_rms := fun _ => Raise e
|}.

(** Only the key extractor works, and reports the given key. *)
Definition voting_essentia (key scale : string) (strength : R) (e : PyExc)
  : Essentia unit unit := {|
  es_MonoLoader := fun _ => Raise e;
  es_BpmHistogramDescriptors := fun _ => Raise e;
  es_KeyExtractor := fun _ => Ok (key, scale, strength)
|}.

(** The major profile correlates above 0.3 with the minor profile rotated
    by 9 (the relative minor), decided on the squares. *)
Definition relative_minor_check : bool :=
  let x := np_roll Mq 0 in
  let y := np_roll mq 9 in
  let c := Qc_cov x y in
  (0 <? c)%Qc
  && (Q2Qc 0.3 * Q2Qc 0.3 * (Qc_cov x x * Qc_cov y y) <? c * c)%Qc.

Close Scope R_scope.

(** * The rest of the server

    Vocabulary for further properties of the ensemble, and the embedding
    of [analyze_audio_with_gemini], [analyze_audio_comprehensive],
    [get_key_color] and [format_bpm_description]
    ([server/audio_analysis.py]), of [separate_audio_with_progress]
    ([server/audio_processing.py]) and of the job thread and the download
    route ([server/audio_api.py]). *)

(** Whether a label contains a space. *)
Fixpoint has_space (s : string) : bool :=
  match s with
  | EmptyString => false
  | String c rest => Ascii.eqb c " "%char || has_space rest
  end.

(** The confidences the five tempo strategies attach to their estimates. *)
Definition strategy_weights : list Qc :=
  [Q2Qc 0.7; Q2Qc 0.6; Q2Qc 0.8; Q2Qc 0.65; Q2Qc 0.75].

Definition strategy_weight (c : candidate) : Prop := In (snd c) strategy_weights.

(** The table of [get_key_color], in source order. *)
Definition key_colors : list (string * string) :=
  [("C major", "#FF6B6B"); ("C minor", "#FF8E8E");
   ("C# major", "#FF9F43"); ("C# minor", "#FFB366");
   ("D major", "#FFA726"); ("D minor", "#FFCC80");
   ("D# major", "#FFEB3B"); ("D# minor", "#FFF176");
   ("E major", "#8BC34A"); ("E minor", "#AED581");
   ("F major", "#4CAF50"); ("F minor", "#81C784");
   ("F# major", "#26A69A"); ("F# minor", "#4DB6AC");
   ("G major", "#29B6F6"); ("G minor", "#64B5F6");
   ("G# major", "#3F51B5"); ("G# minor", "#7986CB");
   ("A major", "#9C27B0"); ("A minor", "#BA68C8");
   ("A# major", "#E91E63"); ("A# minor", "#F06292");
   ("B major", "#F44336"); ("B minor", "#EF5350")]%string.

Definition default_gray : string := "#9E9E9E".

(** [key_colors.get(key_signature, '#9E9E9E')]. *)
Definition get_key_color (key_signature : string) : string :=
  match dict_get key_colors key_signature with
  | Some color => color
  | None => default_gray
  end.

(** The tempo values the octave correction never leaves: strictly between
    60 and 80, or strictly between 160 and 280. *)
Definition in_octave_gap (b : Qc) : Prop :=
  (Q2Qc 60 < b /\ b < Q2Qc 80) \/ (Q2Qc 160 < b /\ b < Q2Qc 280).

(** A decodable file on which beat tracking reports [tempo] at every hop
    length and the frame-wise features are available; the remaining tempo
    strategies and the chroma analyses raise [e]. *)
Definition metronome_librosa (tempo : Qc) (e : PyExc) : Librosa unit := {|
  librosa_load := fun _ => Ok (tt, 44100%Z);
  librosa_beat_track := fun _ _ _ => Ok tempo;
  librosa_onset_detect := fun _ _ => Raise e;
  librosa_autocorr_peaks := fun _ _ => Raise e;
  librosa_dynamic_tempo := fun _ _ => Raise e;
  librosa_chroma_stft := fun _ _ => Raise e;
  librosa_chroma_cqt := fun _ _ => Raise e;
  librosa_chroma_cens := fun _ _ => Raise e;
  librosa_hpss := fun _ => Raise e;
  librosa_get_duration := fun _ _ => Ok (Q2Qc 12);
  librosa_spectral_centroid := fun _ _ => Ok [Q2Qc 1500; Q2Qc 1700];
  librosa_zero_crossing_rate := fun _ => Ok [Q2Qc 0.05; Q2Qc 0.07];
  librosa_spectral_rolloff := fun _ _ => Ok [Q2Qc 3000; Q2Qc 3400];
  librosa_spectral_bandwidth := fun _ _ => Ok [Q2Qc 1800; Q2Qc 2000];
  librosa_mfcc := fun _ _ => Ok [[Q2Qc 1; Q2Qc 3]];
  librosa_rms := fun _ => Ok [Q2Qc 0.1; Q2Qc 0.4]
|}.

(** ** Python values and dicts

    What the dicts of the program hold.  A float is a rational, except the
    key confidence, which is a real (see the header).  A dict keeps its
    items in insertion order; its keys are strings. *)

#[warnings="-register-all"]
Inductive PyValue : Type :=
| PyNone
| PyBool (b : bool)
| PyInt (z : Z)
| PyFloat (x : Qc)
| PyReal (x : R)
| PyStr (s : string)
| PyList (items : list PyValue)
| PyDict (items : list (string * PyValue)).

Definition py_dict : Type := list (string * PyValue).

(** [d[key] = value]: an existing key keeps its place. *)
Fixpoint dict_set (d : py_dict) (key : string) (value : PyValue) : py_dict :=
  match d with
  | [] => [(key, value)]
  | (k, v) :: rest =>
      if String.eqb k key then (k, value) :: rest
      else (k, v) :: dict_set rest key value
  end.

(** [d.get(key, default)]. *)
Definition dict_get_default (d : py_dict) (key : string) (default : PyValue)
  : PyValue :=
  match dict_get d key with
  | Some v => v
  | None => default
  end.

(** [key in d]. *)
Definition dict_contains (d : py_dict) (key : string) : bool :=
  match dict_get d key with
  | Some _ => true
  | None => false
  end.

(** [a if a is not None else None] for an optional field. *)
Definition opt_value {A : Type} (f : A -> PyValue) (o : option A) : PyValue :=
  match o with
  | Some a => f a
  | None => PyNone
  end.

(** The dict that [analyze_audio_features] returns, in the order of its
    literal; both literals of the source list their keys in this order. *)
Definition analysis_dict (r : AnalysisResult) : py_dict :=
  [("bpm", opt_value PyFloat (bpm r));
   ("bpm_confidence", PyFloat (bpm_confidence r));
   ("key", PyStr (key r));
   ("key_confidence", PyReal (key_confidence r));
   ("duration", opt_value PyFloat (duration r));
   ("spectral_centroid", opt_value PyFloat (spectral_centroid r));
   ("spectral_rolloff", opt_value PyFloat (spectral_rolloff r));
   ("spectral_bandwidth", opt_value PyFloat (spectral_bandwidth r));
   ("zero_crossing_rate", opt_value PyFloat (zero_crossing_rate r));
   ("dynamic_range", opt_value PyFloat (dynamic_range r));
   ("mfcc_features",
    opt_value (fun l => PyList (map PyFloat l)) (mfcc_features r));
   ("sample_rate", opt_value PyInt (sample_rate r));
   ("analysis_success", PyBool (analysis_success r))]%string
  ++ match error r with
     | Some s => [("error"%string, PyStr s)]
     | None => []
     end.

(** ** Python builtins on values *)

(** [type(v).__name__]. *)
Definition type_name (v : PyValue) : string :=
  match v with
  | PyNone => "NoneType"
  | PyBool _ => "bool"
  | PyInt _ => "int"
  | PyFloat _ | PyReal _ => "float"
  | PyStr _ => "str"
  | PyList _ => "list"
  | PyDict _ => "dict"
  end.

(** [bool(v)]. *)
Definition py_bool (v : PyValue) : bool :=
  match v with
  | PyNone => false
  | PyBool b => b
  | PyInt z => negb (Z.eqb z 0)
  | PyFloat x => negb (Qc_eq_bool x 0)
  | PyReal x => if Req_dec_T x 0%R then false else true
  | PyStr s => negb (String.eqb s "")
  | PyList items => match items with [] => false | _ => true end
  | PyDict items => match items with [] => false | _ => true end
  end.

(** [v.get(key, default)]: only a dict has the method. *)
Definition py_get (v : PyValue) (key : string) (default : PyValue)
  : result PyValue :=
  match v with
  | PyDict d => Ok (dict_get_default d key default)
  | _ => Raise (mkExc "AttributeError"
                  ("'" ++ type_name v ++ "' object has no attribute 'get'"))
  end.

(** ** The Gemini analysis ([analyze_audio_with_gemini])

    The SDK, the JSON parser and the conversions [float] and [int] are
    black boxes: each call returns a value or raises.  The substitution that
    removes the code fences is a function of the text. *)

Record GenAI (Client File Response : Type) : Type := {
  GENAI_AVAILABLE : bool;
  (** [os.getenv('GEMINI_API_KEY')] *)
  GEMINI_API_KEY : option string;
  (** [genai.Client()] *)
  genai_Client : result Client;
  (** [client.files.upload(file=audio_path)] *)
  files_upload : Client -> string -> result File;
  (** [client.models.generate_content(model=..., contents=[prompt, myfile])] *)
  generate_content : Client -> File -> result Response;
  (** [response.text] *)
  response_text : Response -> result (option string);
  (** [re.sub(r'^```(?:json)?\s*|```$', '', text.strip(), flags=...)] *)
  strip_fences : string -> string;
  json_loads : string -> result PyValue;
  (** [float(v)] and [int(v)] *)
  py_float : PyValue -> result PyValue;
  py_int : PyValue -> result PyValue;
  (** the exception of [v[:12]] for a [v] that is neither list nor str *)
  subscript_error : PyValue -> PyExc
}.

Arguments GENAI_AVAILABLE {Client File Response} _.
Arguments GEMINI_API_KEY {Client File Response} _.
Arguments genai_Client {Client File Response} _.
Arguments files_upload {Client File Response} _ _ _.
Arguments generate_content {Client File Response} _ _ _.
Arguments response_text {Client File Response} _ _.
Arguments strip_fences {Client File Response} _ _.
Arguments json_loads {Client File Response} _ _.
Arguments py_float {Client File Response} _ _.
Arguments py_int {Client File Response} _ _.
Arguments subscript_error {Client File Response} _ _.

(** Truth value of the API key: [None] and the empty string are false. *)
Definition key_set (k : option string) : bool :=
  match k with
  | Some s => negb (String.eqb s "")
  | None => false
  end.

(** The dict returned when the SDK or the key is missing. *)
Definition gemini_unavailable : py_dict :=
  [("success", PyBool false);
   ("error", PyStr "Google GenAI not available or API key not set");
   ("tags", PyList []);
   ("description", PyStr "");
   ("transcription", PyStr "");
   ("genre_confidence", PyFloat 0);
   ("has_vocals", PyBool false);
   ("energy_level", PyInt 0);
   ("instruments_detected", PyList [])]%string.

(** The dict of [except json.JSONDecodeError as e]. *)
Definition gemini_parse_failed (e : PyExc) : py_dict :=
  [("success", PyBool false);
   ("error", PyStr ("JSON parsing failed: " ++ exc_str e));
   ("tags", PyList []);
   ("description", PyStr "Audio analysis failed");
   ("transcription", PyStr "");
   ("genre_confidence", PyFloat (Q2Qc 0.5));
   ("has_vocals", PyBool false);
   ("energy_level", PyInt 5);
   ("instruments_detected", PyList [])]%string.

(** The dict of the outer [except Exception as e]. *)
Definition gemini_failed (e : PyExc) : py_dict :=
  [("success", PyBool false);
   ("error", PyStr (exc_str e));
   ("tags", PyList []);
   ("description", PyStr "");
   ("transcription", PyStr "");
   ("genre_confidence", PyFloat 0);
   ("has_vocals", PyBool false);
   ("energy_level", PyInt 0);
   ("instruments_detected", PyList [])]%string.

(** [try: body / except cls as e: handler(e)]: an exception of another
    class passes through. *)
Definition try_except {A : Type} (body : result A) (cls : string)
  (handler : PyExc -> result A) : result A :=
  match body with
  | Ok a => Ok a
  | Raise e => if String.eqb (exc_class e) cls then handler e else Raise e
  end.

(** [try: body / except Exception as e: return handler(e)]. *)
Definition try_except_all {A : Type} (body : result A) (handler : PyExc -> A)
  : A :=
  match body with
  | Ok a => a
  | Raise e => handler e
  end.

(** [str.strip()] on single-byte text: blank characters are the ASCII
    whitespace and the four separators 28 to 31. *)
Definition is_space (c : ascii) : bool :=
  let n := nat_of_ascii c in
  ((9 <=? n) && (n <=? 13) || (28 <=? n) && (n <=? 32))%nat.

Fixpoint lstrip (s : string) : string :=
  match s with
  | EmptyString => EmptyString
  | String c rest => if is_space c then lstrip rest else s
  end.

Fixpoint rstrip (s : string) : string :=
  match s with
  | EmptyString => EmptyString
  | String c rest =>
      match rstrip rest with
      | EmptyString => if is_space c then EmptyString else String c EmptyString
      | kept => String c kept
      end
  end.

Definition strip (s : string) : string := lstrip (rstrip s).

Section Gemini.

Context {Client File Response : Type}.
Variable genai : GenAI Client File Response.

(** [v[:12]]. *)
Definition slice12 (v : PyValue) : result PyValue :=
  match v with
  | PyList items => Ok (PyList (firstn 12 items))
  | PyStr s => Ok (PyStr (substring 0 12 s))
  | _ => Raise (subscript_error genai v)
  end.

(** The inner [try] block up to its [return]. *)
Definition parse_reply (response : Response) : result py_dict :=
  text <- response_text genai response ;;
  stripped <- match text with
              | Some t => Ok (strip t)
              | None => Raise (mkExc "AttributeError"
                            "'NoneType' object has no attribute 'strip'")
              end ;;
  let cleaned_text := strip_fences genai stripped in
  gemini_analysis <- json_loads genai cleaned_text ;;
  tags_all <- py_get gemini_analysis "tags" (PyList []) ;;
  tags <- slice12 tags_all ;;
  description <- py_get gemini_analysis "description" (PyStr "") ;;
  transcription <- py_get gemini_analysis "transcription" (PyStr "") ;;
  genre_confidence_raw <-
    py_get gemini_analysis "genre_confidence" (PyFloat (Q2Qc 0.5)) ;;
  genre_confidence <- py_float genai genre_confidence_raw ;;
  has_vocals <- py_get gemini_analysis "has_vocals" (PyBool false) ;;
  energy_level_raw <- py_get gemini_analysis "energy_level" (PyInt 5) ;;
  energy_level <- py_int genai energy_level_raw ;;
  instruments_detected <-
    py_get gemini_analysis "instruments_detected" (PyList []) ;;
  Ok [("success", PyBool true);
      ("tags", tags);
      ("description", description);
      ("transcription", transcription);
      ("genre_confidence", genre_confidence);
      ("has_vocals", PyBool (py_bool has_vocals));
      ("energy_level", energy_level);
      ("instruments_detected", instruments_detected)]%string.

(** The handler of [json.JSONDecodeError]; its [print] reads
    [response.text] once more. *)
Definition parse_failed_handler (response : Response) (e : PyExc)
  : result py_dict :=
  _ <- response_text genai response ;;
  Ok (gemini_parse_failed e).

Definition analyze_audio_with_gemini (audio_path : string) : result py_dict :=
  if negb (GENAI_AVAILABLE genai) || negb (key_set (GEMINI_API_KEY genai))
  then Ok gemini_unavailable
  else
    client <- genai_Client genai ;;
    Ok (try_except_all
          (myfile <- files_upload genai client audio_path ;;
           response <- generate_content genai client myfile ;;
           try_except (parse_reply response) "JSONDecodeError"
             (parse_failed_handler response))
          gemini_failed).

End Gemini.

(** ** The combined analysis ([analyze_audio_comprehensive]) *)

Section Comprehensive.

Context {Waveform EssentiaAudio Client File Response : Type}.
Variable librosa : Librosa Waveform.
Variable es : Essentia Waveform EssentiaAudio.
Variable genai : GenAI Client File Response.

(** [{**traditional_features, 'gemini_analysis': gemini_analysis}]. *)
Definition analyze_audio_comprehensive (audio_path : string)
  : result py_dict :=
  let traditional_features :=
    analysis_dict (analyze_audio_features librosa es audio_path) in
  gemini_analysis <- analyze_audio_with_gemini genai audio_path ;;
  Ok (dict_set traditional_features "gemini_analysis"
        (PyDict gemini_analysis)).

End Comprehensive.

(** ** Text of a demucs output line

    Text is a string of single-byte characters: [\d] is an ASCII digit and
    [lower] maps the ASCII capitals. *)

Definition is_digit (c : ascii) : bool :=
  let n := nat_of_ascii c in ((48 <=? n) && (n <=? 57))%nat.

(** The longest run of digits at the start of [s], and what follows it. *)
Fixpoint span_digits (s : string) : string * string :=
  match s with
  | EmptyString => (EmptyString, EmptyString)
  | String c rest =>
      if is_digit c
      then let (digits, after) := span_digits rest in (String c digits, after)
      else (EmptyString, s)
  end.

(** A match of [(\d+)%] at the start of [s]: group 1.  The repetition is
    greedy, and giving back a digit cannot help, since a digit would then
    have to be the percent sign. *)
Definition match_percent (s : string) : option string :=
  match span_digits s with
  | (String d digits, String c _) =>
      if Ascii.eqb c "%" then Some (String d digits) else None
  | _ => None
  end.

(** [re.search(r'(\d+)%', s)]: the match at the leftmost position that has
    one. *)
Fixpoint re_search_percent (s : string) : option string :=
  match match_percent s with
  | Some group => Some group
  | None =>
      match s with
      | EmptyString => None
      | String _ rest => re_search_percent rest
      end
  end.

(** [int(group)] for a string of digits (no bound on its length). *)
Fixpoint int_of_digits_from (acc : N) (digits : string) : N :=
  match digits with
  | EmptyString => acc
  | String c rest =>
      int_of_digits_from (10 * acc + (N_of_ascii c - 48))%N rest
  end.

Definition int_of_digits (digits : string) : N := int_of_digits_from 0 digits.

(** [needle in s]. *)
Fixpoint contains (needle s : string) : bool :=
  String.prefix needle s
  || match s with
     | EmptyString => false
     | String _ rest => contains needle rest
     end.

Definition lower_char (c : ascii) : ascii :=
  let n := nat_of_ascii c in
  if ((65 <=? n) && (n <=? 90))%nat then ascii_of_nat (n + 32) else c.

(** [s.lower()]. *)
Fixpoint lower (s : string) : string :=
  match s with
  | EmptyString => EmptyString
  | String c rest => String (lower_char c) (lower rest)
  end.

(** [str(n)] of an int. *)
Definition str_of_N (n : N) : string := NilEmpty.string_of_uint (N.to_uint n).
Definition str_of_Z (z : Z) : string := NilEmpty.string_of_int (Z.to_int z).

(** [int(x)] of a float: truncation towards zero. *)
Definition py_trunc (x : Qc) : Z := Z.quot (Qnum x) (Zpos (Qden x)).

(** ** Programs that call back

    [separate_audio_with_progress] reports through a callback of its
    caller.  The callback acts on a state of the caller and may raise; what
    it did before raising stays done. *)

Definition prog (S A : Type) : Type := S -> result A * S.

Definition ret {S A : Type} (a : A) : prog S A := fun s => (Ok a, s).

Definition raise {S A : Type} (e : PyExc) : prog S A := fun s => (Raise e, s).

Definition lift {S A : Type} (r : result A) : prog S A := fun s => (r, s).

Definition pbind {S A B : Type} (c : prog S A) (k : A -> prog S B)
  : prog S B :=
  fun s =>
    match c s with
    | (Ok a, s') => k a s'
    | (Raise e, s') => (Raise e, s')
    end.

Notation "x <~ c ;; k" := (pbind c (fun x => k))
  (at level 61, c at next level, right associativity).

(** [try: body / except Exception as e: handler(e)]. *)
Definition catch {S A : Type} (body : prog S A) (handler : PyExc -> prog S A)
  : prog S A :=
  fun s =>
    match body s with
    | (Ok a, s') => (Ok a, s')
    | (Raise e, s') => handler e s'
    end.

(** [progress_callback(progress_percent, message, audio_features)]. *)
Definition Callback (S : Type) : Type :=
  Z -> string -> option py_dict -> prog S unit.

(** ** Stem separation ([separate_audio_with_progress])

    The demucs process is seen through its merged output, line by line,
    and its return code. *)

Record Process : Type := {
  (** the lines that the iteration over [process.stdout] yields *)
  stdout : list string;
  (** the exception, if any, that ends that iteration *)
  stdout_error : option PyExc;
  (** [process.wait()] *)
  wait : result Z
}.

Record System : Type := {
  (** [os.makedirs(path, exist_ok=True)] *)
  os_makedirs : string -> result unit;
  (** [subprocess.Popen(args, stdout=PIPE, stderr=STDOUT, ...)] *)
  subprocess_Popen : list string -> result Process
}.

Definition progress_keywords : list string :=
  ["processing"; "analyzing"; "separating"]%string.

Section Separation.

Context {Waveform EssentiaAudio Client File Response S : Type}.
Variable librosa : Librosa Waveform.
Variable es : Essentia Waveform EssentiaAudio.
Variable genai : GenAI Client File Response.
Variable sys : System.
Variable progress_callback : Callback S.

(** The body of [for line in process.stdout]; the value is the new
    [current_progress]. *)
Definition track_line (comprehensive_features : py_dict)
  (current_progress : Qc) (line : string) : prog S Qc :=
  let line := strip line in
  match re_search_percent line with
  | Some group =>
      let percent := int_of_digits group in
      let scaled_progress :=
        Q2Qc 10 + Qc_of_Z (Z.of_N percent) * Q2Qc 0.80 in
      if current_progress <? scaled_progress then
        _ <~ progress_callback (py_trunc scaled_progress)
               ("Separating audio... " ++ str_of_N percent ++ "%")%string
               (Some comprehensive_features) ;;
        ret scaled_progress
      else ret current_progress
  | None =>
      if contains "Separating track"%string line then
        _ <~ progress_callback 15%Z "Starting audio separation..."%string
               (Some comprehensive_features) ;;
        ret current_progress
      else if contains "Selected model"%string line then
        _ <~ progress_callback 12%Z "Loading AI model..."%string
               (Some comprehensive_features) ;;
        ret current_progress
      else if existsb (fun keyword => contains keyword (lower line))
                progress_keywords then
        if current_progress <? Q2Qc 20 then
          _ <~ progress_callback 20%Z "Processing audio data..."%string
                 (Some comprehensive_features) ;;
          ret (Q2Qc 20)
        else ret current_progress
      else ret current_progress
  end.

Fixpoint track_lines (comprehensive_features : py_dict)
  (current_progress : Qc) (lines : list string) : prog S Qc :=
  match lines with
  | [] => ret current_progress
  | line :: rest =>
      current_progress <~
        track_line comprehensive_features current_progress line ;;
      track_lines comprehensive_features current_progress rest
  end.

(** The [try] block. *)
Definition separate_body (input_path output_dir : string) : prog S py_dict :=
  _ <~ progress_callback 2%Z "Analyzing audio with AI understanding..."%string
         None ;;
  comprehensive_features <~
    lift (analyze_audio_comprehensive librosa es genai input_path) ;;
  _ <~ progress_callback 8%Z "AI audio analysis complete"%string
         (Some comprehensive_features) ;;
  process <~
    lift (subprocess_Popen sys ["demucs"; "-o"; output_dir; input_path]%string) ;;
  _ <~ progress_callback 10%Z "Initializing audio separation..."%string
         (Some comprehensive_features) ;;
  _ <~ track_lines comprehensive_features (Q2Qc 10) (stdout process) ;;
  _ <~ match stdout_error process with
       | Some e => raise e
       | None => ret tt
       end ;;
  return_code <~ lift (wait process) ;;
  if negb (Z.eqb return_code 0) then
    raise (mkExc "RuntimeError"
             ("Demucs separation failed with code " ++ str_of_Z return_code)%string)
  else
    _ <~ progress_callback 90%Z "Finalizing separated stems..."%string
           (Some comprehensive_features) ;;
    ret comprehensive_features.

(** The two handlers, in the order of the source.  An exception is matched
    by the name of its class. *)
Definition separation_handler (e : PyExc) : prog S py_dict :=
  if String.eqb (exc_class e) "CalledProcessError" then
    raise (mkExc "RuntimeError"
             ("Demucs separation failed: " ++ exc_str e)%string)
  else
    raise (mkExc "RuntimeError"
             ("Audio separation error: " ++ exc_str e)%string).

Definition separate_audio_with_progress (input_path output_dir : string)
  : prog S py_dict :=
  _ <~ lift (os_makedirs sys output_dir) ;;
  catch (separate_body input_path output_dir) separation_handler.

End Separation.

(** ** The HTTP API ([audio_api.py])

    [job_progress] maps a job id to the dict of the job.  The background
    thread of a job acts on that dict only. *)

(** The dict that [separate] stores for a new job. *)
Definition new_job (base_name : string) : py_dict :=
  [("status", PyStr "processing");
   ("progress", PyInt 0);
   ("message", PyStr "Starting audio separation...");
   ("filename", PyStr base_name);
   ("audio_features", PyNone);
   ("gemini_analysis", PyNone)]%string.

(** Truth value of a dict. *)
Definition dict_truthy (d : py_dict) : bool :=
  match d with
  | [] => false
  | _ => true
  end.

(** [{k: v for k, v in d.items() if k != 'gemini_analysis'}]. *)
Definition without_gemini (d : py_dict) : py_dict :=
  filter (fun kv => negb (String.eqb (fst kv) "gemini_analysis")) d.

(** The block [if comprehensive_features: ...] that the callback and the
    completion step share (source lines 65 to 72 and 130 to 135). *)
Definition store_features (comprehensive_features : py_dict) (job : py_dict)
  : py_dict :=
  if dict_truthy comprehensive_features then
    let traditional_features := without_gemini comprehensive_features in
    let job := dict_set job "audio_features" (PyDict traditional_features) in
    match dict_get comprehensive_features "gemini_analysis" with
    | Some gemini_analysis => dict_set job "gemini_analysis" gemini_analysis
    | None => job
    end
  else job.

(** The closure [progress_callback] of [process_audio]. *)
Definition api_progress_callback : Callback py_dict :=
  fun progress message comprehensive_features job =>
    let job := dict_set job "progress" (PyInt progress) in
    let job := dict_set job "message" (PyStr message) in
    (Ok tt,
     match comprehensive_features with
     | Some features => store_features features job
     | None => job
     end).

(** [s.endswith(suffix)]. *)
Definition endswith (suffix s : string) : bool :=
  let n := String.length s in
  let m := String.length suffix in
  (m <=? n)%nat && String.eqb (substring (n - m) m s) suffix.

(** [92 + (i + 1) * 2 // len(stem_files)]. *)
Definition stem_progress (i n : nat) : Z :=
  (92 + (Z.of_nat i + 1) * 2 / Z.of_nat n)%Z.

Record FileSystem : Type := {
  os_listdir : string -> result (list string);
  os_path_isdir : string -> bool;
  os_path_join : string -> string -> string;
  (** [os.path.splitext(name)[0]] *)
  splitext_root : string -> string;
  tempfile_gettempdir : result string;
  (** the [with zipfile.ZipFile(zip_path, 'w')] block over [stems_dir] *)
  zip_stems : string -> string -> result unit
}.

(** [job[key] = value] as a step of the thread. *)
Definition job_set (key : string) (value : PyValue) : prog py_dict unit :=
  fun job => (Ok tt, dict_set job key value).

Section Api.

Context {Waveform EssentiaAudio Client File Response : Type}.
Variable librosa : Librosa Waveform.
Variable es : Essentia Waveform EssentiaAudio.
Variable genai : GenAI Client File Response.
Variable sys : System.
Variable fs : FileSystem.

(** One round of [for i, stem_file in enumerate(stem_files)]; [n] is
    [len(stem_files)]. *)
Definition analyze_stem (stems_dir : string) (n i : nat) (stem_file : string)
  (stem_analyses : py_dict) : prog py_dict py_dict :=
  let stem_path := os_path_join fs stems_dir stem_file in
  let stem_name := splitext_root fs stem_file in
  match analyze_audio_comprehensive librosa es genai stem_path with
  | Ok stem_comprehensive_analysis =>
      _ <~ job_set "progress" (PyInt (stem_progress i n)) ;;
      _ <~ job_set "message"
             (PyStr ("Analyzing " ++ stem_name ++ " stem with AI...")) ;;
      ret (dict_set stem_analyses stem_name
             (PyDict stem_comprehensive_analysis))
  | Raise e =>
      ret (dict_set stem_analyses stem_name
             (PyDict [("analysis_success"%string, PyBool false);
                      ("error"%string, PyStr (exc_str e))]))
  end.

Fixpoint analyze_stems (stems_dir : string) (n i : nat)
  (stem_files : list string) (stem_analyses : py_dict)
  : prog py_dict py_dict :=
  match stem_files with
  | [] => ret stem_analyses
  | stem_file :: rest =>
      stem_analyses <~ analyze_stem stems_dir n i stem_file stem_analyses ;;
      analyze_stems stems_dir n (S i) rest stem_analyses
  end.

(** [[d for d in os.listdir(path) if os.path.isdir(os.path.join(path, d))]]. *)
Definition subdirs (path : string) : result (list string) :=
  entries <- os_listdir fs path ;;
  Ok (filter (fun d => os_path_isdir fs (os_path_join fs path d)) entries).

(** The [try] block of [process_audio]. *)
Definition process_body (base_name unique_id input_path output_dir : string)
  : prog py_dict unit :=
  let job_id := unique_id in
  comprehensive_features <~
    separate_audio_with_progress librosa es genai sys api_progress_callback
      input_path output_dir ;;
  demucs_subdirs <~ lift (subdirs output_dir) ;;
  match demucs_subdirs with
  | [] =>
      _ <~ job_set "status" (PyStr "error") ;;
      job_set "message" (PyStr "No stems found in output directory.")
  | first_subdir :: _ =>
      let stems_dir := os_path_join fs output_dir first_subdir in
      stems_subdirs <~ lift (subdirs stems_dir) ;;
      let stems_dir :=
        match stems_subdirs with
        | first_stems :: _ => os_path_join fs stems_dir first_stems
        | [] => stems_dir
        end in
      _ <~ job_set "progress" (PyInt 92) ;;
      _ <~ job_set "message" (PyStr "Analyzing individual stems...") ;;
      entries <~ lift (os_listdir fs stems_dir) ;;
      let stem_files :=
        filter (fun f => endswith ".wav" f || endswith ".mp3" f) entries in
      stem_analyses <~
        analyze_stems stems_dir (length stem_files) 0 stem_files [] ;;
      _ <~ job_set "progress" (PyInt 95) ;;
      _ <~ job_set "message" (PyStr "Creating download package...") ;;
      tmp <~ lift (tempfile_gettempdir fs) ;;
      let zip_path :=
        os_path_join fs tmp (base_name ++ "_stems_" ++ unique_id ++ ".zip") in
      _ <~ lift (zip_stems fs zip_path stems_dir) ;;
      _ <~ job_set "status" (PyStr "completed") ;;
      _ <~ job_set "progress" (PyInt 100) ;;
      _ <~ job_set "message" (PyStr "Audio separation completed!") ;;
      _ <~ job_set "download_url" (PyStr ("/download/" ++ job_id)) ;;
      _ <~ job_set "zip_path" (PyStr zip_path) ;;
      _ <~ (fun job => (Ok tt, store_features comprehensive_features job)) ;;
      job_set "stem_analyses" (PyDict stem_analyses)
  end.

(** The handler [except Exception as e] of [process_audio]. *)
Definition process_handler (e : PyExc) : prog py_dict unit :=
  _ <~ job_set "status" (PyStr "error") ;;
  job_set "message" (PyStr ("Error: " ++ exc_str e)).

(** The thread body [process_audio]; [parent_dir] is
    [os.path.join(RESULTS_FOLDER, base_name)]. *)
Definition process_audio (base_name unique_id input_path parent_dir : string)
  : prog py_dict unit :=
  let output_dir := os_path_join fs parent_dir unique_id in
  _ <~ lift (os_makedirs sys output_dir) ;;
  catch (process_body base_name unique_id input_path output_dir)
    process_handler.

End Api.

(** ** The download route

    [send_file] is flask's: it returns a response or raises, for instance
    when the file is no longer there.  [jsonify] is only given a literal
    dict. *)

Record Flask (FileResponse : Type) : Type := {
  (** [send_file(path, as_attachment=True, download_name=name)] *)
  send_file : PyValue -> string -> result FileResponse;
  (** the text that an f-string inserts for a value that is not a str *)
  format_other : PyValue -> string
}.

Arguments send_file {FileResponse} _ _ _.
Arguments format_other {FileResponse} _ _.

(** What a route returns: [jsonify(body), status_code], or the response of
    [send_file]. *)
Inductive HttpResponse (FileResponse : Type) : Type :=
| Json (body : py_dict) (status_code : Z)
| FileSent (response : FileResponse).

Arguments Json {FileResponse} body status_code.
Arguments FileSent {FileResponse} response.

(** [d[key]]. *)
Definition getitem (d : py_dict) (key : string) : result PyValue :=
  match dict_get d key with
  | Some v => Ok v
  | None => Raise (mkExc "KeyError" ("'" ++ key ++ "'"))
  end.

(** [v == 'completed']. *)
Definition is_completed (v : PyValue) : bool :=
  match v with
  | PyStr s => String.eqb s "completed"
  | _ => false
  end.

Section Download.

Context {FileResponse : Type}.
Variable flask : Flask FileResponse.

(** [f"{v}"]. *)
Definition format_value (v : PyValue) : string :=
  match v with
  | PyStr s => s
  | _ => format_other flask v
  end.

(** The route [/download/<job_id>]. *)
Definition download_result (job_progress : list (string * py_dict))
  (job_id : string) : result (HttpResponse FileResponse) :=
  let not_found :=
    Json [("error"%string, PyStr "Job not found or not completed")] 404 in
  match dict_get job_progress job_id with
  | None => Ok not_found
  | Some job =>
      status <- getitem job "status" ;;
      if negb (is_completed status) then Ok not_found
      else
        zip_path <- getitem job "zip_path" ;;
        filename <- getitem job "filename" ;;
        response <- send_file flask zip_path
                      (format_value filename ++ "_stems.zip")%string ;;
        Ok (FileSent response)
  end.

End Download.

(** A reply that was parsed and converted: the dict of the inner [return]. *)
Definition cleaned (d : py_dict) : Prop :=
  exists tags description transcription genre_confidence has_vocals
         energy_level instruments_detected,
    d = [("success", PyBool true);
         ("tags", tags);
         ("description", description);
         ("transcription", transcription);
         ("genre_confidence", genre_confidence);
         ("has_vocals", PyBool has_vocals);
         ("energy_level", energy_level);
         ("instruments_detected", instruments_detected)]%string
    /\ match tags with
       | PyList items => (length items <= 12)%nat
       | PyStr s => (String.length s <= 12)%nat
       | _ => False
       end.

(** The fields that every Gemini result carries besides [success]. *)
Definition gemini_fields : list string :=
  ["tags"; "description"; "transcription"; "genre_confidence"; "has_vocals";
   "energy_level"; "instruments_detected"]%string.

(** An SDK whose model replies with a text that parses to [reply]; the
    conversions return their argument. *)
Definition scripted_genai (reply : PyValue) : GenAI unit unit unit := {|
  GENAI_AVAILABLE := true;
  GEMINI_API_KEY := Some "key"%string;
  genai_Client := Ok tt;
  files_upload := fun _ _ => Ok tt;
  generate_content := fun _ _ => Ok tt;
  response_text := fun _ => Ok (Some "{}"%string);
  strip_fences := fun text => text;
  json_loads := fun _ => Ok reply;
  py_float := fun v => Ok v;
  py_int := fun v => Ok v;
  subscript_error := fun v =>
    mkExc "TypeError" ("'" ++ type_name v ++ "' object is not subscriptable")
|}.

(** An installation without the SDK. *)
Definition absent_genai : GenAI unit unit unit := {|
  GENAI_AVAILABLE := false;
  GEMINI_API_KEY := None;
  genai_Client := Raise (mkExc "NameError" "name 'genai' is not defined");
  files_upload := fun _ _ => Ok tt;
  generate_content := fun _ _ => Ok tt;
  response_text := fun _ => Ok None;
  strip_fences := fun text => text;
  json_loads := fun _ => Ok PyNone;
  py_float := fun v => Ok v;
  py_int := fun v => Ok v;
  subscript_error := fun v =>
    mkExc "TypeError" ("'" ++ type_name v ++ "' object is not subscriptable")
|}.

(** An SDK with a key whose client cannot be created. *)
Definition clientless_genai (e : PyExc) : GenAI unit unit unit := {|
  GENAI_AVAILABLE := true;
  GEMINI_API_KEY := Some "key"%string;
  genai_Client := Raise e;
  files_upload := fun _ _ => Ok tt;
  generate_content := fun _ _ => Ok tt;
  response_text := fun _ => Ok None;
  strip_fences := fun text => text;
  json_loads := fun _ => Ok PyNone;
  py_float := fun v => Ok v;
  py_int := fun v => Ok v;
  subscript_error := fun v =>
    mkExc "TypeError" ("'" ++ type_name v ++ "' object is not subscriptable")
|}.

(** Fifteen tags. *)
Definition many_tags : PyValue :=
  PyDict [("tags"%string,
           PyList (map (fun i => PyInt (Z.of_nat i)) (seq 0 15)))].

(** ** Vocabulary for the progress reports *)

(** One call of the callback: progress, message, features. *)
Definition report : Type := (Z * string * option py_dict)%type.

Definition report_progress (r : report) : Z := fst (fst r).
Definition report_message (r : report) : string := snd (fst r).
Definition report_features (r : report) : option py_dict := snd r.

(** A callback that notes each call and never raises. *)
Definition recording_callback : Callback (list report) :=
  fun progress message features log =>
    (Ok tt, log ++ [(progress, message, features)]).

(** The reports made for a percentage that demucs printed. *)
Definition percent_reports (log : list report) : list report :=
  filter (fun r => String.prefix "Separating audio... " (report_message r))
    log.

(** A callback that returns normally at every call. *)
Definition never_raises {S : Type} (callback : Callback S) : Prop :=
  forall progress message features s,
    fst (callback progress message features s) = Ok tt.

(** The percentage that [track_line] reads off a line, if any. *)
Definition line_percent (line : string) : option N :=
  option_map int_of_digits (re_search_percent (strip line)).

(** A machine on which directories can be created and demucs prints
    [lines] and exits with [code]. *)
Definition demucs_run (lines : list string) (code : Z) : System := {|
  os_makedirs := fun _ => Ok tt;
  subprocess_Popen := fun _ =>
    Ok {| stdout := lines; stdout_error := None; wait := Ok code |}
|}.

(** No line of the output shows a percentage above [limit]. *)
Definition percentages_within (lines : list string) (limit : N) : Prop :=
  forall line pct,
    In line lines -> line_percent line = Some pct -> (pct <= limit)%N.

(** The four reports that [separate_audio_with_progress] makes outside its
    loop. *)
Definition report_analyzing : report :=
  (2%Z, "Analyzing audio with AI understanding..."%string, None).
Definition report_analyzed (d : py_dict) : report :=
  (8%Z, "AI audio analysis complete"%string, Some d).
Definition report_initializing (d : py_dict) : report :=
  (10%Z, "Initializing audio separation..."%string, Some d).
Definition report_finalizing (d : py_dict) : report :=
  (90%Z, "Finalizing separated stems..."%string, Some d).

(** The outcome is an exception. *)
Definition raised {A : Type} (r : result A) : Prop :=
  match r with
  | Ok _ => False
  | Raise _ => True
  end.

(** Two dicts agree on every key outside [keys]. *)
Definition agree_outside (keys : list string) (a b : py_dict) : Prop :=
  forall k, ~ In k keys -> dict_get a k = dict_get b k.

(** The fields of a job that the callback writes. *)
Definition callback_fields : list string :=
  ["progress"; "message"; "audio_features"; "gemini_analysis"]%string.

(** The steps of [process_audio] that mark a job as completed (source
    lines 123 to 137). *)
Definition completed_job (job : py_dict) (job_id zip_path : string)
  (comprehensive_features stem_analyses : py_dict) : py_dict :=
  dict_set
    (store_features comprehensive_features
       (dict_set
          (dict_set
             (dict_set
                (dict_set
                   (dict_set job "status" (PyStr "completed"))
                   "progress" (PyInt 100))
                "message" (PyStr "Audio separation completed!"))
             "download_url" (PyStr ("/download/" ++ job_id)))
          "zip_path" (PyStr zip_path)))
    "stem_analyses" (PyDict stem_analyses).

(** A results tree as demucs leaves it: the model directory, the track
    directory, and in it two stems and a text file. *)
Definition demo_fs : FileSystem := {|
  os_listdir := fun path =>
    if endswith "job1" path then Ok ["htdemucs"%string]
    else if endswith "htdemucs" path then Ok ["song"%string]
    else Ok ["vocals.wav"; "drums.wav"; "notes.txt"]%string;
  os_path_isdir := fun path =>
    negb (endswith ".wav" path || endswith ".txt" path);
  os_path_join := fun a b => (a ++ "/" ++ b)%string;
  splitext_root := fun name => substring 0 (String.length name - 4) name;
  tempfile_gettempdir := Ok "/tmp"%string;
  zip_stems := fun _ _ => Ok tt
|}.

(** [f"{bpm} BPM (...)"] needs the text of a float, which is left to the
    caller as [show]. *)
Definition format_bpm_description (show : Qc -> string) (bpm : option Qc)
  : string :=
  match bpm with
  | None => "Unknown tempo"%string
  | Some bpm =>
      if bpm <? Q2Qc 60 then (show bpm ++ " BPM (Very Slow)")%string
      else if bpm <? Q2Qc 80 then (show bpm ++ " BPM (Slow)")%string
      else if bpm <? Q2Qc 100 then (show bpm ++ " BPM (Moderate)")%string
      else if bpm <? Q2Qc 120 then (show bpm ++ " BPM (Medium)")%string
      else if bpm <? Q2Qc 140 then (show bpm ++ " BPM (Fast)")%string
      else if bpm <? Q2Qc 160 then (show bpm ++ " BPM (Very Fast)")%string
      else (show bpm ++ " BPM (Extremely Fast)")%string
  end.

(** A server on which the zip file is there, and one on which it has been
    removed from the temporary directory. *)
Definition serving_flask : Flask string := {|
  send_file := fun _ download_name => Ok download_name;
  format_other := fun _ => ""%string
|}.

Definition FileNotFoundError : PyExc :=
  mkExc "FileNotFoundError" "[Errno 2] No such file or directory".

Definition cleaned_up_flask : Flask string := {|
  send_file := fun _ _ => Raise FileNotFoundError;
  format_other := fun _ => ""%string
|}.

(** * Properties *)

(** ** Comparisons and evaluation on the rationals *)

Lemma Qcleb_le (x y : Qc) : (x <=? y) = true <-> x <= y.
Proof. unfold Qcleb, Qcle. apply Qle_bool_iff. Qed.

Lemma Qcltb_lt (x y : Qc) : (x <? y) = true <-> x < y.
Proof.
  unfold Qcltb, Qclt. rewrite negb_true_iff.
  split; intro H.
  - apply Qnot_le_lt. intro Hle. apply Qle_bool_iff in Hle. congruence.
  - destruct (Qle_bool y x) eqn:E; [|reflexivity].
    apply Qle_bool_iff in E. exfalso. exact (Qlt_not_le _ _ H E).
Qed.

Lemma Qcleb_nle (x y : Qc) : (x <=? y) = false <-> y < x.
Proof.
  rewrite <- Qcltb_lt. unfold Qcltb, Qcleb.
  destruct (Qle_bool x y); simpl; split; congruence.
Qed.

Lemma Qcltb_nlt (x y : Qc) : (x <? y) = false <-> y <= x.
Proof.
  rewrite <- Qcleb_le. unfold Qcltb, Qcleb.
  destruct (Qle_bool y x); simpl; split; congruence.
Qed.

Lemma Qc_eq_bool_true (x y : Qc) : Qc_eq_bool x y = true <-> x = y.
Proof.
  split.
  - apply Qc_eq_bool_correct.
  - intros ->. unfold Qc_eq_bool. destruct (Qc_eq_dec y y); congruence.
Qed.

Lemma Qc_of_Z_this (z : Z) : (this (Qc_of_Z z) == inject_Z z)%Q.
Proof. unfold Qc_of_Z, Q2Qc. cbn [this]. apply Qred_correct. Qed.

(** Closed equations between rationals are settled by evaluation. *)
Ltac qc_eval := apply Qc_is_canon; vm_compute; reflexivity.

(** Linear goals on canonical rationals, through the plain rationals. *)
Ltac qc_arith :=
  unfold Qcle, Qclt, Qcdiv, Qcminus, Qcopp, Qcinv, Qcplus, Qcmult, Q2Qc in *;
  cbn [this] in *;
  repeat (rewrite !Qred_correct in *);
  cbn [Qinv Qnum Qden] in *;
  try Lqa.lra.

(** ** Empty candidate lists *)

(** C6. Empty candidate lists yield sentinel results, not errors: with no
    tempo candidate, or when no candidate is left after outlier removal (the
    averaging stage is then given the empty list), the tempo aggregator
    returns [(None, 0.0)]; with no key candidate the key aggregator returns
    [("Unknown", 0.0)]. *)
Theorem empty_candidates_give_sentinels :
  tempo_aggregate [] = Ok (None, 0)
  /\ weighted_result [] = Ok (None, 0)
  /\ (forall cands : list candidate,
        remove_outliers cands = [] -> tempo_aggregate cands = Ok (None, 0))
  /\ (forall (T : Type) (SA : ScoreArith T),
        key_aggregate (@nil (string * T)) = ("Unknown"%string, sc_zero))
  /\ (forall (W A : Type) (librosa : Librosa W) (es : Essentia W A) y sr,
        tempo_candidates librosa es y sr = [] ->
        advanced_bpm_detection librosa es y sr = (None, 0)).
Proof.
  split; [reflexivity|].
  split; [reflexivity|].
  split.
  - intros cands H. destruct cands as [|c cands]; [reflexivity|].
    unfold tempo_aggregate. rewrite H. reflexivity.
  - split; [reflexivity|].
    intros W A librosa es y sr H.
    unfold advanced_bpm_detection. rewrite H. reflexivity.
Qed.

Lemma empty_candidates_give_sentinels_witness :
  remove_outliers [] = []
  /\ tempo_aggregate [] = Ok (None, 0)
  /\ tempo_candidates (failing_librosa NoBackendError)
       (failing_essentia NoBackendError) tt 44100%Z = []
  /\ advanced_bpm_detection (failing_librosa NoBackendError)
       (failing_essentia NoBackendError) tt 44100%Z = (None, 0).
Proof.
  destruct empty_candidates_give_sentinels as (_ & _ & Hf & _ & Hd).
  split; [reflexivity|].
  split; [apply Hf; reflexivity|].
  split; [reflexivity|].
  apply Hd. reflexivity.
Defined.

(** ** The essentia tempo strategy *)

(** C10. The candidates of the essentia tempo strategy do not depend on the
    analysed audio: the loader is given the fixed file name ["temp"], so for
    any two signals the strategy emits the same candidates, which are a
    function of the environment (the essentia collaborator) only. *)
Theorem essentia_bpm_ignores_the_waveform :
  forall (W A : Type) (es : Essentia W A) (y y' : W) (sr sr' : Z),
    essentia_bpm es y sr = essentia_bpm es y' sr'
    /\ essentia_bpm es y sr =
       try_pass (audio_essentia <- es_MonoLoader es "temp" ;;
                 bpm_desc <- es_BpmHistogramDescriptors es audio_essentia ;;
                 bpm0 <- getitem0 bpm_desc ;;
                 Ok (if 0 <? bpm0 then [(bpm0, Q2Qc 0.8)] else [])).
Proof. intros. split; reflexivity. Qed.

(** ** The failure boundary of the summary *)

Lemma analyze_body_success :
  forall (W A : Type) (librosa : Librosa W) (es : Essentia W A) path r,
    analyze_body librosa es path = Ok r ->
    analysis_success r = true /\ error r = None.
Proof.
  intros W A librosa es path r. unfold analyze_body.
  destruct (librosa_load librosa path) as [[y sr]|e]; simpl; [|discriminate].
  destruct (advanced_bpm_detection librosa es y sr) as [b bc].
  destruct (advanced_key_detection librosa es y sr) as [k kc].
  repeat match goal with
         | |- context [bind ?c _] => destruct c; simpl; [|discriminate]
         end.
  intros H. injection H as <-. split; reflexivity.
Qed.

(** C5, as the code has it. No exception of the [try] block escapes
    [analyze_audio_features]: when the block raises [e], the returned dict is
    the failure dict, with [analysis_success] false, [bpm] [None], both
    confidences [0.0], [key] ["Unknown"], every other feature [None] and
    [error] equal to [str(e)], whatever that string is; a dict with
    [analysis_success] false is returned in no other case. *)
Theorem analyze_audio_features_failure_boundary :
  forall (W A : Type) (librosa : Librosa W) (es : Essentia W A)
         (path : string),
    let r := analyze_audio_features librosa es path in
    match analyze_body librosa es path with
    | Ok r' => r = r' /\ analysis_success r = true /\ error r = None
    | Raise e =>
        r = failure_result e
        /\ analysis_success r = false
        /\ bpm r = None /\ bpm_confidence r = 0
        /\ key r = "Unknown"%string /\ key_confidence r = 0%R
        /\ duration r = None /\ spectral_centroid r = None
        /\ spectral_rolloff r = None /\ spectral_bandwidth r = None
        /\ zero_crossing_rate r = None /\ dynamic_range r = None
        /\ mfcc_features r = None /\ sample_rate r = None
        /\ error r = Some (exc_str e)
    end.
Proof.
  intros W A librosa es path r. subst r. unfold analyze_audio_features.
  destruct (analyze_body librosa es path) as [r'|e] eqn:E.
  - destruct (analyze_body_success _ _ _ _ _ _ E) as [Hs He].
    repeat split; assumption.
  - repeat split.
Qed.

(** C5, counterexample to the claim as stated: decoding fails with an
    exception that carries no message, and the failure dict has an empty
    [error] string. *)
Lemma empty_error_string_counterexample :
  let r := analyze_audio_features (failing_librosa NoBackendError)
             (failing_essentia NoBackendError) "track.mp3" in
  analysis_success r = false /\ error r = Some ""%string.
Proof. split; reflexivity. Qed.

(** ** Octave correction *)

Lemma in_range_iff (lo x hi : Qc) :
  in_range lo x hi = true <-> lo <= x /\ x <= hi.
Proof.
  unfold in_range. rewrite andb_true_iff, !Qcleb_le. reflexivity.
Qed.

Lemma in_range_false (lo x hi : Qc) :
  in_range lo x hi = false <-> x < lo \/ hi < x.
Proof.
  unfold in_range. rewrite andb_false_iff, !Qcleb_nle. reflexivity.
Qed.

Lemma octave_halves (b : Qc) :
  Q2Qc 160 < b -> b <= Q2Qc 280 -> octave_correction b = b / Q2Qc 2.
Proof.
  intros H1 H2. unfold octave_correction.
  rewrite (proj2 (Qcltb_lt _ _) H1).
  assert (Hr : in_range (Q2Qc 80) (b / Q2Qc 2) (Q2Qc 140) = true).
  { apply in_range_iff. split; qc_arith. }
  rewrite Hr. reflexivity.
Qed.

Lemma octave_keeps_above (b : Qc) :
  Q2Qc 280 < b -> octave_correction b = b.
Proof.
  intros H. unfold octave_correction.
  assert (H1 : Q2Qc 160 < b) by qc_arith.
  rewrite (proj2 (Qcltb_lt _ _) H1).
  assert (Hr : in_range (Q2Qc 80) (b / Q2Qc 2) (Q2Qc 140) = false).
  { apply in_range_false. right. qc_arith. }
  rewrite Hr. reflexivity.
Qed.

Lemma octave_doubles (b : Qc) :
  Q2Qc 60 <= b -> b < Q2Qc 80 -> octave_correction b = b * Q2Qc 2.
Proof.
  intros H1 H2. unfold octave_correction.
  assert (H3 : b <= Q2Qc 160) by qc_arith.
  rewrite (proj2 (Qcltb_nlt _ _) H3), (proj2 (Qcltb_lt _ _) H2).
  assert (Hr : in_range (Q2Qc 120) (b * Q2Qc 2) (Q2Qc 160) = true).
  { apply in_range_iff. split; qc_arith. }
  rewrite Hr. reflexivity.
Qed.

Lemma octave_keeps_below (b : Qc) :
  b < Q2Qc 60 -> octave_correction b = b.
Proof.
  intros H. unfold octave_correction.
  assert (H3 : b <= Q2Qc 160) by qc_arith.
  assert (H2 : b < Q2Qc 80) by qc_arith.
  rewrite (proj2 (Qcltb_nlt _ _) H3), (proj2 (Qcltb_lt _ _) H2).
  assert (Hr : in_range (Q2Qc 120) (b * Q2Qc 2) (Q2Qc 160) = false).
  { apply in_range_false. left. qc_arith. }
  rewrite Hr. reflexivity.
Qed.

Lemma octave_keeps_middle (b : Qc) :
  Q2Qc 80 <= b -> b <= Q2Qc 160 -> octave_correction b = b.
Proof.
  intros H1 H2. unfold octave_correction.
  rewrite (proj2 (Qcltb_nlt _ _) H2), (proj2 (Qcltb_nlt _ _) H1).
  reflexivity.
Qed.

Lemma weighted_result_nonempty (cands : list candidate) (final_bpm : Qc) :
  cands <> [] ->
  np_average (map fst cands) (map snd cands) = Ok final_bpm ->
  weighted_result cands =
    Ok (Some (py_round (octave_correction final_bpm) 1),
        py_round (np_mean (map snd cands)) 2).
Proof.
  intros Hne Havg. unfold weighted_result.
  destruct cands as [|c cands]; [congruence|].
  cbn [length Nat.eqb]. rewrite Havg. reflexivity.
Qed.

(** C2. Octave-error correction is applied once, after the weighted average
    and before rounding: a value above 160 whose half lies in [80,140], that
    is a value in (160,280], is halved; otherwise a value below 80 whose
    double lies in [120,160], that is a value in [60,80), is doubled; every
    other value is kept, and nothing is halved or doubled a second time; the
    value is then rounded to 1 decimal and the confidence to 2.  A value
    above 160 has no half in [80,140] exactly when it is above 280, and it
    is kept exactly then; so an aggregate of 170 always becomes 85. *)
Theorem octave_correction_once :
  (forall b, Q2Qc 160 < b -> b <= Q2Qc 280 ->
             octave_correction b = b / Q2Qc 2)
  /\ (forall b, Q2Qc 280 < b -> octave_correction b = b)
  /\ (forall b, Q2Qc 60 <= b -> b < Q2Qc 80 ->
                octave_correction b = b * Q2Qc 2)
  /\ (forall b, b < Q2Qc 60 -> octave_correction b = b)
  /\ (forall b, Q2Qc 80 <= b -> b <= Q2Qc 160 -> octave_correction b = b)
  /\ (forall b, Q2Qc 160 < b ->
                (~ (Q2Qc 80 <= b / Q2Qc 2 /\ b / Q2Qc 2 <= Q2Qc 140)
                 <-> Q2Qc 280 < b)
                /\ (octave_correction b = b <-> Q2Qc 280 < b))
  /\ octave_correction (Q2Qc 170) = Q2Qc 85
  /\ (forall cands final_bpm,
        cands <> [] ->
        np_average (map fst cands) (map snd cands) = Ok final_bpm ->
        weighted_result cands =
          Ok (Some (py_round (octave_correction final_bpm) 1),
              py_round (np_mean (map snd cands)) 2))
  /\ (forall w, w <> 0 ->
        tempo_aggregate [(Q2Qc 170, w)] = Ok (Some (Q2Qc 85), py_round w 2)).
Proof.
  split; [exact octave_halves|].
  split; [exact octave_keeps_above|].
  split; [exact octave_doubles|].
  split; [exact octave_keeps_below|].
  split; [exact octave_keeps_middle|].
  split.
  { intros b H1. split; split.
    - intro Hn. apply Qcnot_le_lt. intro Hle. apply Hn. split; qc_arith.
    - intros Hgt [_ Hle]. qc_arith.
    - intro Hkept. apply Qcnot_le_lt. intro Hle.
      rewrite (octave_halves b H1 Hle) in Hkept.
      assert (Hq : (this (b / Q2Qc 2) == this b)%Q)
        by (rewrite Hkept; reflexivity).
      clear Hkept. qc_arith.
    - apply octave_keeps_above. }
  split; [qc_eval|].
  split; [exact weighted_result_nonempty|].
  intros w Hw.
  unfold tempo_aggregate, remove_outliers. cbn [length Nat.ltb Nat.leb].
  assert (Havg : np_average (map fst [(Q2Qc 170, w)]) (map snd [(Q2Qc 170, w)])
                 = Ok (Q2Qc 170)).
  { unfold np_average. cbn [map fst snd combine np_sum fold_right].
    replace (w + 0) with w by ring.
    destruct (Qc_eq_bool w 0) eqn:E.
    - apply Qc_eq_bool_true in E. contradiction.
    - f_equal. field. exact Hw. }
  rewrite (weighted_result_nonempty [(Q2Qc 170, w)] _ ltac:(discriminate) Havg).
  f_equal. f_equal.
  - f_equal. qc_eval.
  - f_equal. unfold np_mean. cbn [map snd length np_sum fold_right].
    replace (w + 0) with w by ring.
    replace (Qc_of_nat 1) with 1 by qc_eval.
    field. discriminate.
Qed.

Lemma octave_correction_once_witness :
  octave_correction (Q2Qc 200) = Q2Qc 100
  /\ octave_correction (Q2Qc 340) = Q2Qc 340
  /\ ~ (Q2Qc 80 <= Q2Qc 340 / Q2Qc 2 /\ Q2Qc 340 / Q2Qc 2 <= Q2Qc 140)
  /\ octave_correction (Q2Qc 70) = Q2Qc 140
  /\ octave_correction (Q2Qc 30) = Q2Qc 30
  /\ octave_correction (Q2Qc 128) = Q2Qc 128
  /\ tempo_aggregate [(Q2Qc 170, Q2Qc 0.7)]
     = Ok (Some (Q2Qc 85), py_round (Q2Qc 0.7) 2)
  /\ weighted_result [(Q2Qc 170, Q2Qc 0.7)]
     = Ok (Some (py_round (octave_correction (Q2Qc 170)) 1),
           py_round (np_mean (map snd [(Q2Qc 170, Q2Qc 0.7)])) 2).
Proof.
  destruct octave_correction_once
    as (Hh & Ha & Hd & Hb & Hm & Hs & _ & Hw & Ht).
  assert (H340 : Q2Qc 160 < Q2Qc 340) by reflexivity.
  split.
  { rewrite Hh; [qc_eval | reflexivity | vm_compute; discriminate]. }
  split.
  { apply (proj2 (Hs (Q2Qc 340) H340)). reflexivity. }
  split.
  { apply (proj1 (Hs (Q2Qc 340) H340)). reflexivity. }
  split.
  { rewrite Hd; [qc_eval | vm_compute; discriminate | reflexivity]. }
  split.
  { apply Hb. reflexivity. }
  split.
  { apply Hm; vm_compute; discriminate. }
  split.
  { apply Ht. discriminate. }
  apply Hw; [discriminate|]. 
  unfold np_average. cbn [map fst snd combine].
  replace (Qc_eq_bool (np_sum [Q2Qc 0.7]) 0) with false by reflexivity.
  f_equal. qc_eval.
Defined.

(** The half of 170 is 85, which lies in [80,140]: an aggregate of 170 is
    never kept, whatever the candidates it comes from. *)
Lemma aggregate_of_170_is_halved_counterexample :
  (Q2Qc 80 <= Q2Qc 170 / Q2Qc 2 /\ Q2Qc 170 / Q2Qc 2 <= Q2Qc 140)
  /\ octave_correction (Q2Qc 170) <> Q2Qc 170
  /\ tempo_aggregate (at_confidence 0.7 [170; 171; 169]%Q)
     = Ok (Some (Q2Qc 85), Q2Qc 0.7).
Proof.
  split; [split; vm_compute; discriminate|].
  split.
  - replace (octave_correction (Q2Qc 170)) with (Q2Qc 85) by (symmetry; qc_eval).
    intro H. apply (f_equal this) in H. vm_compute in H. discriminate H.
  - vm_compute. apply f_equal.
    apply f_equal2; [apply f_equal|]; apply Qc_is_canon; reflexivity.
Qed.

(** ** The onset-interval strategy *)

Lemma np_diff_length (a : list Qc) : length (np_diff a) = (length a - 1)%nat.
Proof.
  induction a as [|x [|y t] IH]; try reflexivity.
  change (np_diff (x :: y :: t)) with ((y - x) :: np_diff (y :: t)).
  cbn [length] in *. rewrite IH. lia.
Qed.

Lemma Qc_of_nat_S (i : nat) : Qc_of_nat (S i) = Qc_of_nat i + 1.
Proof.
  apply Qc_is_canon. unfold Qc_of_nat, Qc_of_Z. qc_arith.
  rewrite Nat2Z.inj_succ. unfold Z.succ. rewrite inject_Z_plus. reflexivity.
Qed.

Lemma np_diff_uniform (t0 d : Qc) (n k : nat) :
  np_diff (map (fun i => t0 + Qc_of_nat i * d) (seq k (S n))) = repeat d n.
Proof.
  revert k. induction n as [|n IH]; intro k; [reflexivity|].
  change (seq k (S (S n))) with (k :: S k :: seq (S (S k)) n).
  cbn [map].
  change (np_diff (?a :: ?b :: ?t)) with ((b - a) :: np_diff (b :: t)).
  cbn [repeat]. f_equal.
  - rewrite Qc_of_nat_S. ring.
  - exact (IH (S k)).
Qed.

Lemma insert_sorted_repeat (d : Qc) (m : nat) :
  insert_sorted d (repeat d m) = repeat d (S m).
Proof.
  destruct m as [|m]; [reflexivity|].
  cbn [repeat insert_sorted].
  rewrite (proj2 (Qcleb_le d d) (Qcle_refl d)). reflexivity.
Qed.

Lemma np_sort_repeat (d : Qc) (m : nat) : np_sort (repeat d m) = repeat d m.
Proof.
  induction m as [|m IH]; [reflexivity|].
  unfold np_sort in *. cbn [repeat fold_right]. rewrite IH.
  apply insert_sorted_repeat.
Qed.

Lemma nth_repeat_lt (d : Qc) (m k : nat) :
  (k < m)%nat -> nth k (repeat d m) 0 = d.
Proof.
  revert k. induction m as [|m IH]; intros k Hk; [lia|].
  destruct k as [|k]; [reflexivity|]. cbn [repeat nth]. apply IH. lia.
Qed.

Lemma np_median_repeat (d : Qc) (m : nat) :
  (0 < m)%nat -> np_median (repeat d m) = d.
Proof.
  intro Hm. unfold np_median. rewrite np_sort_repeat, repeat_length.
  assert (Hh : (m / 2 < m)%nat) by (apply Nat.div_lt; lia).
  destruct (Nat.even m).
  - rewrite !nth_repeat_lt by lia. apply Qc_is_canon. qc_arith.
  - apply nth_repeat_lt. exact Hh.
Qed.

Lemma onset_candidates_spec (onset_frames : list Qc) :
  let m := np_median (np_diff onset_frames) in
  onset_candidates onset_frames =
    if (3 <? length onset_frames)%nat
       && negb (Qc_eq_bool m 0)
       && in_range (Q2Qc 40) (Q2Qc 60 / m) (Q2Qc 200)
    then [(Q2Qc 60 / m, Q2Qc 0.6)] else [].
Proof.
  intro m. unfold onset_candidates.
  destruct (3 <? length onset_frames)%nat eqn:E; [|reflexivity].
  apply Nat.ltb_lt in E.
  assert (Hl : (0 <? length (np_diff onset_frames))%nat = true).
  { apply Nat.ltb_lt. rewrite np_diff_length. lia. }
  rewrite Hl. fold m. unfold float_div.
  destruct (Qc_eq_bool m 0); reflexivity.
Qed.

Lemma onset_candidates_uniform (t0 : Qc) (n : nat) :
  (3 < n)%nat ->
  onset_candidates (uniform_train t0 (Q2Qc 0.46875) n)
  = [(Q2Qc 128, Q2Qc 0.6)].
Proof.
  intro Hn. rewrite onset_candidates_spec. unfold uniform_train.
  rewrite length_map, length_seq.
  destruct n as [|n]; [lia|].
  rewrite np_diff_uniform, np_median_repeat by lia.
  rewrite (proj2 (Nat.ltb_lt 3 (S n)) Hn).
  replace (Q2Qc 60 / Q2Qc 0.46875) with (Q2Qc 128) by qc_eval.
  reflexivity.
Qed.

Lemma tempo_aggregate_single_128 :
  tempo_aggregate (@cons candidate (Q2Qc 128, Q2Qc 0.6) (@nil candidate))
  = Ok (Some (Q2Qc 128), Q2Qc 0.6).
Proof.
  vm_compute. f_equal. f_equal; [f_equal|]; apply Qc_is_canon; reflexivity.
Qed.



(** ** Outlier removal *)

Lemma Q2R_Q2Qc (q : Q) : Q2R (Q2Qc q) = Q2R q.
Proof. apply Qeq_eqR. unfold Q2Qc. cbn [this]. apply Qred_correct. Qed.

Lemma Q2R_Qcmult (x y : Qc) : Q2R (x * y)%Qc = (Q2R x * Q2R y)%R.
Proof. unfold Qcmult. rewrite Q2R_Q2Qc. apply Q2R_mult. Qed.

(** The rational test is the comparison with twice the standard deviation. *)
Lemma abs_le_2std_sqrt (d v : Qc) :
  0 <= v ->
  abs_le_2std d v = true <-> (Rabs (Q2R d) <= 2 * sqrt (Q2R v))%R.
Proof.
  intro Hv. unfold abs_le_2std. rewrite Qcleb_le.
  assert (Hv' : (0 <= Q2R v)%R).
  { apply Qle_Rle in Hv. rewrite Q2R_Q2Qc, RMicromega.Q2R_0 in Hv. exact Hv. }
  assert (Hsq : (sqrt (Q2R v) * sqrt (Q2R v) = Q2R v)%R)
    by (apply sqrt_sqrt; exact Hv').
  pose proof (sqrt_pos (Q2R v)) as Hs.
  assert (H4 : Q2R (Q2Qc 4) = 4%R).
  { rewrite Q2R_Q2Qc. unfold Q2R. cbn [Qnum Qden]. rewrite Rinv_1. ring. }
  assert (Habs : Rabs (2 * sqrt (Q2R v)) = (2 * sqrt (Q2R v))%R)
    by (apply Rabs_pos_eq; lra).
  split; intro H.
  - apply Qle_Rle in H. rewrite !Q2R_Qcmult, H4 in H.
    rewrite <- Habs. apply Rsqr_le_abs_0. unfold Rsqr. nra.
  - apply Rle_Qle. rewrite !Q2R_Qcmult, H4.
    rewrite <- Habs in H. apply Rsqr_le_abs_1 in H. unfold Rsqr in H. nra.
Qed.

Lemma np_sum_nonneg (l : list Qc) :
  (forall x, In x l -> 0 <= x) -> 0 <= np_sum l.
Proof.
  induction l as [|x l IH]; intro H; [apply Qcle_refl|].
  cbn [np_sum fold_right]. fold (np_sum l).
  assert (H0 : 0 <= x) by (apply H; left; reflexivity).
  assert (H1 : 0 <= np_sum l) by (apply IH; intros y Hy; apply H; right; exact Hy).
  qc_arith.
Qed.

Lemma Qc_of_nat_nonneg (n : nat) : 0 <= Qc_of_nat n.
Proof.
  unfold Qcle, Qc_of_nat. rewrite Qc_of_Z_this.
  change (this 0) with (inject_Z 0). rewrite <- Zle_Qle. lia.
Qed.

Lemma Qc_square_nonneg (d : Qc) : 0 <= d * d.
Proof.
  unfold Qcle, Qcmult, Q2Qc. cbn [this]. rewrite !Qred_correct.
  generalize (this d). intro q.
  destruct (Qlt_le_dec q 0) as [Hn|Hp].
  - setoid_replace (q * q)%Q with ((- q) * (- q))%Q by ring.
    apply Qmult_le_0_compat; Lqa.lra.
  - apply Qmult_le_0_compat; exact Hp.
Qed.

Lemma np_var_nonneg (a : list Qc) : 0 <= np_var a.
Proof.
  unfold np_var, np_mean.
  set (sq := map (fun x => (x - np_sum a / Qc_of_nat (length a))
                           * (x - np_sum a / Qc_of_nat (length a))) a).
  assert (Hs : 0 <= np_sum sq).
  { apply np_sum_nonneg. intros y Hy. subst sq.
    apply in_map_iff in Hy as (x & <- & _). apply Qc_square_nonneg. }
  pose proof (Qc_of_nat_nonneg (length sq)) as Hn.
  unfold Qcle, Qcdiv, Qcmult, Qcinv, Q2Qc in *. cbn [this] in *.
  rewrite !Qred_correct. change (Qred 0) with 0%Q in *.
  apply Qmult_le_0_compat; [exact Hs|]. apply Qinv_le_0_compat. exact Hn.
Qed.

(** The outlier test, read on the reals: the absolute deviation from the
    median exceeds twice the standard deviation. *)
Lemma is_outlier_sqrt (cands : list candidate) (c : candidate) :
  is_outlier cands c = true <->
  (2 * sqrt (Q2R (np_var (map fst cands)))
   < Rabs (Q2R (fst c - np_median (map fst cands))%Qc))%R.
Proof.
  unfold is_outlier. rewrite negb_true_iff.
  pose proof (abs_le_2std_sqrt (fst c - np_median (map fst cands))
                (np_var (map fst cands)) (np_var_nonneg _)) as H.
  destruct (abs_le_2std (fst c - np_median (map fst cands))
              (np_var (map fst cands))).
  - split; [discriminate|]. intro Hlt.
    pose proof (proj1 H eq_refl). lra.
  - split; [|reflexivity]. intros _.
    apply Rnot_le_lt. intro Hle. apply H in Hle. discriminate.
Qed.

Lemma tempo_aggregate_unfold (cands : list candidate) :
  tempo_aggregate cands = weighted_result (remove_outliers cands).
Proof. destruct cands; reflexivity. Qed.

Lemma remove_outliers_filter (cands : list candidate) :
  (2 < length cands)%nat ->
  remove_outliers cands = filter (fun c => negb (is_outlier cands c)) cands.
Proof.
  intro H. unfold remove_outliers.
  rewrite (proj2 (Nat.ltb_lt _ _) H).
  apply filter_ext. intro c. unfold is_outlier.
  rewrite negb_involutive. reflexivity.
Qed.

Lemma filter_all_true {A : Type} (f : A -> bool) (l : list A) :
  (forall x, In x l -> f x = true) -> filter f l = l.
Proof.
  induction l as [|a l IH]; intro H; [reflexivity|].
  cbn [filter]. rewrite (H a (or_introl eq_refl)).
  f_equal. apply IH. intros x Hx. apply H. right. exact Hx.
Qed.

Lemma filter_drops_single {A : Type} (f : A -> bool) (l1 l2 : list A) (x : A) :
  f x = false ->
  (forall c, In c (l1 ++ l2) -> f c = true) ->
  filter f (l1 ++ x :: l2) = l1 ++ l2.
Proof.
  intros Hx Hall. rewrite filter_app. cbn [filter]. rewrite Hx.
  rewrite !filter_all_true; [reflexivity| |];
    intros c Hc; apply Hall; apply in_or_app; auto.
Qed.

(** C1, as the code has it. With more than 2 candidates the aggregator
    drops exactly the candidates further than 2 standard deviations
    (population form) from the median and computes, on the candidates that
    are left, the weighted average of the values (then octave-corrected and
    rounded to 1 decimal) and the plain mean of the weights (rounded to 2
    decimals).  When a list of at least 3 candidates has a single outlier,
    the result is the weighted-average stage of the list without it; it is
    the aggregator's result on that shorter list when the shorter list loses
    nothing to its own outlier test. *)
Theorem outlier_rejection :
  forall cands : list candidate,
    (2 < length cands)%nat ->
    (forall c,
        is_outlier cands c = true <->
        (2 * sqrt (Q2R (np_var (map fst cands)))
         < Rabs (Q2R (fst c - np_median (map fst cands))%Qc))%R)
    /\ tempo_aggregate cands
       = weighted_result (filter (fun c => negb (is_outlier cands c)) cands)
    /\ (forall final_bpm,
          let kept := filter (fun c => negb (is_outlier cands c)) cands in
          kept <> [] ->
          np_average (map fst kept) (map snd kept) = Ok final_bpm ->
          tempo_aggregate cands
            = Ok (Some (py_round (octave_correction final_bpm) 1),
                  py_round (np_mean (map snd kept)) 2))
    /\ (forall l1 x l2,
          cands = l1 ++ x :: l2 ->
          is_outlier cands x = true ->
          (forall c, In c (l1 ++ l2) -> is_outlier cands c = false) ->
          tempo_aggregate cands = weighted_result (l1 ++ l2)
          /\ (remove_outliers (l1 ++ l2) = l1 ++ l2 ->
              tempo_aggregate cands = tempo_aggregate (l1 ++ l2))).
Proof.
  intros cands Hlen.
  assert (Hagg : tempo_aggregate cands
                 = weighted_result
                     (filter (fun c => negb (is_outlier cands c)) cands)).
  { rewrite tempo_aggregate_unfold, remove_outliers_filter by exact Hlen.
    reflexivity. }
  split; [intro c; apply is_outlier_sqrt|].
  split; [exact Hagg|]. split.
  - intros final_bpm kept Hne Havg. rewrite Hagg. fold kept.
    apply weighted_result_nonempty; assumption.
  - intros l1 x l2 Hc Hx Hothers.
    assert (Hkept : filter (fun c => negb (is_outlier cands c)) cands
                    = l1 ++ l2).
    { remember (fun c => negb (is_outlier cands c)) as f eqn:Ef.
      rewrite Hc. apply filter_drops_single; subst f.
      - rewrite Hx. reflexivity.
      - intros c Hin. rewrite (Hothers c Hin). reflexivity. }
    rewrite Hagg, Hkept. split; [reflexivity|].
    intro Hsame. rewrite tempo_aggregate_unfold, Hsame. reflexivity.
Qed.

Lemma outlier_rejection_witness :
  let cands := at_confidence 0.7 [0; 0; 1]%Q in
  tempo_aggregate cands = weighted_result (at_confidence 0.7 [0; 0]%Q)
  /\ tempo_aggregate cands = tempo_aggregate (at_confidence 0.7 [0; 0]%Q).
Proof.
  intro cands.
  destruct (outlier_rejection cands ltac:(cbn; lia)) as (_ & _ & _ & H).
  destruct (H (at_confidence 0.7 [0; 0]%Q) (Q2Qc 1, Q2Qc 0.7) []) as [H1 H2].
  - reflexivity.
  - reflexivity.
  - intros c [<-|[<-|[]]]; reflexivity.
  - split; [exact H1 | apply H2; reflexivity].
Defined.

(** C1, counterexample to the claim as stated: six candidates at weight
    0.7; 1000 is the only one further than 2 standard deviations from the
    median, and the result is 102.0.  On the list without it the
    standard deviation shrinks to 4, 110 becomes an outlier in turn, and
    the result is 100.0. *)
Lemma outlier_removed_result_differs_counterexample :
  let cands := at_confidence 0.7 [100; 100; 100; 100; 110; 1000]%Q in
  let shorter := at_confidence 0.7 [100; 100; 100; 100; 110]%Q in
  map (is_outlier cands) cands = [false; false; false; false; false; true]
  /\ tempo_aggregate cands = Ok (Some (Q2Qc 102), Q2Qc 0.7)
  /\ tempo_aggregate shorter = Ok (Some (Q2Qc 100), Q2Qc 0.7)
  /\ tempo_aggregate cands <> tempo_aggregate shorter.
Proof.
  intros cands shorter.
  assert (H1 : tempo_aggregate cands = Ok (Some (Q2Qc 102), Q2Qc 0.7)).
  { vm_compute. f_equal.
    f_equal; [f_equal|]; apply Qc_is_canon; reflexivity. }
  assert (H2 : tempo_aggregate shorter = Ok (Some (Q2Qc 100), Q2Qc 0.7)).
  { vm_compute. f_equal.
    f_equal; [f_equal|]; apply Qc_is_canon; reflexivity. }
  split; [vm_compute; reflexivity|].
  split; [exact H1|]. split; [exact H2|].
  rewrite H1, H2. intro H. injection H as H. vm_compute in H. discriminate.
Qed.

(** ** Reordering the tempo candidates *)

Lemma np_sum_perm (a b : list Qc) : Permutation a b -> np_sum a = np_sum b.
Proof.
  unfold np_sum. induction 1 as [|x a b _ IH|x y a|a b c _ IH1 _ IH2];
    cbn [fold_right].
  - reflexivity.
  - rewrite IH. reflexivity.
  - ring.
  - congruence.
Qed.

Lemma np_mean_perm (a b : list Qc) : Permutation a b -> np_mean a = np_mean b.
Proof.
  intro H. unfold np_mean.
  rewrite (np_sum_perm _ _ H), (Permutation_length H). reflexivity.
Qed.

Ltac order_hyps :=
  repeat match goal with
         | H : (_ <=? _) = true |- _ => apply Qcleb_le in H
         | H : (_ <=? _) = false |- _ => apply Qcleb_nle in H
         end.

Ltac split_le :=
  repeat match goal with
         | |- context [?a <=? ?b] =>
             destruct (a <=? b) eqn:?; cbn [insert_sorted]
         end.

Lemma insert_sorted_comm (x y : Qc) (s : list Qc) :
  insert_sorted x (insert_sorted y s) = insert_sorted y (insert_sorted x s).
Proof.
  induction s as [|h t IH]; cbn [insert_sorted]; split_le;
    try reflexivity; try (rewrite IH; reflexivity); order_hyps;
    try (exfalso; qc_arith; fail);
    (assert (E : x = y) by (apply Qcle_antisym; assumption));
    rewrite E; reflexivity.
Qed.

Lemma np_sort_perm (a b : list Qc) : Permutation a b -> np_sort a = np_sort b.
Proof.
  unfold np_sort. induction 1 as [|x a b _ IH|x y a|a b c _ IH1 _ IH2];
    cbn [fold_right].
  - reflexivity.
  - rewrite IH. reflexivity.
  - apply insert_sorted_comm.
  - congruence.
Qed.

Lemma np_median_perm (a b : list Qc) :
  Permutation a b -> np_median a = np_median b.
Proof.
  intro H. unfold np_median.
  rewrite (np_sort_perm _ _ H), (Permutation_length H). reflexivity.
Qed.

Lemma np_var_perm (a b : list Qc) : Permutation a b -> np_var a = np_var b.
Proof.
  intro H. unfold np_var. rewrite (np_mean_perm _ _ H).
  apply np_mean_perm. apply Permutation_map. exact H.
Qed.

Lemma filter_perm {A : Type} (f : A -> bool) (l l' : list A) :
  Permutation l l' -> Permutation (filter f l) (filter f l').
Proof.
  induction 1 as [|x a b _ IH|x y a|a b c _ IH1 _ IH2]; cbn [filter].
  - constructor.
  - destruct (f x); [constructor|]; exact IH.
  - destruct (f x), (f y); try apply Permutation_refl. constructor.
  - eapply Permutation_trans; eassumption.
Qed.

Lemma remove_outliers_perm (c c' : list candidate) :
  Permutation c c' -> Permutation (remove_outliers c) (remove_outliers c').
Proof.
  intro H. unfold remove_outliers.
  rewrite <- (Permutation_length H).
  destruct (2 <? length c)%nat; [|exact H].
  assert (Hv : Permutation (map fst c) (map fst c'))
    by (apply Permutation_map; exact H).
  rewrite <- (np_median_perm _ _ Hv), <- (np_var_perm _ _ Hv).
  apply filter_perm. exact H.
Qed.

Lemma combine_fst_snd {A B : Type} (l : list (A * B)) :
  combine (map fst l) (map snd l) = l.
Proof.
  induction l as [|[a b] l IH]; [reflexivity|].
  cbn [map combine fst snd]. rewrite IH. reflexivity.
Qed.

Lemma weighted_result_perm (c c' : list candidate) :
  Permutation c c' -> weighted_result c = weighted_result c'.
Proof.
  intro H. unfold weighted_result, np_average.
  rewrite !combine_fst_snd, <- (Permutation_length H).
  assert (Hw : Permutation (map snd c) (map snd c'))
    by (apply Permutation_map; exact H).
  rewrite <- (np_sum_perm _ _ Hw), <- (np_mean_perm _ _ Hw).
  rewrite <- (np_sum_perm _ _
                (Permutation_map (fun vw => fst vw * snd vw) H)).
  reflexivity.
Qed.

Lemma tempo_aggregate_perm (c c' : list candidate) :
  Permutation c c' -> tempo_aggregate c = tempo_aggregate c'.
Proof.
  intro H. rewrite !tempo_aggregate_unfold.
  apply weighted_result_perm, remove_outliers_perm, H.
Qed.

(** ** The key aggregator over any lawful score arithmetic *)

Section KeyAggregatorFacts.

Context {T : Type} {SA : ScoreArith T} {L : ScoreLaws SA}.

Implicit Types (d : list (string * T)) (ks : list (string * T)).

Lemma dict_get_accumulate d k s key :
  dict_get (dict_accumulate d k s) key = opt_add key (dict_get d key) (k, s).
Proof.
  unfold opt_add. cbn [fst snd].
  induction d as [|[k0 v0] d IH]; cbn [dict_accumulate dict_get].
  - reflexivity.
  - destruct (String.eqb k0 k) eqn:E0; cbn [dict_get].
    + apply String.eqb_eq in E0. subst k0.
      destruct (String.eqb k key); reflexivity.
    + rewrite IH. destruct (String.eqb k0 key) eqn:E1; [|reflexivity].
      apply String.eqb_eq in E1. subst k0. rewrite String.eqb_sym, E0.
      reflexivity.
Qed.

Lemma dict_get_fold ks d key :
  dict_get (fold_left acc_step ks d) key
  = fold_left (opt_add key) ks (dict_get d key).
Proof.
  revert d. induction ks as [|[k s] ks IH]; intro d; [reflexivity|].
  cbn [fold_left]. rewrite IH. unfold acc_step. cbn [fst snd].
  rewrite dict_get_accumulate. reflexivity.
Qed.

Lemma accumulated_fold ks key :
  accumulated ks key = fold_left (opt_add key) ks None.
Proof. exact (dict_get_fold ks [] key). Qed.

Lemma opt_add_comm key o a b :
  opt_add key (opt_add key o a) b = opt_add key (opt_add key o b) a.
Proof.
  unfold opt_add.
  destruct (String.eqb (fst a) key), (String.eqb (fst b) key);
    try reflexivity.
  destruct o as [v|]; f_equal.
  - rewrite <- !sc_add_assoc. f_equal. apply sc_add_comm.
  - apply sc_add_comm.
Qed.

Lemma accumulated_perm ks ks' key :
  Permutation ks ks' -> accumulated ks key = accumulated ks' key.
Proof.
  intro H. rewrite !accumulated_fold. generalize (@None T).
  induction H as [|x a b _ IH|x y a|a b c _ IH1 _ IH2]; intro o;
    cbn [fold_left].
  - reflexivity.
  - apply IH.
  - rewrite opt_add_comm. reflexivity.
  - rewrite IH1. apply IH2.
Qed.

(** Keys of the dict: the labels in the order they are first seen. *)
Lemma keys_accumulate d k s :
  map fst (dict_accumulate d k s) = seen_step (map fst d) k.
Proof.
  unfold seen_step.
  induction d as [|[k0 v0] d IH]; cbn [dict_accumulate map existsb fst].
  - reflexivity.
  - rewrite (String.eqb_sym k k0).
    destruct (String.eqb k0 k); cbn [map fst orb].
    + reflexivity.
    + rewrite IH. destruct (existsb (String.eqb k) (map fst d)); reflexivity.
Qed.

Lemma keys_fold ks d :
  map fst (fold_left acc_step ks d) = fold_left seen_step (map fst ks) (map fst d).
Proof.
  revert d. induction ks as [|[k s] ks IH]; intro d; [reflexivity|].
  cbn [fold_left map fst]. rewrite IH. unfold acc_step. cbn [fst snd].
  rewrite keys_accumulate. reflexivity.
Qed.

Lemma keys_aggregate ks :
  map fst (aggregate_scores ks) = first_seen (map fst ks).
Proof. exact (keys_fold ks []). Qed.

Lemma existsb_eqb_In (k : string) (seen : list string) :
  existsb (String.eqb k) seen = true <-> In k seen.
Proof.
  rewrite existsb_exists. split.
  - intros (x & Hx & E). apply String.eqb_eq in E. subst. exact Hx.
  - intro H. exists k. split; [exact H | apply String.eqb_refl].
Qed.

Lemma seen_step_NoDup (seen : list string) (k : string) :
  NoDup seen -> NoDup (seen_step seen k).
Proof.
  intro H. unfold seen_step.
  destruct (existsb (String.eqb k) seen) eqn:E; [exact H|].
  apply NoDup_app; [exact H | repeat constructor; intros [] |].
  intros x Hx [<-|[]]. apply existsb_eqb_In in Hx. congruence.
Qed.

Lemma fold_seen_NoDup (keys seen : list string) :
  NoDup seen -> NoDup (fold_left seen_step keys seen).
Proof.
  revert seen. induction keys as [|k keys IH]; intros seen H; [exact H|].
  cbn [fold_left]. apply IH, seen_step_NoDup, H.
Qed.

Lemma keys_NoDup ks : NoDup (map fst (aggregate_scores ks)).
Proof. rewrite keys_aggregate. apply fold_seen_NoDup. constructor. Qed.

Lemma dict_get_In d k v : dict_get d k = Some v -> In (k, v) d.
Proof.
  induction d as [|[k0 v0] d IH]; cbn [dict_get]; [discriminate|].
  destruct (String.eqb k0 k) eqn:E.
  - apply String.eqb_eq in E. intro H. injection H as <-. subst. left.
    reflexivity.
  - intro H. right. apply IH, H.
Qed.

Lemma In_dict_get d k v :
  NoDup (map fst d) -> In (k, v) d -> dict_get d k = Some v.
Proof.
  induction d as [|[k0 v0] d IH]; intros Hnd Hin; [destruct Hin|].
  cbn [map fst] in Hnd. apply NoDup_cons_iff in Hnd as [Hn Hnd].
  cbn [dict_get]. destruct Hin as [E|Hin].
  - injection E as -> ->. rewrite String.eqb_refl. reflexivity.
  - destruct (String.eqb k0 k) eqn:E.
    + apply String.eqb_eq in E. subst k0. exfalso. apply Hn.
      apply (in_map fst) in Hin. exact Hin.
    + apply IH; assumption.
Qed.

(** [max]: the first item of the dict that no item exceeds. *)
Lemma py_max_from_first rest :
  forall first,
  exists d1 d2,
    first :: rest = d1 ++ py_max_from first rest :: d2
    /\ Forall (fun kv =>
                 sc_ltb (snd kv) (snd (py_max_from first rest)) = true) d1
    /\ Forall (fun kv =>
                 sc_ltb (snd (py_max_from first rest)) (snd kv) = false) d2.
Proof.
  induction rest as [|kv r IH]; intro first; cbn [py_max_from].
  - exists [], []. repeat split; constructor.
  - destruct (sc_ltb (snd first) (snd kv)) eqn:E.
    + destruct (IH kv) as (d1 & d2 & Heq & H1 & H2).
      exists (first :: d1), d2. cbn [app]. rewrite <- Heq.
      split; [reflexivity|]. split; [|exact H2].
      constructor; [|exact H1].
      destruct d1 as [|kv' d1].
      * cbn [app] in Heq. injection Heq as Heq _. rewrite <- Heq. exact E.
      * cbn [app] in Heq. injection Heq as Heq _. subst kv'.
        apply Forall_inv in H1. eapply sc_ltb_trans; eassumption.
    + destruct (IH first) as (d1 & d2 & Heq & H1 & H2).
      remember (py_max_from first r) as best eqn:Eb. clear Eb.
      destruct d1 as [|f d1]; cbn [app] in Heq.
      * injection Heq as -> ->. exists [], (kv :: d2).
        split; [reflexivity|]. split; constructor; assumption.
      * injection Heq as -> ->.
        exists (f :: kv :: d1), d2.
        split; [reflexivity|]. split; [|exact H2].
        pose proof (Forall_inv H1) as Hfirst.
        constructor; [exact Hfirst|].
        constructor; [|exact (Forall_inv_tail H1)].
        destruct (sc_ltb_cotrans _ (snd kv) _ Hfirst) as [H|H];
          [congruence | exact H].
Qed.

Lemma aggregate_scores_nonempty ks : ks <> [] -> aggregate_scores ks <> [].
Proof.
  intros Hne Hd. apply (f_equal (map fst)) in Hd.
  rewrite keys_aggregate in Hd. destruct ks as [|[k s] ks]; [congruence|].
  unfold first_seen in Hd. cbn [map fst fold_left seen_step existsb] in Hd.
  assert (H : forall keys seen, seen <> [] ->
                                fold_left seen_step keys seen <> []).
  { induction keys as [|k' keys IH]; intros seen Hs; [exact Hs|].
    cbn [fold_left]. apply IH. unfold seen_step.
    destruct (existsb (String.eqb k') seen); [exact Hs|].
    destruct seen; [congruence | discriminate]. }
  exact (H (map fst ks) ([] ++ [k]) ltac:(discriminate) Hd).
Qed.

End KeyAggregatorFacts.

(** ** The two score arithmetics are lawful *)

Lemma rint_between (z : Qc) (N : Z) :
  0 <= z -> z <= Qc_of_Z N -> (0 <= rint z <= N)%Z.
Proof.
  intros H0 HN.
  assert (Hf0 : (0 <= Qfloor z)%Z).
  { change 0%Z with (Qfloor 0). apply Qfloor_resp_le. exact H0. }
  assert (HfN : (Qfloor z <= N)%Z).
  { rewrite <- (Qfloor_Z N). apply Qfloor_resp_le.
    unfold Qcle in HN. rewrite Qc_of_Z_this in HN. exact HN. }
  unfold rint.
  destruct (z - Qc_of_Z (Qfloor z) <? Q2Qc 0.5) eqn:E; [lia|].
  assert (Hlt : (Qfloor z < N)%Z).
  { destruct (Z.eq_dec (Qfloor z) N) as [Heq|]; [|lia].
    exfalso. apply Qcltb_nlt in E. rewrite Heq in E.
    unfold Qcle in HN, E. unfold Qcminus, Qcplus, Qcopp, Q2Qc in E.
    cbn [this] in E. rewrite !Qred_correct in E.
    Lqa.lra. }
  destruct (Q2Qc 0.5 <? z - Qc_of_Z (Qfloor z)); [lia|].
  destruct (Z.even (Qfloor z)); lia.
Qed.

Lemma py_round2_unit (x : Qc) :
  0 <= x -> x <= 1 -> 0 <= py_round x 2 /\ py_round x 2 <= 1.
Proof.
  intros H0 H1. unfold py_round.
  change (Qc_of_Z (10 ^ Z.of_nat 2)) with (Q2Qc 100).
  destruct (rint_between (x * Q2Qc 100) 100) as [Hlo Hhi].
  - qc_arith.
  - change (Qc_of_Z 100) with (Q2Qc 100). qc_arith.
  - set (k := rint (x * Q2Qc 100)) in *.
    assert (Hk0 : (0 <= inject_Z k)%Q).
    { change 0%Q with (inject_Z 0). rewrite <- Zle_Qle. exact Hlo. }
    assert (Hk1 : (inject_Z k <= 100)%Q).
    { change 100%Q with (inject_Z 100). rewrite <- Zle_Qle. exact Hhi. }
    unfold Qc_of_Z. split; qc_arith.
Qed.

Lemma Qc_score_laws : ScoreLaws Qc_score.
Proof.
  constructor; cbn [sc_add sc_ltb sc_zero sc_one sc_round2 Qc_score].
  - apply Qcplus_comm.
  - apply Qcplus_assoc.
  - intro a. apply Qcltb_nlt. apply Qcle_refl.
  - intros a b c H1 H2. apply Qcltb_lt in H1, H2. apply Qcltb_lt.
    eapply Qclt_trans; eassumption.
  - intros a b c H. apply Qcltb_lt in H.
    destruct (a <? b) eqn:E; [left; reflexivity|right].
    apply Qcltb_nlt in E. apply Qcltb_lt.
    eapply Qcle_lt_trans; eassumption.
  - intros a b H1 H2. apply Qcltb_nlt in H1, H2.
    apply Qcle_antisym; assumption.
  - reflexivity.
  - intros x H0 H1. apply Qcltb_nlt in H0, H1.
    destruct (py_round2_unit x H0 H1) as [Hlo Hhi].
    split; apply Qcltb_nlt; assumption.
Qed.

Lemma Rltb_lt (x y : R) : Rltb x y = true <-> (x < y)%R.
Proof. unfold Rltb. destruct (Rlt_dec x y); split; congruence. Qed.

Lemma Rltb_nlt (x y : R) : Rltb x y = false <-> (y <= x)%R.
Proof.
  unfold Rltb. destruct (Rlt_dec x y); split; try congruence; lra.
Qed.

Lemma R_rint_between (z : R) (N : Z) :
  (0 <= z)%R -> (z <= IZR N)%R -> (0 <= R_rint z <= N)%Z.
Proof.
  intros H0 HN. destruct (base_Int_part z) as [Hle Hgt].
  assert (Hf0 : (0 <= Int_part z)%Z).
  { assert (H : (-1 < Int_part z)%Z) by (apply lt_IZR; lra). lia. }
  assert (HfN : (Int_part z <= N)%Z) by (apply le_IZR; lra).
  unfold R_rint.
  destruct (Rlt_dec (z - IZR (Int_part z)) 0.5); [lia|].
  assert (Hlt : (Int_part z < N)%Z).
  { destruct (Z.eq_dec (Int_part z) N) as [Heq|]; [|lia].
    exfalso. rewrite Heq in *. lra. }
  destruct (Rlt_dec 0.5 (z - IZR (Int_part z))); [lia|].
  destruct (Z.even (Int_part z)); lia.
Qed.

Lemma R_round2_unit (x : R) :
  (0 <= x)%R -> (x <= 1)%R -> (0 <= R_round2 x <= 1)%R.
Proof.
  intros H0 H1. unfold R_round2.
  destruct (R_rint_between (x * 100) 100) as [Hlo Hhi]; try lra.
  apply IZR_le in Hlo, Hhi. lra.
Qed.

Lemma R_score_laws : ScoreLaws R_score.
Proof.
  constructor; cbn [sc_add sc_ltb sc_zero sc_one sc_round2 R_score].
  - apply Rplus_comm.
  - intros a b c. ring.
  - intro a. apply Rltb_nlt. lra.
  - intros a b c H1 H2. apply Rltb_lt in H1, H2. apply Rltb_lt. lra.
  - intros a b c H. apply Rltb_lt in H.
    destruct (Rltb a b) eqn:E; [left; reflexivity|right].
    apply Rltb_nlt in E. apply Rltb_lt. lra.
  - intros a b H1 H2. apply Rltb_nlt in H1, H2. lra.
  - apply Rltb_lt. lra.
  - intros x H0 H1. apply Rltb_nlt in H0, H1.
    destruct (R_round2_unit x H0 H1) as [Hlo Hhi].
    split; apply Rltb_nlt; assumption.
Qed.

(** ** Selection, ties and reordering in the key aggregator *)

Section KeyAggregatorSelection.

Context {T : Type} {SA : ScoreArith T} {L : ScoreLaws SA}.

Implicit Types (d : list (string * T)) (ks : list (string * T)).

Lemma sc_ltb_asym (a b : T) : sc_ltb a b = true -> sc_ltb b a = false.
Proof.
  intro H. destruct (sc_ltb b a) eqn:E; [|reflexivity].
  pose proof (sc_ltb_trans _ _ _ H E) as Hc.
  rewrite sc_ltb_irrefl in Hc. discriminate.
Qed.

Lemma key_aggregate_split ks :
  ks <> [] ->
  exists d1 bk bs d2,
    aggregate_scores ks = d1 ++ (bk, bs) :: d2
    /\ key_aggregate ks = (bk, sc_round2 (clamp01 bs))
    /\ Forall (fun kv => sc_ltb (snd kv) bs = true) d1
    /\ Forall (fun kv => sc_ltb bs (snd kv) = false) d2.
Proof.
  intro Hne. pose proof (aggregate_scores_nonempty ks Hne) as Hd.
  unfold key_aggregate. destruct ks as [|c ks]; [congruence|].
  destruct (aggregate_scores (c :: ks)) as [|first rest]; [congruence|].
  destruct (py_max_from_first rest first) as (d1 & d2 & Heq & H1 & H2).
  destruct (py_max_from first rest) as [bk bs].
  exists d1, bk, bs, d2. cbn [fst snd] in *.
  repeat split; assumption.
Qed.

Lemma accumulated_of_In ks k v :
  In (k, v) (aggregate_scores ks) -> accumulated ks k = Some v.
Proof. apply In_dict_get, keys_NoDup. Qed.

Lemma In_of_accumulated ks k v :
  accumulated ks k = Some v -> In (k, v) (aggregate_scores ks).
Proof. apply dict_get_In. Qed.

(** The selected key carries a score that no accumulated score exceeds. *)
Lemma key_aggregate_maximal ks :
  ks <> [] ->
  exists bk bs,
    key_aggregate ks = (bk, sc_round2 (clamp01 bs))
    /\ accumulated ks bk = Some bs
    /\ forall k s, accumulated ks k = Some s -> sc_ltb bs s = false.
Proof.
  intro Hne.
  destruct (key_aggregate_split ks Hne) as (d1 & bk & bs & d2 & Hd & Hk & H1 & H2).
  exists bk, bs. split; [exact Hk|]. split.
  - apply accumulated_of_In. rewrite Hd. apply in_or_app. right. left.
    reflexivity.
  - intros k s Hs. apply In_of_accumulated in Hs. rewrite Hd in Hs.
    apply in_app_or in Hs. destruct Hs as [Hs|[Hs|Hs]].
    + rewrite Forall_forall in H1. apply sc_ltb_asym. exact (H1 _ Hs).
    + injection Hs as _ <-. apply sc_ltb_irrefl.
    + rewrite Forall_forall in H2. exact (H2 _ Hs).
Qed.

Lemma StronglySorted_app_cons (l1 l2 : list nat) (x : nat) :
  StronglySorted lt (l1 ++ x :: l2) -> Forall (lt x) l2.
Proof.
  induction l1 as [|a l1 IH]; cbn [app]; intro H.
  - apply StronglySorted_inv in H. tauto.
  - apply StronglySorted_inv in H. apply IH. tauto.
Qed.

(** C3, as the code has it. Among the labels whose accumulated score is
    maximal, the aggregator selects the one that is seen first in the
    candidate list: every label first seen before the selected one has a
    strictly smaller accumulated score, no label seen after it has a
    greater one.  When the labels are first seen in slot order (ascending
    pitch class, major before minor), as the chroma correlation loop emits
    them, the selected slot is the lowest of the maximal ones. *)
Theorem key_ties_go_to_first_seen :
  forall ks, ks <> [] ->
    exists before after best_score,
      first_seen (map fst ks) = before ++ fst (key_aggregate ks) :: after
      /\ accumulated ks (fst (key_aggregate ks)) = Some best_score
      /\ (forall k, In k before ->
            exists s, accumulated ks k = Some s
                      /\ sc_ltb s best_score = true)
      /\ (forall k, In k after ->
            exists s, accumulated ks k = Some s
                      /\ sc_ltb best_score s = false)
      /\ (forall slots,
            StronglySorted lt slots ->
            first_seen (map fst ks) = map slot_label slots ->
            exists slot,
              In slot slots
              /\ fst (key_aggregate ks) = slot_label slot
              /\ forall slot' s',
                   In slot' slots ->
                   accumulated ks (slot_label slot') = Some s' ->
                   sc_ltb s' best_score = false ->
                   (slot <= slot')%nat).
Proof.
  intros ks Hne.
  destruct (key_aggregate_split ks Hne)
    as (d1 & bk & bs & d2 & Hd & Hk & H1 & H2).
  rewrite Hk. cbn [fst].
  assert (Hkeys : first_seen (map fst ks) = map fst d1 ++ bk :: map fst d2).
  { rewrite <- keys_aggregate, Hd, map_app. reflexivity. }
  assert (Hbefore : forall k, In k (map fst d1) ->
            exists s, accumulated ks k = Some s /\ sc_ltb s bs = true).
  { intros k Hin. apply in_map_iff in Hin as ([k' s] & <- & Hin).
    exists s. split.
    - apply accumulated_of_In. rewrite Hd. apply in_or_app. left. exact Hin.
    - rewrite Forall_forall in H1. exact (H1 _ Hin). }
  exists (map fst d1), (map fst d2), bs.
  split; [exact Hkeys|]. split.
  { apply accumulated_of_In. rewrite Hd. apply in_or_app. right. left.
    reflexivity. }
  split; [exact Hbefore|]. split.
  { intros k Hin. apply in_map_iff in Hin as ([k' s] & <- & Hin).
    exists s. split.
    - apply accumulated_of_In. rewrite Hd. apply in_or_app. right. right.
      exact Hin.
    - rewrite Forall_forall in H2. exact (H2 _ Hin). }
  intros slots Hsorted Hslots. rewrite Hkeys in Hslots. symmetry in Hslots.
  apply map_eq_app in Hslots as (sb & rest & -> & Hsb & Hrest).
  apply map_eq_cons in Hrest as (slot & sa & -> & Hslot & Hsa).
  exists slot. split; [apply in_or_app; right; left; reflexivity|].
  split; [symmetry; exact Hslot|].
  intros slot' s' Hin Hacc Hmax.
  apply in_app_or in Hin. destruct Hin as [Hin|[<-|Hin]].
  - exfalso. destruct (Hbefore (slot_label slot')) as (s & Hs & Hlt).
    { rewrite <- Hsb. apply in_map. exact Hin. }
    congruence.
  - lia.
  - apply StronglySorted_app_cons in Hsorted.
    rewrite Forall_forall in Hsorted. apply Nat.lt_le_incl, Hsorted, Hin.
Qed.

Lemma key_aggregate_perm_score ks ks' :
  Permutation ks ks' -> snd (key_aggregate ks) = snd (key_aggregate ks').
Proof.
  intro H. destruct ks as [|c ks].
  - apply Permutation_nil in H. subst. reflexivity.
  - assert (Hne : c :: ks <> []) by discriminate.
    assert (Hne' : ks' <> []).
    { intros ->. apply Permutation_sym, Permutation_nil in H. congruence. }
    destruct (key_aggregate_maximal _ Hne) as (bk & bs & Hk & Hb & Hmax).
    destruct (key_aggregate_maximal _ Hne') as (bk' & bs' & Hk' & Hb' & Hmax').
    rewrite Hk, Hk'. cbn [snd]. f_equal. f_equal.
    apply sc_ltb_connected.
    + apply (Hmax bk'). rewrite (accumulated_perm _ _ bk' H). exact Hb'.
    + apply (Hmax' bk). rewrite <- (accumulated_perm _ _ bk H). exact Hb.
Qed.

Lemma key_aggregate_perm_key ks ks' :
  Permutation ks ks' ->
  (forall k s b,
      k <> fst (key_aggregate ks) ->
      accumulated ks k = Some s ->
      accumulated ks (fst (key_aggregate ks)) = Some b ->
      sc_ltb s b = true) ->
  fst (key_aggregate ks) = fst (key_aggregate ks').
Proof.
  intros H Huniq. destruct ks as [|c ks].
  - apply Permutation_nil in H. subst. reflexivity.
  - assert (Hne : c :: ks <> []) by discriminate.
    assert (Hne' : ks' <> []).
    { intros ->. apply Permutation_sym, Permutation_nil in H. congruence. }
    destruct (key_aggregate_maximal _ Hne) as (bk & bs & Hk & Hb & Hmax).
    destruct (key_aggregate_maximal _ Hne') as (bk' & bs' & Hk' & Hb' & Hmax').
    rewrite Hk in *. rewrite Hk'. cbn [fst] in *.
    destruct (string_dec bk' bk) as [E|E]; [congruence|].
    exfalso.
    assert (Hb2 : accumulated (c :: ks) bk' = Some bs')
      by (rewrite (accumulated_perm _ _ bk' H); exact Hb').
    pose proof (Huniq bk' bs' bs E Hb2 Hb) as Hlt.
    assert (Hge : sc_ltb bs' bs = false).
    { apply (Hmax' bk). rewrite <- (accumulated_perm _ _ bk H). exact Hb. }
    congruence.
Qed.

Lemma clamp01_unit (b : T) :
  sc_ltb (clamp01 b) sc_zero = false /\ sc_ltb sc_one (clamp01 b) = false.
Proof.
  unfold clamp01, py_min2, py_max2.
  pose proof sc_zero_one as H01. pose proof (sc_ltb_asym _ _ H01) as H10.
  destruct (sc_ltb sc_zero b) eqn:E0.
  - destruct (sc_ltb b sc_one) eqn:E1.
    + split; apply sc_ltb_asym; assumption.
    + split; [exact H10 | apply sc_ltb_irrefl].
  - rewrite H01. split; [apply sc_ltb_irrefl | exact H10].
Qed.

Lemma key_aggregate_confidence ks :
  (ks = [] -> key_aggregate ks = ("Unknown"%string, sc_zero))
  /\ (ks <> [] ->
      exists bk bs,
        key_aggregate ks = (bk, sc_round2 (clamp01 bs))
        /\ accumulated ks bk = Some bs
        /\ forall k s, accumulated ks k = Some s -> sc_ltb bs s = false)
  /\ sc_ltb (snd (key_aggregate ks)) sc_zero = false
  /\ sc_ltb sc_one (snd (key_aggregate ks)) = false.
Proof.
  split; [intros ->; reflexivity|].
  split; [apply key_aggregate_maximal|].
  destruct ks as [|c ks].
  - cbn [key_aggregate snd]. split; [apply sc_ltb_irrefl|].
    apply sc_ltb_asym, sc_zero_one.
  - destruct (key_aggregate_maximal (c :: ks) ltac:(discriminate))
      as (bk & bs & Hk & _).
    rewrite Hk. cbn [snd].
    destruct (clamp01_unit bs) as [H0 H1]. apply sc_round2_unit; assumption.
Qed.

End KeyAggregatorSelection.

Lemma key_aggregate_tied_low_first :
  key_aggregate tied_low_first = ("C major"%string, Q2Qc 0.5).
Proof. vm_compute. f_equal. apply Qc_is_canon. reflexivity. Qed.

Lemma key_aggregate_tied_high_first :
  key_aggregate tied_high_first = ("D minor"%string, Q2Qc 0.5).
Proof. vm_compute. f_equal. apply Qc_is_canon. reflexivity. Qed.

Lemma key_ties_go_to_first_seen_witness :
  exists before after best_score,
    first_seen (map fst tied_low_first)
    = before ++ fst (key_aggregate tied_low_first) :: after
    /\ accumulated tied_low_first (fst (key_aggregate tied_low_first))
       = Some best_score
    /\ exists slot,
         In slot [0; 5]%nat
         /\ fst (key_aggregate tied_low_first) = slot_label slot
         /\ forall slot' s',
              In slot' [0; 5]%nat ->
              accumulated tied_low_first (slot_label slot') = Some s' ->
              sc_ltb s' best_score = false ->
              (slot <= slot')%nat.
Proof.
  destruct (key_ties_go_to_first_seen (L := Qc_score_laws) tied_low_first
              ltac:(discriminate))
    as (before & after & best & H1 & H2 & _ & _ & H5).
  exists before, after, best. split; [exact H1|]. split; [exact H2|].
  apply H5; [|reflexivity].
  repeat constructor.
Defined.

(** C3, counterexample to the claim as stated: "C major" (pitch class 0)
    and "D minor" (pitch class 2) accumulate the same maximal score, and
    the aggregator selects "D minor", whose candidate comes first. *)
Lemma tie_not_broken_by_pitch_class_counterexample :
  accumulated tied_high_first "C major" = Some (Q2Qc 0.5)
  /\ accumulated tied_high_first "D minor" = Some (Q2Qc 0.5)
  /\ slot_label 0 = "C major"%string
  /\ slot_label 5 = "D minor"%string
  /\ fst (key_aggregate tied_high_first) = "D minor"%string.
Proof.
  split; [vm_compute; f_equal; apply Qc_is_canon; reflexivity|].
  split; [vm_compute; f_equal; apply Qc_is_canon; reflexivity|].
  split; [reflexivity|]. split; [reflexivity|].
  rewrite key_aggregate_tied_high_first. reflexivity.
Qed.


Lemma clear_winner_unique_max :
  forall k s b,
    k <> fst (key_aggregate clear_winner) ->
    accumulated clear_winner k = Some s ->
    accumulated clear_winner (fst (key_aggregate clear_winner)) = Some b ->
    sc_ltb s b = true.
Proof.
  assert (Hk : key_aggregate clear_winner = ("C major"%string, Q2Qc 0.5)).
  { vm_compute. f_equal. apply Qc_is_canon. reflexivity. }
  assert (Hd : aggregate_scores clear_winner = clear_winner) by reflexivity.
  intros k s b. rewrite Hk. unfold accumulated. rewrite Hd.
  unfold clear_winner. cbn [fst dict_get]. intros Hne Hs Hb.
  rewrite String.eqb_refl in Hb. injection Hb as <-.
  destruct (String.eqb "C major" k) eqn:E1.
  - apply String.eqb_eq in E1. congruence.
  - destruct (String.eqb "D minor" k); [|discriminate].
    injection Hs as <-. reflexivity.
Qed.



(** ** Confidences stay in the unit interval *)

Lemma np_sum_unit_bounds (l : list Qc) :
  Forall (fun w => 0 <= w /\ w <= 1) l ->
  0 <= np_sum l /\ np_sum l <= Qc_of_nat (length l).
Proof.
  induction 1 as [|w l [H0 H1] _ [IH0 IH1]].
  - split; [apply Qcle_refl | vm_compute; discriminate].
  - cbn [np_sum fold_right length]. fold (np_sum l).
    rewrite Qc_of_nat_S. split; qc_arith.
Qed.

Lemma Qc_of_nat_pos (n : nat) : (0 < n)%nat -> 0 < Qc_of_nat n.
Proof.
  intro H. unfold Qclt, Qc_of_nat. rewrite Qc_of_Z_this.
  change (this 0) with (inject_Z 0). rewrite <- Zlt_Qlt. lia.
Qed.

Lemma Qc_div_unit (a n : Qc) :
  0 < n -> 0 <= a -> a <= n -> 0 <= a / n /\ a / n <= 1.
Proof.
  intros Hn H0 H1. unfold Qcle, Qclt, Qcdiv, Qcmult, Qcinv, Q2Qc in *.
  cbn [this] in *. rewrite !Qred_correct.
  change (Qred 0) with 0%Q in *. change (Qred 1) with 1%Q.
  split.
  - apply Qmult_le_0_compat; [exact H0|].
    apply Qinv_le_0_compat, Qlt_le_weak, Hn.
  - apply Qle_shift_div_r; [exact Hn|]. rewrite Qmult_1_l. exact H1.
Qed.

Lemma np_mean_unit (l : list Qc) :
  l <> [] ->
  Forall (fun w => 0 <= w /\ w <= 1) l ->
  0 <= np_mean l /\ np_mean l <= 1.
Proof.
  intros Hne H. destruct (np_sum_unit_bounds l H) as [H0 H1].
  unfold np_mean. apply Qc_div_unit; try assumption.
  apply Qc_of_nat_pos. destruct l; [congruence | cbn; lia].
Qed.

Lemma remove_outliers_unit (cands : list candidate) :
  Forall unit_weight cands -> Forall unit_weight (remove_outliers cands).
Proof.
  intro H. unfold remove_outliers.
  destruct (2 <? length cands)%nat; [|exact H].
  rewrite Forall_forall in *. intros c Hc. apply filter_In in Hc.
  apply H. tauto.
Qed.

Lemma weighted_result_unit (cands : list candidate) (r : option Qc * Qc) :
  Forall unit_weight cands ->
  weighted_result cands = Ok r ->
  0 <= snd r /\ snd r <= 1
  /\ (fst r <> None -> snd r = py_round (np_mean (map snd cands)) 2).
Proof.
  intros H. unfold weighted_result.
  destruct cands as [|c cands]; cbn [length Nat.eqb].
  - intro E. injection E as <-. cbn [fst snd].
    split; [apply Qcle_refl|]. split; [vm_compute; discriminate|].
    congruence.
  - destruct (np_average (map fst (c :: cands)) (map snd (c :: cands)));
      cbn [bind]; [|discriminate].
    intro E. injection E as <-. cbn [fst snd].
    destruct (np_mean_unit (map snd (c :: cands))) as [H0 H1].
    + discriminate.
    + rewrite Forall_forall in *. intros w Hw.
      apply in_map_iff in Hw as (c' & <- & Hc'). exact (H c' Hc').
    + destruct (py_round2_unit _ H0 H1) as [Hlo Hhi].
      repeat split; assumption.
Qed.

Lemma tempo_aggregate_unit (cands : list candidate) (r : option Qc * Qc) :
  Forall unit_weight cands ->
  tempo_aggregate cands = Ok r ->
  0 <= snd r /\ snd r <= 1
  /\ (fst r <> None ->
      snd r = py_round (np_mean (map snd (remove_outliers cands))) 2).
Proof.
  intros H. rewrite tempo_aggregate_unfold.
  apply weighted_result_unit, remove_outliers_unit, H.
Qed.

Lemma unit_weight_const (v w : Qc) :
  0 <= w -> w <= 1 -> Forall unit_weight [(v, w)].
Proof. intros H0 H1. repeat constructor; assumption. Qed.

Lemma unit_weight_if (b : bool) (v w : Qc) :
  0 <= w -> w <= 1 -> Forall unit_weight (if b then [(v, w)] else []).
Proof.
  intros H0 H1. destruct b; [apply unit_weight_const; assumption|constructor].
Qed.

Lemma beat_tracking_unit
  (W : Type) (librosa : Librosa W) (y : W) (sr : Z) :
  Forall unit_weight (beat_tracking librosa y sr).
Proof.
  unfold beat_tracking. generalize hop_lengths.
  induction l as [|h l IH]; cbn [flat_map]; [constructor|].
  apply Forall_app. split; [|exact IH].
  destruct (librosa_beat_track librosa y sr h); cbn [bind try_pass].
  - apply unit_weight_if; vm_compute; discriminate.
  - constructor.
Qed.

Lemma onset_candidates_unit (onset_frames : list Qc) :
  Forall unit_weight (onset_candidates onset_frames).
Proof.
  rewrite onset_candidates_spec.
  apply unit_weight_if; vm_compute; discriminate.
Qed.

Lemma autocorr_candidates_unit (sr : Z) (peaks : list Z) :
  Forall unit_weight (autocorr_candidates sr peaks).
Proof.
  unfold autocorr_candidates. destruct peaks as [|p peaks]; [constructor|].
  destruct (0 <? p)%Z; [|constructor].
  apply unit_weight_if; vm_compute; discriminate.
Qed.

Lemma tempo_candidates_unit
  (W A : Type) (librosa : Librosa W) (es : Essentia W A) (y : W) (sr : Z) :
  Forall unit_weight (tempo_candidates librosa es y sr).
Proof.
  unfold tempo_candidates.
  apply Forall_app. split; [apply beat_tracking_unit|].
  apply Forall_app. split.
  { unfold onset_based.
    destruct (librosa_onset_detect librosa y sr); cbn [bind try_pass];
      [apply onset_candidates_unit | constructor]. }
  apply Forall_app. split.
  { unfold essentia_bpm.
    destruct (es_MonoLoader es "temp"); cbn [bind try_pass]; [|constructor].
    destruct (es_BpmHistogramDescriptors es a) as [[|b0 d]|];
      cbn [bind try_pass getitem0]; try constructor.
    apply unit_weight_if; vm_compute; discriminate. }
  apply Forall_app. split.
  { unfold autocorrelation.
    destruct (librosa_autocorr_peaks librosa y sr); cbn [bind try_pass];
      [apply autocorr_candidates_unit | constructor]. }
  unfold dynamic_tracking.
  destruct (librosa_dynamic_tempo librosa y sr) as [[|u0 u]|];
    cbn [bind try_pass getitem0]; try constructor.
  apply unit_weight_if; vm_compute; discriminate.
Qed.

Lemma advanced_bpm_detection_unit
  (W A : Type) (librosa : Librosa W) (es : Essentia W A) (y : W) (sr : Z) :
  0 <= snd (advanced_bpm_detection librosa es y sr)
  /\ snd (advanced_bpm_detection librosa es y sr) <= 1.
Proof.
  unfold advanced_bpm_detection, except_none.
  destruct (tempo_aggregate (tempo_candidates librosa es y sr)) as [r|e] eqn:E.
  - destruct (tempo_aggregate_unit _ _ (tempo_candidates_unit W A librosa es y sr) E)
      as (H0 & H1 & _).
    split; assumption.
  - cbn [snd]. split; [apply Qcle_refl | vm_compute; discriminate].
Qed.

Lemma advanced_key_detection_unit
  (W A : Type) (librosa : Librosa W) (es : Essentia W A) (y : W) (sr : Z) :
  (0 <= snd (advanced_key_detection librosa es y sr) <= 1)%R.
Proof.
  unfold advanced_key_detection, except_unknown.
  destruct (chroma_based librosa y sr) as [m1|e]; cbn [bind snd]; [|lra].
  destruct (key_aggregate_confidence (L := R_score_laws)
              (m1 ++ essentia_key es y ++ harmonic_based librosa y sr))
    as (_ & _ & H0 & H1).
  cbn [sc_ltb sc_zero sc_one R_score] in H0, H1.
  apply Rltb_nlt in H0, H1. split; assumption.
Qed.

Lemma analyze_body_confidences
  (W A : Type) (librosa : Librosa W) (es : Essentia W A) (path : string)
  (r : AnalysisResult) :
  analyze_body librosa es path = Ok r ->
  exists y sr,
    librosa_load librosa path = Ok (y, sr)
    /\ bpm r = fst (advanced_bpm_detection librosa es y sr)
    /\ bpm_confidence r
       = (if truthy (bpm r)
          then snd (advanced_bpm_detection librosa es y sr) else 0)
    /\ key r = fst (advanced_key_detection librosa es y sr)
    /\ key_confidence r = snd (advanced_key_detection librosa es y sr).
Proof.
  unfold analyze_body.
  destruct (librosa_load librosa path) as [[y sr]|e]; simpl; [|discriminate].
  destruct (advanced_bpm_detection librosa es y sr) as [b bc] eqn:Eb.
  destruct (advanced_key_detection librosa es y sr) as [k kc] eqn:Ek.
  repeat match goal with
         | |- context [bind ?c _] => destruct c; simpl; [|discriminate]
         end.
  intros H. injection H as <-. exists y, sr. rewrite Eb, Ek.
  repeat split; reflexivity.
Qed.



(** ** The key ensemble on a rotated major profile *)

(** *** From the rationals to the reals *)

Lemma QcR_plus (x y : Qc) : QcR (x + y) = (QcR x + QcR y)%R.
Proof. unfold QcR, Qcplus. rewrite Q2R_Q2Qc. apply Q2R_plus. Qed.

Lemma QcR_mult (x y : Qc) : QcR (x * y) = (QcR x * QcR y)%R.
Proof. apply Q2R_Qcmult. Qed.

Lemma QcR_opp (x : Qc) : QcR (- x) = (- QcR x)%R.
Proof. unfold QcR, Qcopp. rewrite Q2R_Q2Qc. apply Q2R_opp. Qed.

Lemma QcR_minus (x y : Qc) : QcR (x - y) = (QcR x - QcR y)%R.
Proof. unfold Qcminus. rewrite QcR_plus, QcR_opp. reflexivity. Qed.

Lemma QcR_0 : QcR 0 = 0%R.
Proof. unfold QcR. rewrite Q2R_Q2Qc. apply RMicromega.Q2R_0. Qed.

Lemma QcR_1 : QcR 1 = 1%R.
Proof. unfold QcR. rewrite Q2R_Q2Qc. apply RMicromega.Q2R_1. Qed.

Lemma QcR_div (x y : Qc) : y <> 0 -> QcR (x / y) = (QcR x / QcR y)%R.
Proof.
  intro Hy. unfold Qcdiv, Rdiv. rewrite QcR_mult. f_equal.
  unfold QcR, Qcinv. rewrite Q2R_Q2Qc. apply Q2R_inv.
  intro H. apply Hy. apply Qc_is_canon. exact H.
Qed.

Lemma QcR_of_nat (n : nat) : QcR (Qc_of_nat n) = INR n.
Proof.
  unfold QcR, Qc_of_nat, Qc_of_Z. rewrite Q2R_Q2Qc, INR_IZR_INZ.
  unfold Q2R, inject_Z. cbn [Qnum Qden]. rewrite Rinv_1. ring.
Qed.

Lemma QcR_le (x y : Qc) : x <= y <-> (QcR x <= QcR y)%R.
Proof. split; [apply Qle_Rle | apply Rle_Qle]. Qed.

Lemma QcR_lt (x y : Qc) : x < y <-> (QcR x < QcR y)%R.
Proof. split; [apply Qlt_Rlt | apply Rlt_Qlt]. Qed.

Lemma Rsum_QcR (l : list Qc) : Rsum (map QcR l) = QcR (np_sum l).
Proof.
  induction l as [|x l IH]; cbn [map Rsum np_sum fold_right].
  - symmetry. apply QcR_0.
  - fold (Rsum (map QcR l)). fold (np_sum l). rewrite IH, QcR_plus. reflexivity.
Qed.

Lemma Qc_of_nat_nonzero (n : nat) : (0 < n)%nat -> Qc_of_nat n <> 0.
Proof.
  intros H E. pose proof (Qc_of_nat_pos n H) as Hp. rewrite E in Hp.
  exact (Qclt_not_eq _ _ Hp eq_refl).
Qed.

Lemma Rmean_QcR (l : list Qc) :
  l <> [] -> Rmean (map QcR l) = QcR (np_mean l).
Proof.
  intro Hne. unfold Rmean, np_mean.
  rewrite QcR_div, Rsum_QcR, length_map, QcR_of_nat; [reflexivity|].
  apply Qc_of_nat_nonzero. destruct l; [congruence | cbn; lia].
Qed.

Lemma centered_QcR (l : list Qc) :
  l <> [] -> centered (map QcR l) = map QcR (Qc_centered l).
Proof.
  intro Hne. unfold centered, Qc_centered. rewrite Rmean_QcR by exact Hne.
  rewrite !map_map. apply map_ext. intro x. rewrite QcR_minus. reflexivity.
Qed.

Lemma dot_QcR (a b : list Qc) : dot (map QcR a) (map QcR b) = QcR (Qc_dot a b).
Proof.
  unfold dot, Qc_dot. rewrite <- Rsum_QcR. f_equal.
  revert b. induction a as [|x a IH]; intros [|y b]; try reflexivity.
  cbn [map combine fst snd]. rewrite IH, QcR_mult. reflexivity.
Qed.

Lemma np_cov_QcR (a b : list Qc) :
  (2 <= length a)%nat -> b <> [] ->
  np_cov (map QcR a) (map QcR b) = QcR (Qc_cov a b).
Proof.
  intros Ha Hb. unfold np_cov, Qc_cov.
  assert (Hne : a <> []) by (destruct a; [cbn in Ha; lia | discriminate]).
  rewrite !centered_QcR, dot_QcR by assumption.
  rewrite QcR_div, QcR_minus, QcR_of_nat, QcR_1, length_map; [reflexivity|].
  intro E. apply (f_equal QcR) in E.
  rewrite QcR_minus, QcR_of_nat, QcR_1, QcR_0 in E.
  apply le_INR in Ha. cbn [INR] in Ha. lra.
Qed.

Lemma np_roll_map {A B : Type} (f : A -> B) (l : list A) (i : nat) :
  np_roll (map f l) i = map f (np_roll l i).
Proof.
  unfold np_roll. rewrite length_map, map_app, firstn_map, skipn_map.
  reflexivity.
Qed.

Lemma np_roll_length {A : Type} (l : list A) (i : nat) :
  length (np_roll l i) = length l.
Proof.
  unfold np_roll. rewrite length_app, length_skipn, length_firstn. lia.
Qed.

Lemma normalize_profile_QcR (p : list Q) :
  np_sum (map Q2Qc p) <> 0 ->
  normalize_profile p = map QcR (Qc_profile p).
Proof.
  intro Hs. unfold normalize_profile, Qc_profile.
  rewrite !map_map. apply map_ext. intro x.
  rewrite QcR_div by exact Hs. f_equal.
  - unfold QcR. rewrite Q2R_Q2Qc. reflexivity.
  - rewrite <- Rsum_QcR, map_map. f_equal. apply map_ext. intro y.
    unfold QcR. rewrite Q2R_Q2Qc. reflexivity.
Qed.

Lemma major_profile_QcR : major_profile = map QcR (Qc_profile major_profile_raw).
Proof. apply normalize_profile_QcR. vm_compute. discriminate. Qed.

Lemma minor_profile_QcR : minor_profile = map QcR (Qc_profile minor_profile_raw).
Proof. apply normalize_profile_QcR. vm_compute. discriminate. Qed.

Lemma profile_table_true : forallb profile_row (seq 0 12) = true.
Proof. vm_compute. reflexivity. Qed.

Lemma profile_table_facts (k i : nat) :
  (k < 12)%nat -> (i < 12)%nat ->
  np_sum (np_roll Mq k) = 1
  /\ 0 < Qc_cov (np_roll Mq k) (np_roll Mq k)
  /\ 0 < Qc_cov (np_roll mq k) (np_roll mq k)
  /\ (i <> k -> corr_below_one (np_roll Mq k) (np_roll Mq i) = true)
  /\ corr_below_one (np_roll Mq k) (np_roll mq i) = true.
Proof.
  intros Hk Hi. pose proof profile_table_true as H.
  rewrite forallb_forall in H.
  specialize (H k ltac:(apply in_seq; lia)). unfold profile_row in H.
  rewrite !andb_true_iff in H. destruct H as [[[H1 H2] H3] H4].
  rewrite forallb_forall in H4.
  specialize (H4 i ltac:(apply in_seq; lia)). unfold profile_cell in H4.
  rewrite andb_true_iff, orb_true_iff in H4. destruct H4 as [H4 H5].
  split; [apply Qc_eq_bool_correct; exact H1|].
  split; [apply Qcltb_lt; exact H2|].
  split; [apply Qcltb_lt; exact H3|].
  split; [|exact H5].
  intro Hne. destruct H4 as [H4|H4]; [|exact H4].
  apply Nat.eqb_eq in H4. contradiction.
Qed.

Lemma Mq_length : length Mq = 12%nat.
Proof. unfold Mq, Qc_profile. cbv zeta. rewrite length_map. reflexivity. Qed.
Lemma mq_length : length mq = 12%nat.
Proof. unfold mq, Qc_profile. cbv zeta. rewrite length_map. reflexivity. Qed.

Lemma roll_major_QcR (k : nat) : np_roll major_profile k = map QcR (np_roll Mq k).
Proof. rewrite major_profile_QcR. apply np_roll_map. Qed.

Lemma roll_minor_QcR (k : nat) : np_roll minor_profile k = map QcR (np_roll mq k).
Proof. rewrite minor_profile_QcR. apply np_roll_map. Qed.

Lemma roll_major_length (k : nat) : length (np_roll major_profile k) = 12%nat.
Proof. rewrite roll_major_QcR, length_map, np_roll_length. apply Mq_length. Qed.

Lemma roll_minor_length (k : nat) : length (np_roll minor_profile k) = 12%nat.
Proof. rewrite roll_minor_QcR, length_map, np_roll_length. apply mq_length. Qed.

Lemma cov_rolled (a b : list Qc) (j i : nat) :
  length a = 12%nat -> length b = 12%nat ->
  np_cov (map QcR (np_roll a j)) (map QcR (np_roll b i))
  = QcR (Qc_cov (np_roll a j) (np_roll b i)).
Proof.
  intros Ha Hb. apply np_cov_QcR.
  - rewrite np_roll_length, Ha. lia.
  - intro E. apply (f_equal (@length Qc)) in E.
    rewrite np_roll_length, Hb in E. discriminate.
Qed.

Lemma roll_major_sum (k : nat) :
  (k < 12)%nat -> Rsum (np_roll major_profile k) = 1%R.
Proof.
  intro Hk. rewrite roll_major_QcR, Rsum_QcR.
  destruct (profile_table_facts k k Hk Hk) as (H & _). rewrite H. apply QcR_1.
Qed.

Lemma roll_major_var (k : nat) :
  (k < 12)%nat ->
  (0 < np_cov (np_roll major_profile k) (np_roll major_profile k))%R.
Proof.
  intro Hk. rewrite roll_major_QcR, cov_rolled by apply Mq_length.
  destruct (profile_table_facts k k Hk Hk) as (_ & H & _).
  rewrite <- QcR_0. apply QcR_lt. exact H.
Qed.

Lemma roll_minor_var (k : nat) :
  (k < 12)%nat ->
  (0 < np_cov (np_roll minor_profile k) (np_roll minor_profile k))%R.
Proof.
  intro Hk. rewrite roll_minor_QcR, cov_rolled by apply mq_length.
  destruct (profile_table_facts k k Hk Hk) as (_ & _ & H & _).
  rewrite <- QcR_0. apply QcR_lt. exact H.
Qed.

Lemma corr_below_one_R (a b : list Qc) (j i : nat) :
  length a = 12%nat -> length b = 12%nat ->
  corr_below_one (np_roll a j) (np_roll b i) = true ->
  let x := map QcR (np_roll a j) in
  let y := map QcR (np_roll b i) in
  (np_cov x y <= 0 \/ np_cov x y * np_cov x y < np_cov x x * np_cov y y)%R.
Proof.
  intros Ha Hb H x y. subst x y. rewrite !cov_rolled by assumption.
  unfold corr_below_one in H. cbv zeta in H. apply orb_true_iff in H.
  destruct H as [H|H].
  - left. apply Qcleb_le in H. apply QcR_le in H. rewrite QcR_0 in H. exact H.
  - right. apply Qcltb_lt in H. apply QcR_lt in H.
    rewrite !QcR_mult in H. exact H.
Qed.

Open Scope R_scope.

Lemma np_clip_le (t : R) : np_clip t (-1) 1 <= 1.
Proof.
  unfold np_clip. apply Rmax_lub; [lra | apply Rmin_r].
Qed.

Lemma np_clip_lt (t : R) : t < 1 -> np_clip t (-1) 1 < 1.
Proof.
  intro H. unfold np_clip. apply Rmax_lub_lt; [lra|].
  rewrite Rmin_left by lra. exact H.
Qed.

Lemma np_clip_gt (q t : R) : q < t -> q < 1 -> q < np_clip t (-1) 1.
Proof.
  intros H H1. unfold np_clip.
  apply Rlt_le_trans with (Rmin t 1); [|apply Rmax_r].
  apply Rmin_glb_lt; assumption.
Qed.

Lemma quotient_by_roots (c vx vy : R) :
  0 < vx -> 0 < vy ->
  c / sqrt vx / sqrt vy = c / (sqrt vx * sqrt vy)
  /\ 0 < sqrt vx * sqrt vy
  /\ (sqrt vx * sqrt vy) * (sqrt vx * sqrt vy) = vx * vy.
Proof.
  intros Hx Hy.
  pose proof (sqrt_lt_R0 vx Hx) as Hsx. pose proof (sqrt_lt_R0 vy Hy) as Hsy.
  split; [field; lra|]. split; [apply Rmult_lt_0_compat; assumption|].
  replace (sqrt vx * sqrt vy * (sqrt vx * sqrt vy))
    with ((sqrt vx * sqrt vx) * (sqrt vy * sqrt vy)) by ring.
  rewrite !sqrt_sqrt by lra. reflexivity.
Qed.

Lemma corr_value_lt_1 (x y : list R) :
  0 < np_cov x x -> 0 < np_cov y y ->
  (np_cov x y <= 0 \/ np_cov x y * np_cov x y < np_cov x x * np_cov y y) ->
  corr_value x y < 1.
Proof.
  intros Hx Hy H. unfold corr_value. apply np_clip_lt.
  destruct (quotient_by_roots (np_cov x y) _ _ Hx Hy) as (-> & Hp & Hsq).
  set (p := sqrt (np_cov x x) * sqrt (np_cov y y)) in *.
  apply Rmult_lt_reg_r with p; [exact Hp|].
  unfold Rdiv. rewrite Rmult_assoc, Rinv_l, Rmult_1_r, Rmult_1_l by lra.
  destruct H as [H|H]; [lra|]. rewrite <- Hsq in H. nra.
Qed.

Lemma corr_value_self (x : list R) : 0 < np_cov x x -> corr_value x x = 1.
Proof.
  intro Hx. unfold corr_value.
  destruct (quotient_by_roots (np_cov x x) _ _ Hx Hx) as (-> & Hp & Hsq).
  rewrite sqrt_sqrt by lra. unfold Rdiv. rewrite Rinv_r by lra.
  unfold np_clip. rewrite Rmin_left, Rmax_right; lra.
Qed.

Lemma corr_value_gt (x y : list R) (q : R) :
  0 < np_cov x x -> 0 < np_cov y y -> 0 <= q < 1 -> 0 < np_cov x y ->
  q * q * (np_cov x x * np_cov y y) < np_cov x y * np_cov x y ->
  q < corr_value x y.
Proof.
  intros Hx Hy Hq Hc H. unfold corr_value. apply np_clip_gt; [|lra].
  destruct (quotient_by_roots (np_cov x y) _ _ Hx Hy) as (-> & Hp & Hsq).
  set (p := sqrt (np_cov x x) * sqrt (np_cov y y)) in *.
  apply Rmult_lt_reg_r with p; [exact Hp|].
  unfold Rdiv. rewrite Rmult_assoc, Rinv_l, Rmult_1_r by lra.
  rewrite <- Hsq in H. nra.
Qed.

(** *** The candidates of one chroma variant and their totals *)

Lemma np_corrcoef_finite (x y : list R) :
  length x = length y -> np_cov x x <> 0 -> np_cov y y <> 0 ->
  np_corrcoef (Finite x) y = Ok (Some (corr_value x y)).
Proof.
  intros Hl Hx Hy. unfold np_corrcoef. cbn [fvec_length].
  rewrite Hl, Nat.eqb_refl. cbn [negb].
  destruct (Req_dec_T (np_cov x x) 0); [contradiction|].
  destruct (Req_dec_T (np_cov y y) 0); [contradiction|].
  reflexivity.
Qed.

Lemma correlate_key_rolled (x : list R) (w : R) (i : nat) :
  length x = 12%nat -> 0 < np_cov x x -> (i < 12)%nat ->
  correlate_key (Finite x) w i
  = Ok (map (scaled w)
          [(key_name i "major", corr_value x (np_roll major_profile i));
           (key_name i "minor", corr_value x (np_roll minor_profile i))]).
Proof.
  intros Hl Hx Hi. unfold correlate_key.
  pose proof (roll_major_var i Hi) as HM. pose proof (roll_minor_var i Hi) as Hm.
  rewrite !np_corrcoef_finite;
    rewrite ?roll_major_length, ?roll_minor_length; try assumption; try lra.
  reflexivity.
Qed.

Lemma for_each_ok {A B : Type} (body : A -> result (list B))
  (g : A -> list B) (xs : list A) :
  (forall x, In x xs -> body x = Ok (g x)) ->
  for_each body xs = Ok (flat_map g xs).
Proof.
  induction xs as [|x xs IH]; intro H; [reflexivity|].
  cbn [for_each flat_map]. rewrite (H x (or_introl eq_refl)). cbn [bind].
  rewrite IH; [reflexivity|]. intros x' Hx'. apply H. right. exact Hx'.
Qed.

Lemma flat_map_map {A B C : Type} (f : B -> C) (g : A -> list B) (xs : list A) :
  flat_map (fun x => map f (g x)) xs = map f (flat_map g xs).
Proof.
  induction xs as [|x xs IH]; [reflexivity|].
  cbn [flat_map]. rewrite map_app, IH. reflexivity.
Qed.

Lemma chroma_profile_rolled (chroma : chromagram) (k : nat) :
  (k < 12)%nat ->
  map Rmean chroma = np_roll major_profile k ->
  chroma_profile chroma = Finite (np_roll major_profile k).
Proof.
  intros Hk H. unfold chroma_profile, normalize. rewrite H.
  rewrite (roll_major_sum k Hk).
  destruct (Req_dec_T 1 0); [lra|].
  f_equal. rewrite <- (map_id (np_roll major_profile k)) at 2.
  apply map_ext. intro x. field.
Qed.

Lemma correlate_chroma_rolled (chroma : chromagram) (k : nat) (w : R) :
  (k < 12)%nat ->
  map Rmean chroma = np_roll major_profile k ->
  correlate_chroma chroma w = Ok (chroma_candidates (np_roll major_profile k) w).
Proof.
  intros Hk H. unfold correlate_chroma, chroma_candidates, base_corr.
  rewrite (chroma_profile_rolled chroma k Hk H), <- flat_map_map.
  apply for_each_ok. intros i Hi. apply in_seq in Hi.
  apply correlate_key_rolled;
    [apply roll_major_length | apply roll_major_var; exact Hk | lia].
Qed.

Lemma label_total_cons (lab : string) (c : string * R) (ks : list (string * R)) :
  label_total lab (c :: ks)
  = (if String.eqb (fst c) lab then snd c else 0) + label_total lab ks.
Proof.
  unfold label_total, Rsum. cbn [filter].
  destruct (String.eqb (fst c) lab); cbn [map fold_right]; lra.
Qed.

Lemma label_total_nil (lab : string) : label_total lab [] = 0.
Proof. reflexivity. Qed.

Lemma fold_opt_add_some (lab : string) (ks : list (string * R)) (v : R) :
  fold_left (opt_add lab) ks (Some v) = Some (v + label_total lab ks).
Proof.
  revert v. induction ks as [|c ks IH]; intro v.
  - cbn [fold_left]. rewrite label_total_nil. f_equal. lra.
  - cbn [fold_left]. rewrite label_total_cons. unfold opt_add at 2.
    destruct (String.eqb (fst c) lab); rewrite IH; f_equal;
      cbn [sc_add R_score]; lra.
Qed.

Lemma accumulated_total (lab : string) (ks : list (string * R)) :
  accumulated ks lab
  = if existsb (String.eqb lab) (map fst ks)
    then Some (label_total lab ks) else None.
Proof.
  rewrite accumulated_fold.
  induction ks as [|c ks IH]; [reflexivity|].
  cbn [fold_left map existsb]. rewrite label_total_cons. unfold opt_add at 2.
  rewrite (String.eqb_sym lab (fst c)).
  destruct (String.eqb (fst c) lab) eqn:E; cbn [orb].
  - rewrite fold_opt_add_some. reflexivity.
  - rewrite IH. destruct (existsb (String.eqb lab) (map fst ks));
      [f_equal; lra | reflexivity].
Qed.

Lemma label_total_app (lab : string) (a b : list (string * R)) :
  label_total lab (a ++ b) = label_total lab a + label_total lab b.
Proof.
  induction a as [|c a IH]; cbn [app].
  - rewrite label_total_nil. lra.
  - rewrite !label_total_cons, IH. lra.
Qed.

Lemma label_total_scaled (lab : string) (w : R) (base : list (string * R)) :
  label_total lab (map (scaled w) base) = label_total lab base * w.
Proof.
  induction base as [|c base IH]; cbn [map].
  - rewrite label_total_nil. lra.
  - rewrite !label_total_cons, IH. cbn [scaled fst snd].
    destruct (String.eqb (fst c) lab); lra.
Qed.

Lemma label_total_absent (lab : string) (ks : list (string * R)) :
  ~ In lab (map fst ks) -> label_total lab ks = 0.
Proof.
  intro H. induction ks as [|c ks IH]; [reflexivity|].
  rewrite label_total_cons. destruct (String.eqb (fst c) lab) eqn:E.
  - apply String.eqb_eq in E. exfalso. apply H. left. exact E.
  - rewrite IH; [lra|]. intro Hin. apply H. right. exact Hin.
Qed.

Lemma label_total_unique (lab : string) (c : R) (base : list (string * R)) :
  NoDup (map fst base) -> In (lab, c) base -> label_total lab base = c.
Proof.
  induction base as [|[l v] base IH]; intros Hnd Hin; [destruct Hin|].
  cbn [map fst] in Hnd. apply NoDup_cons_iff in Hnd as [Hn Hnd].
  rewrite label_total_cons. cbn [fst snd]. destruct Hin as [E|Hin].
  - injection E as -> ->. rewrite String.eqb_refl.
    rewrite label_total_absent by exact Hn. lra.
  - destruct (String.eqb l lab) eqn:E.
    + apply String.eqb_eq in E. subst l. exfalso. apply Hn.
      apply (in_map fst) in Hin. exact Hin.
    + rewrite IH by assumption. lra.
Qed.

Lemma base_corr_labels (x : list R) : map fst (base_corr x) = key_labels.
Proof. reflexivity. Qed.

Lemma nodupb_NoDup (l : list string) : nodupb l = true -> NoDup l.
Proof.
  induction l as [|x l IH]; cbn [nodupb]; intro H; [constructor|].
  apply andb_true_iff in H as [Hx Hl]. constructor; [|apply IH, Hl].
  intro Hin. apply existsb_eqb_In in Hin. rewrite Hin in Hx. discriminate.
Qed.

Lemma key_labels_NoDup : NoDup key_labels.
Proof. apply nodupb_NoDup. vm_compute. reflexivity. Qed.

(** *** Selection *)

Section StrictMaximum.
Context {T : Type} {SA : ScoreArith T} {L : ScoreLaws SA}.

Lemma key_aggregate_strict_max (ks : list (string * T)) (lab : string) (b : T) :
  accumulated ks lab = Some b ->
  (forall l s, l <> lab -> accumulated ks l = Some s -> sc_ltb s b = true) ->
  key_aggregate ks = (lab, sc_round2 (clamp01 b)).
Proof.
  intros Hb Hothers.
  assert (Hne : ks <> []) by (intros ->; discriminate).
  destruct (key_aggregate_maximal ks Hne) as (bk & bs & Hk & Hbs & Hmax).
  rewrite Hk. destruct (string_dec bk lab) as [->|Hd].
  - rewrite Hb in Hbs. injection Hbs as ->. reflexivity.
  - pose proof (Hothers bk bs Hd Hbs) as Hlt.
    rewrite (Hmax lab b Hb) in Hlt. discriminate.
Qed.
End StrictMaximum.

Lemma R_round2_1 : R_round2 1 = 1.
Proof.
  unfold R_round2, R_rint.
  replace (1 * 100) with (IZR 100) by lra.
  assert (H : Int_part (IZR 100) = 100%Z).
  { symmetry. apply Int_part_spec. lra. }
  rewrite H. destruct (Rlt_dec (IZR 100 - IZR 100) 0.5); [lra|lra].
Qed.

Lemma clamp01_saturates (b : R) : 1 <= b -> sc_round2 (clamp01 b) = 1.
Proof.
  intro H. unfold clamp01, py_min2, py_max2.
  cbn [sc_ltb sc_zero sc_one sc_round2 R_score].
  rewrite (proj2 (Rltb_lt 0 b)) by lra.
  rewrite (proj2 (Rltb_nlt b 1)) by lra.
  apply R_round2_1.
Qed.

Section RolledProfile.

Variable k : nat.
Hypothesis Hk : (k < 12)%nat.

Local Abbreviation X := (np_roll major_profile k).
Local Abbreviation lab := (key_name k "major").

Lemma corr_major_other (i : nat) :
  (i < 12)%nat -> i <> k -> corr_value X (np_roll major_profile i) < 1.
Proof.
  intros Hi Hne.
  apply corr_value_lt_1;
    [apply roll_major_var, Hk | apply roll_major_var, Hi |].
  rewrite !roll_major_QcR.
  apply (corr_below_one_R Mq Mq k i Mq_length Mq_length).
  destruct (profile_table_facts k i Hk Hi) as (_ & _ & _ & H & _).
  apply H, Hne.
Qed.

Lemma corr_minor_any (i : nat) :
  (i < 12)%nat -> corr_value X (np_roll minor_profile i) < 1.
Proof.
  intros Hi.
  apply corr_value_lt_1;
    [apply roll_major_var, Hk | apply roll_minor_var, Hi |].
  rewrite roll_major_QcR, roll_minor_QcR.
  apply (corr_below_one_R Mq mq k i Mq_length mq_length).
  destruct (profile_table_facts k i Hk Hi) as (_ & _ & _ & _ & H).
  exact H.
Qed.

Lemma base_corr_own : In (lab, 1) (base_corr X).
Proof.
  unfold base_corr. apply in_flat_map. exists k.
  split; [apply in_seq; lia|]. left. f_equal.
  apply corr_value_self. apply roll_major_var, Hk.
Qed.

Lemma base_corr_others (l : string) (c : R) :
  In (l, c) (base_corr X) -> l <> lab -> c < 1.
Proof.
  unfold base_corr. intros Hin Hne. apply in_flat_map in Hin.
  destruct Hin as (i & Hi & [E|[E|[]]]); apply in_seq in Hi;
    injection E as <- <-.
  - apply corr_major_other; [lia|]. intros ->. apply Hne. reflexivity.
  - apply corr_minor_any. lia.
Qed.

Lemma base_total_own : label_total lab (base_corr X) = 1.
Proof.
  apply label_total_unique; [|apply base_corr_own].
  rewrite base_corr_labels. apply key_labels_NoDup.
Qed.

Lemma base_total_others (l : string) :
  l <> lab -> In l key_labels -> label_total l (base_corr X) < 1.
Proof.
  intros Hne Hin. rewrite <- (base_corr_labels X) in Hin.
  apply in_map_iff in Hin as ([l' c] & <- & Hin). cbn [fst] in *.
  rewrite (label_total_unique l' c);
    [eapply base_corr_others; eassumption | | exact Hin].
  rewrite base_corr_labels. apply key_labels_NoDup.
Qed.

Lemma chroma_candidates_labels (w : R) :
  map fst (chroma_candidates X w) = key_labels.
Proof.
  unfold chroma_candidates. rewrite map_map. cbn [scaled fst].
  apply base_corr_labels.
Qed.

Lemma rolled_profile_selected (E H : list (string * R)) :
  (forall c, In c E -> fst c = lab /\ 0 <= snd c) ->
  H = [] \/ H = chroma_candidates X 0.6 ->
  key_aggregate
    ((chroma_candidates X 0.4 ++ chroma_candidates X 0.4
        ++ chroma_candidates X 0.2 ++ []) ++ E ++ H)
  = (lab, 1).
Proof.
  intros HE HH.
  set (ks := (chroma_candidates X 0.4 ++ chroma_candidates X 0.4
                ++ chroma_candidates X 0.2 ++ []) ++ E ++ H).
  assert (Htotal : forall l,
             label_total l ks
             = label_total l (base_corr X) * 0.4
               + label_total l (base_corr X) * 0.4
               + label_total l (base_corr X) * 0.2
               + label_total l E + label_total l H).
  { intro l. subst ks. unfold chroma_candidates.
    rewrite !label_total_app, !label_total_scaled, label_total_nil. lra. }
  assert (HtE : 0 <= label_total lab E).
  { clear -HE. induction E as [|c E' IH]; [rewrite label_total_nil; lra|].
    rewrite label_total_cons.
    destruct (HE c (or_introl eq_refl)) as [_ Hc].
    assert (0 <= label_total lab E') by (apply IH; intros c' Hc'; apply HE; right; exact Hc').
    destruct (String.eqb (fst c) lab); lra. }
  assert (HtH : forall l, label_total l H = 0
                          \/ label_total l H = label_total l (base_corr X) * 0.6).
  { intro l. destruct HH as [->| ->].
    - left. apply label_total_nil.
    - right. unfold chroma_candidates. apply label_total_scaled. }
  assert (Hlabels : forall l, In l (map fst ks) -> l = lab \/ In l key_labels).
  { intros l Hin. subst ks. rewrite !map_app, !chroma_candidates_labels in Hin.
    cbn [map] in Hin. rewrite !in_app_iff in Hin. cbn [In] in Hin.
    destruct Hin as [[Hin|[Hin|[Hin|[]]]]|[Hin|Hin]]; auto.
    - apply in_map_iff in Hin as (c & <- & Hc). left. apply HE, Hc.
    - destruct HH as [->| ->]; [destruct Hin|].
      rewrite chroma_candidates_labels in Hin. auto. }
  assert (Hown : In lab (map fst ks)).
  { subst ks. rewrite !map_app, chroma_candidates_labels.
    apply in_or_app. left. apply in_or_app. left.
    rewrite <- (base_corr_labels X).
    apply (in_map fst _ _ base_corr_own). }
  pose proof (Htotal lab) as Hb. rewrite base_total_own in Hb.
  assert (Hge : 1 <= label_total lab ks).
  { destruct (HtH lab) as [Hh|Hh]; rewrite Hh in Hb;
      rewrite ?base_total_own in Hb; lra. }
  rewrite <- (clamp01_saturates (label_total lab ks) Hge).
  apply (key_aggregate_strict_max (L := R_score_laws)).
  - rewrite accumulated_total.
    rewrite (proj2 (existsb_eqb_In lab (map fst ks)) Hown). reflexivity.
  - intros l s Hne Hs. rewrite accumulated_total in Hs.
    destruct (existsb (String.eqb l) (map fst ks)) eqn:Ex; [|discriminate].
    injection Hs as <-. apply existsb_eqb_In in Ex.
    destruct (Hlabels l Ex) as [->|Hin]; [congruence|].
    pose proof (base_total_others l Hne Hin) as Hlt.
    assert (HlE : label_total l E = 0).
    { apply label_total_absent. intro HinE.
      apply in_map_iff in HinE as (c & <- & Hc). apply Hne. apply HE, Hc. }
    cbn [sc_ltb R_score]. apply Rltb_lt.
    rewrite (Htotal l), HlE, Hb.
    destruct HH as [->| ->].
    + rewrite !label_total_nil. lra.
    + unfold chroma_candidates. rewrite !label_total_scaled, base_total_own.
      lra.
Qed.

End RolledProfile.

Lemma Rmean_one_frame (v : list R) : map Rmean (one_frame v) = v.
Proof.
  unfold one_frame. rewrite map_map. rewrite <- (map_id v) at 2.
  apply map_ext. intro x. unfold Rmean, Rsum. cbn [fold_right length INR].
  field.
Qed.

Lemma essentia_key_cases
  (W A : Type) (es : Essentia W A) (y : W) (lab : string) :
  (forall key scale strength,
      es_KeyExtractor es y = Ok (key, scale, strength) ->
      strength <= 0.1 \/ (key ++ " " ++ scale)%string = lab) ->
  forall c, In c (essentia_key es y) -> fst c = lab /\ 0 <= snd c.
Proof.
  intros H c. unfold essentia_key.
  destruct (es_KeyExtractor es y) as [[[key scale] strength]|e];
    cbn [bind try_pass]; [|intros []].
  destruct (Rltb 0.1 strength) eqn:E; [|intros []].
  apply Rltb_lt in E. intros [<-|[]]. cbn [fst snd].
  destruct (H key scale strength eq_refl) as [Hs|Hl]; [lra|].
  split; [exact Hl | lra].
Qed.

Lemma harmonic_based_cases
  (W : Type) (librosa : Librosa W) (y : W) (sr : Z) (k : nat) :
  (k < 12)%nat ->
  (forall harmonic chroma,
      librosa_hpss librosa y = Ok harmonic ->
      librosa_chroma_cqt librosa harmonic sr = Ok chroma ->
      map Rmean chroma = np_roll major_profile k) ->
  harmonic_based librosa y sr = []
  \/ harmonic_based librosa y sr
     = chroma_candidates (np_roll major_profile k) 0.6.
Proof.
  intros Hk H. unfold harmonic_based.
  destruct (librosa_hpss librosa y) as [harmonic|e]; cbn [bind try_pass];
    [|left; reflexivity].
  destruct (librosa_chroma_cqt librosa harmonic sr) as [chroma|e] eqn:E;
    cbn [bind try_pass]; [|left; reflexivity].
  right. rewrite (correlate_chroma_rolled chroma k 0.6 Hk (H _ _ eq_refl E)).
  reflexivity.
Qed.

Lemma chroma_based_rolled
  (W : Type) (librosa : Librosa W) (y : W) (sr : Z) (k : nat)
  (c_stft c_cqt c_cens : chromagram) :
  (k < 12)%nat ->
  librosa_chroma_stft librosa y sr = Ok c_stft ->
  librosa_chroma_cqt librosa y sr = Ok c_cqt ->
  librosa_chroma_cens librosa y sr = Ok c_cens ->
  map Rmean c_stft = np_roll major_profile k ->
  map Rmean c_cqt = np_roll major_profile k ->
  map Rmean c_cens = np_roll major_profile k ->
  chroma_based librosa y sr
  = Ok (chroma_candidates (np_roll major_profile k) 0.4
        ++ chroma_candidates (np_roll major_profile k) 0.4
        ++ chroma_candidates (np_roll major_profile k) 0.2 ++ []).
Proof.
  intros Hk E1 E2 E3 H1 H2 H3. unfold chroma_based.
  rewrite E1, E2, E3. cbn [bind for_each fst snd].
  rewrite (correlate_chroma_rolled c_stft k 0.4 Hk H1),
    (correlate_chroma_rolled c_cqt k 0.4 Hk H2),
    (correlate_chroma_rolled c_cens k 0.2 Hk H3).
  reflexivity.
Qed.

(** C8, as the code has it. For every k in 0..11, if the time-mean chroma
    vector of the three chroma variants (and of the harmonic-only chroma,
    when it is computed) equals the normalized major profile rotated by k
    semitones, and the external key extractor contributes no candidate (it
    raises, or reports a strength of at most 0.1) or votes for the same
    label, then [advanced_key_detection] returns the label of pitch class k
    major with confidence 1.0, above 0.9. *)
Theorem rotated_major_profile_selected :
  forall (W A : Type) (librosa : Librosa W) (es : Essentia W A)
         (y : W) (sr : Z) (k : nat) (c_stft c_cqt c_cens : chromagram),
    (k < 12)%nat ->
    librosa_chroma_stft librosa y sr = Ok c_stft ->
    librosa_chroma_cqt librosa y sr = Ok c_cqt ->
    librosa_chroma_cens librosa y sr = Ok c_cens ->
    map Rmean c_stft = np_roll major_profile k ->
    map Rmean c_cqt = np_roll major_profile k ->
    map Rmean c_cens = np_roll major_profile k ->
    (forall harmonic chroma,
        librosa_hpss librosa y = Ok harmonic ->
        librosa_chroma_cqt librosa harmonic sr = Ok chroma ->
        map Rmean chroma = np_roll major_profile k) ->
    (forall key scale strength,
        es_KeyExtractor es y = Ok (key, scale, strength) ->
        strength <= 0.1 \/ (key ++ " " ++ scale)%string = key_name k "major") ->
    advanced_key_detection librosa es y sr = (key_name k "major", 1)
    /\ 0.9 < snd (advanced_key_detection librosa es y sr).
Proof.
  intros W A librosa es y sr k c1 c2 c3 Hk E1 E2 E3 H1 H2 H3 Hh He.
  assert (Hr : advanced_key_detection librosa es y sr
               = (key_name k "major", 1)).
  { unfold advanced_key_detection.
    rewrite (chroma_based_rolled W librosa y sr k c1 c2 c3 Hk E1 E2 E3 H1 H2 H3).
    cbn [bind except_unknown].
    apply (rolled_profile_selected k Hk).
    - apply essentia_key_cases. exact He.
    - apply harmonic_based_cases; assumption. }
  rewrite Hr. split; [reflexivity | cbn [snd]; lra].
Qed.

Lemma rotated_major_profile_selected_witness :
  advanced_key_detection (profile_librosa 2 NoBackendError)
    (failing_essentia NoBackendError) tt 44100%Z = ("D major"%string, 1)
  /\ 0.9 < snd (advanced_key_detection (profile_librosa 2 NoBackendError)
                  (failing_essentia NoBackendError) tt 44100%Z).
Proof.
  apply (rotated_major_profile_selected unit unit
           (profile_librosa 2 NoBackendError) (failing_essentia NoBackendError)
           tt 44100%Z 2
           (one_frame (np_roll major_profile 2))
           (one_frame (np_roll major_profile 2))
           (one_frame (np_roll major_profile 2)));
    try reflexivity; try apply Rmean_one_frame.
  - lia.
  - intros harmonic chroma H. discriminate H.
  - intros key scale strength H. discriminate H.
Defined.

Lemma relative_minor_check_true : relative_minor_check = true.
Proof. vm_compute. reflexivity. Qed.

Lemma relative_minor_correlation :
  0.3 < corr_value (np_roll major_profile 0) (np_roll minor_profile 9).
Proof.
  pose proof relative_minor_check_true as H. unfold relative_minor_check in H.
  cbv zeta in H. apply andb_true_iff in H as [Hc Hq].
  apply Qcltb_lt in Hc, Hq. apply QcR_lt in Hc, Hq.
  rewrite QcR_0 in Hc. rewrite !QcR_mult in Hq.
  assert (H3 : QcR (Q2Qc 0.3) = 0.3).
  { unfold QcR. rewrite Q2R_Q2Qc. unfold Q2R. cbn [Qnum Qden]. lra. }
  rewrite H3 in Hq.
  rewrite <- !(cov_rolled _ _ _ _ Mq_length Mq_length) in Hq.
  rewrite <- !(cov_rolled _ _ _ _ mq_length mq_length) in Hq.
  rewrite <- !(cov_rolled _ _ _ _ Mq_length mq_length) in Hq, Hc.
  rewrite <- !roll_major_QcR, <- !roll_minor_QcR in Hq, Hc.
  apply corr_value_gt; try assumption; try lra.
  - apply roll_major_var. lia.
  - apply roll_minor_var. lia.
Qed.

Lemma base_corr_le_1 (x : list R) (l : string) (c : R) :
  In (l, c) (base_corr x) -> c <= 1.
Proof.
  unfold base_corr. intro Hin. apply in_flat_map in Hin.
  destruct Hin as (i & _ & [E|[E|[]]]); injection E as _ <-;
    apply np_clip_le.
Qed.

Lemma base_total_le_1 (x : list R) (l : string) :
  label_total l (base_corr x) <= 1.
Proof.
  destruct (in_dec string_dec l (map fst (base_corr x))) as [Hin|Hout].
  - apply in_map_iff in Hin as ([l' c] & <- & Hin). cbn [fst].
    rewrite (label_total_unique l' c);
      [eapply base_corr_le_1; eassumption | | exact Hin].
    rewrite base_corr_labels. apply key_labels_NoDup.
  - rewrite label_total_absent by exact Hout. lra.
Qed.

Lemma external_vote_outweighs :
  fst (key_aggregate
         ((chroma_candidates (np_roll major_profile 0) 0.4
             ++ chroma_candidates (np_roll major_profile 0) 0.4
             ++ chroma_candidates (np_roll major_profile 0) 0.2 ++ [])
            ++ [("A minor"%string, 0.9 * 0.8)] ++ []))
  = "A minor"%string.
Proof.
  set (X := np_roll major_profile 0).
  set (ks := (chroma_candidates X 0.4 ++ chroma_candidates X 0.4
                ++ chroma_candidates X 0.2 ++ [])
               ++ [("A minor"%string, 0.9 * 0.8)] ++ []).
  assert (Htotal : forall l,
             label_total l ks
             = label_total l (base_corr X)
               + label_total l [("A minor"%string, 0.9 * 0.8)]).
  { intro l. subst ks. unfold chroma_candidates.
    rewrite !label_total_app, !label_total_scaled, !label_total_nil. lra. }
  assert (Hown : label_total "A minor" (base_corr X)
                 = corr_value X (np_roll minor_profile 9)).
  { apply label_total_unique.
    - rewrite base_corr_labels. apply key_labels_NoDup.
    - unfold base_corr. apply in_flat_map. exists 9%nat.
      split; [apply in_seq; lia|]. right. left. reflexivity. }
  pose proof relative_minor_correlation as Hc. fold X in Hc.
  assert (Hb : accumulated ks "A minor" = Some (label_total "A minor" ks)).
  { rewrite accumulated_total.
    assert (Hin : In "A minor"%string (map fst ks)).
    { subst ks. rewrite !map_app. apply in_or_app. right. left. reflexivity. }
    rewrite (proj2 (existsb_eqb_In _ _) Hin). reflexivity. }
  rewrite (key_aggregate_strict_max (L := R_score_laws) ks "A minor" _ Hb);
    [reflexivity|].
  intros l s Hne Hs. rewrite accumulated_total in Hs.
  destruct (existsb (String.eqb l) (map fst ks)); [|discriminate].
  injection Hs as <-. cbn [sc_ltb R_score]. apply Rltb_lt.
  rewrite !Htotal, Hown. rewrite !label_total_cons, !label_total_nil.
  cbn [fst snd]. rewrite String.eqb_refl.
  destruct (String.eqb "A minor" l) eqn:E.
  - apply String.eqb_eq in E. congruence.
  - pose proof (base_total_le_1 X l). lra.
Qed.

(** C8, counterexample to the claim as stated: the three chroma variants
    show exactly the major profile (k = 0, "C major"), the harmonic analysis
    fails, and the external key extractor reports A minor with strength
    0.9.  "A minor" accumulates more than 1.02 (its correlation, above 0.3,
    plus 0.72), "C major" exactly 1.0, and "A minor" is selected. *)
Lemma external_key_vote_counterexample :
  let librosa := profile_librosa 0 NoBackendError in
  let es := voting_essentia "A" "minor" 0.9 NoBackendError in
  let chroma := one_frame (np_roll major_profile 0) in
  librosa_chroma_stft librosa tt 44100%Z = Ok chroma
  /\ librosa_chroma_cqt librosa tt 44100%Z = Ok chroma
  /\ librosa_chroma_cens librosa tt 44100%Z = Ok chroma
  /\ map Rmean chroma = np_roll major_profile 0
  /\ key_name 0 "major" = "C major"%string
  /\ fst (advanced_key_detection librosa es tt 44100%Z) = "A minor"%string.
Proof.
  intros librosa es chroma.
  split; [reflexivity|]. split; [reflexivity|]. split; [reflexivity|].
  split; [apply Rmean_one_frame|]. split; [reflexivity|].
  unfold advanced_key_detection.
  rewrite (chroma_based_rolled unit librosa tt 44100%Z 0 _ _ _
             ltac:(lia) eq_refl eq_refl eq_refl
             (Rmean_one_frame _) (Rmean_one_frame _) (Rmean_one_frame _)).
  cbn [bind except_unknown].
  assert (He : essentia_key es tt = [("A minor"%string, 0.9 * 0.8)]).
  { unfold essentia_key, es, voting_essentia. cbn [es_KeyExtractor bind].
    rewrite (proj2 (Rltb_lt 0.1 0.9)) by lra. reflexivity. }
  assert (Hh : harmonic_based librosa tt 44100%Z = []) by reflexivity.
  rewrite He, Hh. apply external_vote_outweighs.
Qed.

Close Scope R_scope.

(** * Further properties *)

(** ** The selected key is a candidate's key *)

Section SelectedLabel.

Context {T : Type} {SA : ScoreArith T}.

Lemma py_max_from_In (rest : list (string * T)) (first : string * T) :
  In (py_max_from first rest) (first :: rest).
Proof.
  revert first. induction rest as [|kv rest IH]; intro first;
    cbn [py_max_from].
  - left. reflexivity.
  - destruct (IH (if sc_ltb (snd first) (snd kv) then kv else first))
      as [H|H].
    + destruct (sc_ltb (snd first) (snd kv)).
      * right. left. exact H.
      * left. exact H.
    + right. right. exact H.
Qed.

Lemma seen_step_incl (seen : list string) (k x : string) :
  In x (seen_step seen k) -> In x seen \/ x = k.
Proof.
  unfold seen_step. destruct (existsb (String.eqb k) seen); [auto|].
  intro H. apply in_app_or in H as [H|[H|[]]]; auto.
Qed.

Lemma fold_seen_incl (keys seen : list string) (x : string) :
  In x (fold_left seen_step keys seen) -> In x seen \/ In x keys.
Proof.
  revert seen. induction keys as [|k keys IH]; intros seen H; [auto|].
  cbn [fold_left] in H. destruct (IH _ H) as [H'|H'].
  - apply seen_step_incl in H' as [H'|H']; [auto|]. right. left. auto.
  - right. right. exact H'.
Qed.

Lemma aggregate_keys_incl (ks : list (string * T)) (x : string) :
  In x (map fst (aggregate_scores ks)) -> In x (map fst ks).
Proof.
  rewrite keys_aggregate. intro H.
  destruct (fold_seen_incl _ _ _ H) as [[]|H']. exact H'.
Qed.

Lemma aggregate_scores_first (ks : list (string * T)) :
  ks <> [] -> exists first rest, aggregate_scores ks = first :: rest.
Proof.
  intro Hne. destruct (aggregate_scores ks) as [|first rest] eqn:E;
    [|exists first, rest; reflexivity].
  exfalso. apply (f_equal (map fst)) in E. rewrite keys_aggregate in E.
  destruct ks as [|[k s] ks]; [congruence|]. unfold first_seen in E.
  cbn [map fst fold_left seen_step existsb app] in E.
  assert (H : forall keys seen, seen <> [] ->
                                fold_left seen_step keys seen <> []).
  { induction keys as [|k' keys IH]; intros seen Hs; [exact Hs|].
    cbn [fold_left]. apply IH. unfold seen_step.
    destruct (existsb (String.eqb k') seen); [exact Hs|].
    destruct seen; [congruence | discriminate]. }
  exact (H (map fst ks) [k] ltac:(discriminate) E).
Qed.

Lemma selected_pair_In (ks : list (string * T)) :
  ks <> [] ->
  exists bk bs,
    key_aggregate ks = (bk, sc_round2 (clamp01 bs))
    /\ In (bk, bs) (aggregate_scores ks).
Proof.
  intro Hne. destruct (aggregate_scores_first ks Hne) as (first & rest & E).
  unfold key_aggregate. destruct ks as [|c ks]; [congruence|]. rewrite E.
  pose proof (py_max_from_In rest first) as Hin.
  destruct (py_max_from first rest) as [bk bs]. exists bk, bs.
  split; [reflexivity | exact Hin].
Qed.

Lemma selected_label_In (ks : list (string * T)) :
  ks <> [] -> In (fst (key_aggregate ks)) (map fst ks).
Proof.
  intro Hne. destruct (selected_pair_In ks Hne) as (bk & bs & -> & Hin).
  cbn [fst]. apply aggregate_keys_incl.
  apply (in_map fst) in Hin. exact Hin.
Qed.

(** X1. The key that the aggregator selects is the label of one of the
    candidates it was given, and the confidence it reports is the two-digit
    rounding of that label's accumulated score clamped to [0, 1]: the
    aggregator invents no key and reports no other label's score. *)
Theorem selected_key_is_a_candidate :
  forall ks : list (string * T),
    ks <> [] ->
    In (fst (key_aggregate ks)) (map fst ks)
    /\ exists best_score,
         accumulated ks (fst (key_aggregate ks)) = Some best_score
         /\ snd (key_aggregate ks) = sc_round2 (clamp01 best_score).
Proof.
  intros ks Hne. split; [apply selected_label_In, Hne|].
  destruct (selected_pair_In ks Hne) as (bk & bs & -> & Hin).
  exists bs. cbn [fst snd]. split; [|reflexivity].
  apply In_dict_get; [apply keys_NoDup | exact Hin].
Qed.

End SelectedLabel.

Lemma selected_key_is_a_candidate_witness :
  In (fst (key_aggregate clear_winner)) (map fst clear_winner)
  /\ exists best_score,
       accumulated clear_winner (fst (key_aggregate clear_winner))
       = Some best_score
       /\ snd (key_aggregate clear_winner) = sc_round2 (clamp01 best_score).
Proof.
  apply (selected_key_is_a_candidate (T := Qc) clear_winner).
  discriminate.
Defined.

(** ** More on the octave correction *)

Lemma octave_cases (b : Qc) :
  (b < Q2Qc 60 /\ octave_correction b = b)
  \/ (Q2Qc 60 <= b /\ b < Q2Qc 80 /\ octave_correction b = b * Q2Qc 2)
  \/ (Q2Qc 80 <= b /\ b <= Q2Qc 160 /\ octave_correction b = b)
  \/ (Q2Qc 160 < b /\ b <= Q2Qc 280 /\ octave_correction b = b / Q2Qc 2)
  \/ (Q2Qc 280 < b /\ octave_correction b = b).
Proof.
  destruct (Qclt_le_dec b (Q2Qc 60)) as [H1|H1].
  { left. split; [exact H1 | apply octave_keeps_below, H1]. }
  destruct (Qclt_le_dec b (Q2Qc 80)) as [H2|H2].
  { right. left. repeat split; try assumption. apply octave_doubles; assumption. }
  destruct (Qclt_le_dec (Q2Qc 160) b) as [H3|H3].
  - destruct (Qclt_le_dec (Q2Qc 280) b) as [H4|H4].
    + right. right. right. right.
      split; [exact H4 | apply octave_keeps_above, H4].
    + right. right. right. left. repeat split; try assumption.
      apply octave_halves; assumption.
  - right. right. left. repeat split; try assumption.
    apply octave_keeps_middle; assumption.
Qed.

(** X2. The octave correction is idempotent, and its result never lies in
    [60, 80) nor in (160, 280]: a tempo in those bands is doubled or
    halved. *)
Theorem octave_correction_settles :
  forall b : Qc,
    octave_correction (octave_correction b) = octave_correction b
    /\ ~ (Q2Qc 60 <= octave_correction b /\ octave_correction b < Q2Qc 80)
    /\ ~ (Q2Qc 160 < octave_correction b /\ octave_correction b <= Q2Qc 280).
Proof.
  intro b.
  destruct (octave_cases b)
    as [[H1 E]|[(H1 & H2 & E)|[(H1 & H2 & E)|[(H1 & H2 & E)|[H1 E]]]]];
    rewrite E.
  - split; [exact E|]. split; intros [Ha Hb]; qc_arith.
  - split.
    + apply octave_keeps_middle; qc_arith.
    + split; intros [Ha Hb]; qc_arith.
  - split; [exact E|]. split; intros [Ha Hb]; qc_arith.
  - split.
    + apply octave_keeps_middle; qc_arith.
    + split; intros [Ha Hb]; qc_arith.
  - split; [exact E|]. split; intros [Ha Hb]; qc_arith.
Qed.

(** ** Estimates that agree *)

Lemma agreeing_values (cands : list candidate) (v : Qc) :
  (forall c, In c cands -> fst c = v) ->
  map fst cands = repeat v (length cands).
Proof.
  induction cands as [|c cands IH]; intro H; [reflexivity|].
  cbn [map length repeat]. rewrite (H c (or_introl eq_refl)). f_equal.
  apply IH. intros c' Hc'. apply H. right. exact Hc'.
Qed.

Lemma agreeing_kept (cands : list candidate) (v : Qc) :
  (forall c, In c cands -> fst c = v) -> remove_outliers cands = cands.
Proof.
  intro H. unfold remove_outliers.
  destruct (2 <? length cands)%nat eqn:E; [|reflexivity].
  apply Nat.ltb_lt in E. apply filter_all_true. intros c Hc.
  rewrite (agreeing_values cands v H), np_median_repeat by lia.
  rewrite (H c Hc). unfold abs_le_2std. apply Qcleb_le.
  replace ((v - v) * (v - v)) with 0 by ring.
  pose proof (np_var_nonneg (repeat v (length cands))) as Hv.
  qc_arith.
Qed.

Lemma agreeing_weighted_sum (cands : list candidate) (v : Qc) :
  (forall c, In c cands -> fst c = v) ->
  np_sum (map (fun vw => fst vw * snd vw) cands) = v * np_sum (map snd cands).
Proof.
  induction cands as [|c cands IH]; intro H; cbn [map np_sum fold_right].
  - ring.
  - fold (np_sum (map (fun vw => fst vw * snd vw) cands)).
    fold (np_sum (map snd cands)).
    rewrite IH by (intros c' Hc'; apply H; right; exact Hc').
    rewrite (H c (or_introl eq_refl)). ring.
Qed.



(** ** The weighted average *)

Lemma weighted_sum_bounds (cands : list candidate) (lo hi : Qc) :
  (forall c, In c cands -> 0 < snd c) ->
  (forall c, In c cands -> lo <= fst c /\ fst c <= hi) ->
  lo * np_sum (map snd cands)
  <= np_sum (map (fun vw => fst vw * snd vw) cands)
  /\ np_sum (map (fun vw => fst vw * snd vw) cands)
     <= hi * np_sum (map snd cands).
Proof.
  induction cands as [|c cands IH]; intros Hw Hv; cbn [map np_sum fold_right].
  - split; qc_arith.
  - fold (np_sum (map (fun vw => fst vw * snd vw) cands)).
    fold (np_sum (map snd cands)).
    destruct IH as [IH1 IH2];
      [intros c' Hc'; apply Hw; right; exact Hc'
      |intros c' Hc'; apply Hv; right; exact Hc'|].
    pose proof (Hw c (or_introl eq_refl)) as Hc.
    destruct (Hv c (or_introl eq_refl)) as [Hlo Hhi].
    assert (H1 : 0 <= (fst c - lo) * snd c).
    { unfold Qcle, Qclt, Qcmult, Qcminus, Qcplus, Qcopp, Q2Qc in *.
      cbn [this] in *. rewrite !Qred_correct in *.
      apply Qmult_le_0_compat; Lqa.lra. }
    assert (H2 : 0 <= (hi - fst c) * snd c).
    { unfold Qcle, Qclt, Qcmult, Qcminus, Qcplus, Qcopp, Q2Qc in *.
      cbn [this] in *. rewrite !Qred_correct in *.
      apply Qmult_le_0_compat; Lqa.lra. }
    split; qc_arith.
Qed.

Lemma positive_weights_sum (cands : list candidate) :
  cands <> [] -> (forall c, In c cands -> 0 < snd c) ->
  0 < np_sum (map snd cands).
Proof.
  intros Hne Hw. destruct cands as [|c cands]; [congruence|]. clear Hne.
  revert c Hw. induction cands as [|c' cands IH]; intros c Hw;
    cbn [map np_sum fold_right].
  - pose proof (Hw c (or_introl eq_refl)). qc_arith.
  - fold (np_sum (map snd cands)).
    pose proof (Hw c (or_introl eq_refl)) as Hc.
    assert (H : 0 < np_sum (map snd (c' :: cands))).
    { apply IH. intros c0 Hc0. apply Hw. right. exact Hc0. }
    cbn [map np_sum fold_right] in H. fold (np_sum (map snd cands)) in H.
    qc_arith.
Qed.

Lemma Qc_div_between (s w lo hi : Qc) :
  0 < w -> lo * w <= s -> s <= hi * w -> lo <= s / w /\ s / w <= hi.
Proof.
  intros Hw H1 H2. unfold Qcle, Qclt, Qcdiv, Qcmult, Qcinv, Q2Qc in *.
  cbn [this] in *. rewrite !Qred_correct in *.
  change (Qred 0) with 0%Q in Hw. split.
  - apply Qle_shift_div_l; assumption.
  - apply Qle_shift_div_r; assumption.
Qed.



(** ** The confidence of a reported tempo *)

Lemma strategy_weight_if (b : bool) (v w : Qc) :
  In w strategy_weights ->
  Forall strategy_weight (if b then [(v, w)] else []).
Proof.
  intro H. destruct b; [constructor; [exact H | constructor] | constructor].
Qed.

Lemma tempo_candidates_weights
  (W A : Type) (librosa : Librosa W) (es : Essentia W A) (y : W) (sr : Z) :
  Forall strategy_weight (tempo_candidates librosa es y sr).
Proof.
  unfold tempo_candidates.
  apply Forall_app. split.
  { unfold beat_tracking. generalize hop_lengths.
    induction l as [|h l IH]; cbn [flat_map]; [constructor|].
    apply Forall_app. split; [|exact IH].
    destruct (librosa_beat_track librosa y sr h); cbn [bind try_pass];
      [|constructor].
    apply strategy_weight_if. left. reflexivity. }
  apply Forall_app. split.
  { unfold onset_based.
    destruct (librosa_onset_detect librosa y sr); cbn [bind try_pass];
      [|constructor].
    rewrite onset_candidates_spec. apply strategy_weight_if.
    right. left. reflexivity. }
  apply Forall_app. split.
  { unfold essentia_bpm.
    destruct (es_MonoLoader es "temp"); cbn [bind try_pass]; [|constructor].
    destruct (es_BpmHistogramDescriptors es a) as [[|b0 d]|];
      cbn [bind try_pass getitem0]; try constructor.
    apply strategy_weight_if. right. right. left. reflexivity. }
  apply Forall_app. split.
  { unfold autocorrelation.
    destruct (librosa_autocorr_peaks librosa y sr) as [[|p peaks]|];
      cbn [bind try_pass autocorr_candidates]; try constructor.
    destruct (0 <? p)%Z; [|constructor].
    apply strategy_weight_if. right. right. right. left. reflexivity. }
  unfold dynamic_tracking.
  destruct (librosa_dynamic_tempo librosa y sr) as [[|u0 u]|];
    cbn [bind try_pass getitem0]; try constructor.
  apply strategy_weight_if. right. right. right. right. left. reflexivity.
Qed.

Lemma strategy_weight_range (c : candidate) :
  strategy_weight c -> Q2Qc 0.6 <= snd c /\ snd c <= Q2Qc 0.8.
Proof.
  unfold strategy_weight, strategy_weights.
  intros [<-|[<-|[<-|[<-|[<-|[]]]]]]; split; vm_compute; discriminate.
Qed.

Lemma np_sum_between (l : list Qc) (lo hi : Qc) :
  (forall w, In w l -> lo <= w /\ w <= hi) ->
  lo * Qc_of_nat (length l) <= np_sum l
  /\ np_sum l <= hi * Qc_of_nat (length l).
Proof.
  induction l as [|w l IH]; intro H; cbn [length np_sum fold_right].
  - replace (Qc_of_nat 0) with 0 by qc_eval. split; qc_arith.
  - fold (np_sum l). rewrite Qc_of_nat_S.
    destruct (H w (or_introl eq_refl)) as [H1 H2].
    destruct IH as [IH1 IH2]; [intros w' Hw'; apply H; right; exact Hw'|].
    split; qc_arith.
Qed.

Lemma np_mean_between (l : list Qc) (lo hi : Qc) :
  l <> [] ->
  (forall w, In w l -> lo <= w /\ w <= hi) ->
  lo <= np_mean l /\ np_mean l <= hi.
Proof.
  intros Hne H. destruct (np_sum_between l lo hi H) as [H1 H2].
  unfold np_mean. apply Qc_div_between; try assumption.
  apply Qc_of_nat_pos. destruct l; [congruence | cbn; lia].
Qed.

Lemma rint_within (z : Qc) (a b : Z) :
  Qc_of_Z a <= z -> z <= Qc_of_Z b -> (a <= rint z <= b)%Z.
Proof.
  intros Ha Hb.
  assert (Hfa : (a <= Qfloor z)%Z).
  { rewrite <- (Qfloor_Z a). apply Qfloor_resp_le.
    unfold Qcle in Ha. rewrite Qc_of_Z_this in Ha. exact Ha. }
  assert (Hfb : (Qfloor z <= b)%Z).
  { rewrite <- (Qfloor_Z b). apply Qfloor_resp_le.
    unfold Qcle in Hb. rewrite Qc_of_Z_this in Hb. exact Hb. }
  unfold rint.
  destruct (z - Qc_of_Z (Qfloor z) <? Q2Qc 0.5) eqn:E; [lia|].
  assert (Hlt : (Qfloor z < b)%Z).
  { destruct (Z.eq_dec (Qfloor z) b) as [Heq|]; [|lia].
    exfalso. apply Qcltb_nlt in E. rewrite Heq in E.
    unfold Qcle in Hb, E. unfold Qcminus, Qcplus, Qcopp, Q2Qc in E.
    cbn [this] in E. rewrite !Qred_correct in E.
    Lqa.lra. }
  destruct (Q2Qc 0.5 <? z - Qc_of_Z (Qfloor z)); [lia|].
  destruct (Z.even (Qfloor z)); lia.
Qed.

Lemma py_round2_between (x : Qc) :
  Q2Qc 0.6 <= x -> x <= Q2Qc 0.8 ->
  Q2Qc 0.6 <= py_round x 2 /\ py_round x 2 <= Q2Qc 0.8.
Proof.
  intros H0 H1. unfold py_round.
  change (Qc_of_Z (10 ^ Z.of_nat 2)) with (Q2Qc 100).
  destruct (rint_within (x * Q2Qc 100) 60 80) as [Hlo Hhi].
  - change (Qc_of_Z 60) with (Q2Qc 60). qc_arith.
  - change (Qc_of_Z 80) with (Q2Qc 80). qc_arith.
  - set (k := rint (x * Q2Qc 100)) in *.
    assert (Hk0 : (60 <= inject_Z k)%Q).
    { change 60%Q with (inject_Z 60). rewrite <- Zle_Qle. exact Hlo. }
    assert (Hk1 : (inject_Z k <= 80)%Q).
    { change 80%Q with (inject_Z 80). rewrite <- Zle_Qle. exact Hhi. }
    unfold Qc_of_Z. split; qc_arith.
Qed.

Lemma np_average_positive (cands : list candidate) :
  cands <> [] -> (forall c, In c cands -> 0 < snd c) ->
  exists final_bpm, np_average (map fst cands) (map snd cands) = Ok final_bpm.
Proof.
  intros Hne Hw. pose proof (positive_weights_sum cands Hne Hw) as Hpos.
  unfold np_average.
  destruct (Qc_eq_bool (np_sum (map snd cands)) 0) eqn:E.
  - apply Qc_eq_bool_true in E. rewrite E in Hpos.
    exfalso. exact (Qclt_not_eq _ _ Hpos eq_refl).
  - eexists. reflexivity.
Qed.

(** X5. [advanced_bpm_detection] returns what the aggregation stage
    computes, without raising.  It reports no tempo exactly when outlier
    removal leaves no candidate, then with confidence 0; a reported tempo
    has a confidence between 0.6 and 0.8, the range of the five strategy
    confidences. *)
Theorem reported_tempo_confidence :
  forall (W A : Type) (librosa : Librosa W) (es : Essentia W A) y sr,
    let cands := tempo_candidates librosa es y sr in
    let r := advanced_bpm_detection librosa es y sr in
    tempo_aggregate cands = Ok r
    /\ (fst r = None <-> remove_outliers cands = [])
    /\ (fst r = None -> snd r = 0)
    /\ (fst r <> None -> Q2Qc 0.6 <= snd r /\ snd r <= Q2Qc 0.8).
Proof.
  intros W A librosa es y sr cands r. subst r.
  unfold advanced_bpm_detection. fold cands.
  rewrite tempo_aggregate_unfold.
  pose proof (tempo_candidates_weights W A librosa es y sr) as Hw.
  fold cands in Hw.
  assert (Hk : Forall strategy_weight (remove_outliers cands)).
  { unfold remove_outliers. destruct (2 <? length cands)%nat; [|exact Hw].
    rewrite Forall_forall in *. intros c Hc. apply filter_In in Hc.
    apply Hw. tauto. }
  destruct (remove_outliers cands) as [|c kept] eqn:E.
  - cbn [weighted_result length Nat.eqb except_none fst snd].
    split; [reflexivity|]. split; [tauto|]. split; [reflexivity|congruence].
  - rewrite Forall_forall in Hk.
    assert (Hrange : forall w, In w (map snd (c :: kept)) ->
                               Q2Qc 0.6 <= w /\ w <= Q2Qc 0.8).
    { intros w Hin. apply in_map_iff in Hin as (c' & <- & Hc').
      apply strategy_weight_range, Hk, Hc'. }
    destruct (np_average_positive (c :: kept)) as (avg & Havg).
    { discriminate. }
    { intros c' Hc'. destruct (strategy_weight_range c' (Hk c' Hc')) as [H _].
      qc_arith. }
    rewrite (weighted_result_nonempty (c :: kept) avg ltac:(discriminate) Havg).
    cbn [except_none fst snd].
    split; [reflexivity|]. split; [split; discriminate|].
    split; [discriminate|]. intros _.
    destruct (np_mean_between (map snd (c :: kept)) (Q2Qc 0.6) (Q2Qc 0.8))
      as [H0 H1]; [discriminate | exact Hrange |].
    apply py_round2_between; assumption.
Qed.

Lemma reported_tempo_confidence_witness :
  let r := advanced_bpm_detection
             (onset_only_librosa (uniform_train 0 (Q2Qc 0.46875) 8) NoBackendError)
             (failing_essentia NoBackendError) tt 22050%Z in
  Q2Qc 0.6 <= snd r /\ snd r <= Q2Qc 0.8.
Proof.
  intro r.
  apply (reported_tempo_confidence unit unit
           (onset_only_librosa (uniform_train 0 (Q2Qc 0.46875) 8) NoBackendError)
           (failing_essentia NoBackendError) tt 22050%Z).
  vm_compute. discriminate.
Defined.

(** ** Rounding *)

Lemma rint_near (z : Qc) :
  Qc_of_Z (rint z) - z <= Q2Qc 0.5 /\ z - Qc_of_Z (rint z) <= Q2Qc 0.5.
Proof.
  pose proof (Qfloor_le z) as Hle. pose proof (Qlt_floor z) as Hlt.
  rewrite inject_Z_plus in Hlt. change (inject_Z 1) with 1%Q in Hlt.
  unfold rint.
  destruct (z - Qc_of_Z (Qfloor z) <? Q2Qc 0.5) eqn:E1.
  - apply Qcltb_lt in E1. unfold Qc_of_Z in *. split; qc_arith.
  - apply Qcltb_nlt in E1.
    assert (Hup : Qc_of_Z (Qfloor z + 1) - z <= Q2Qc 0.5
                  /\ z - Qc_of_Z (Qfloor z + 1) <= Q2Qc 0.5).
    { unfold Qc_of_Z in *. rewrite inject_Z_plus.
      change (inject_Z 1) with 1%Q. split; qc_arith. }
    destruct (Q2Qc 0.5 <? z - Qc_of_Z (Qfloor z)) eqn:E2; [exact Hup|].
    apply Qcltb_nlt in E2.
    destruct (Z.even (Qfloor z)); [|exact Hup].
    unfold Qc_of_Z in *. split; qc_arith.
Qed.

Lemma py_round_near_1 (x : Qc) :
  py_round x 1 - x <= Q2Qc 0.05 /\ x - py_round x 1 <= Q2Qc 0.05.
Proof.
  unfold py_round. change (Qc_of_Z (10 ^ Z.of_nat 1)) with (Q2Qc 10).
  destruct (rint_near (x * Q2Qc 10)) as [H1 H2].
  set (k := rint (x * Q2Qc 10)) in *. unfold Qc_of_Z in *.
  split; qc_arith.
Qed.

Lemma py_round_near_2 (x : Qc) :
  py_round x 2 - x <= Q2Qc 0.005 /\ x - py_round x 2 <= Q2Qc 0.005.
Proof.
  unfold py_round. change (Qc_of_Z (10 ^ Z.of_nat 2)) with (Q2Qc 100).
  destruct (rint_near (x * Q2Qc 100)) as [H1 H2].
  set (k := rint (x * Q2Qc 100)) in *. unfold Qc_of_Z in *.
  split; qc_arith.
Qed.

(** X6. The reported tempo differs from the octave-corrected weighted
    average by at most 0.05, and the reported confidence from the mean of
    the weights by at most 0.005. *)
Theorem reported_values_are_close :
  forall (cands : list candidate) (b conf : Qc),
    weighted_result cands = Ok (Some b, conf) ->
    exists final_bpm,
      np_average (map fst cands) (map snd cands) = Ok final_bpm
      /\ b - octave_correction final_bpm <= Q2Qc 0.05
      /\ octave_correction final_bpm - b <= Q2Qc 0.05
      /\ conf - np_mean (map snd cands) <= Q2Qc 0.005
      /\ np_mean (map snd cands) - conf <= Q2Qc 0.005.
Proof.
  intros cands b conf. unfold weighted_result.
  destruct cands as [|c cands]; cbn [length Nat.eqb]; [discriminate|].
  destruct (np_average (map fst (c :: cands)) (map snd (c :: cands)))
    as [avg|e]; cbn [bind]; [|discriminate].
  intro H. injection H as <- <-. exists avg. split; [reflexivity|].
  destruct (py_round_near_1 (octave_correction avg)) as [H1 H2].
  destruct (py_round_near_2 (np_mean (map snd (c :: cands)))) as [H3 H4].
  repeat split; assumption.
Qed.

Lemma reported_values_are_close_witness :
  exists final_bpm,
    np_average (map fst (at_confidence 0.7 [100; 101; 101]%Q))
      (map snd (at_confidence 0.7 [100; 101; 101]%Q)) = Ok final_bpm
    /\ Q2Qc 100.7 - octave_correction final_bpm <= Q2Qc 0.05
    /\ octave_correction final_bpm - Q2Qc 100.7 <= Q2Qc 0.05
    /\ Q2Qc 0.7 - np_mean (map snd (at_confidence 0.7 [100; 101; 101]%Q))
       <= Q2Qc 0.005
    /\ np_mean (map snd (at_confidence 0.7 [100; 101; 101]%Q)) - Q2Qc 0.7
       <= Q2Qc 0.005.
Proof.
  apply (reported_values_are_close (at_confidence 0.7 [100; 101; 101]%Q)).
  vm_compute. apply f_equal.
  apply f_equal2; [apply f_equal|]; apply Qc_is_canon; reflexivity.
Defined.

(** ** Absent results carry no confidence *)

Lemma advanced_bpm_detection_none
  (W A : Type) (librosa : Librosa W) (es : Essentia W A) (y : W) (sr : Z) :
  fst (advanced_bpm_detection librosa es y sr) = None ->
  snd (advanced_bpm_detection librosa es y sr) = 0.
Proof.
  unfold advanced_bpm_detection, except_none.
  rewrite tempo_aggregate_unfold. unfold weighted_result.
  destruct (length (remove_outliers (tempo_candidates librosa es y sr)) =? 0)%nat;
    [reflexivity|].
  destruct (np_average _ _); cbn [bind fst snd]; [discriminate|reflexivity].
Qed.

Lemma advanced_bpm_detection_some
  (W A : Type) (librosa : Librosa W) (es : Essentia W A) (y : W) (sr : Z) :
  fst (advanced_bpm_detection librosa es y sr) <> None ->
  Q2Qc 0.6 <= snd (advanced_bpm_detection librosa es y sr)
  /\ snd (advanced_bpm_detection librosa es y sr) <= Q2Qc 0.8.
Proof.
  unfold advanced_bpm_detection, except_none.
  rewrite tempo_aggregate_unfold.
  pose proof (tempo_candidates_weights W A librosa es y sr) as Hw.
  set (cands := tempo_candidates librosa es y sr) in *.
  assert (Hk : Forall strategy_weight (remove_outliers cands)).
  { unfold remove_outliers. destruct (2 <? length cands)%nat; [|exact Hw].
    rewrite Forall_forall in *. intros c Hc. apply filter_In in Hc.
    apply Hw. tauto. }
  unfold weighted_result.
  destruct (remove_outliers cands) as [|c kept];
    cbn [length Nat.eqb fst]; [congruence|].
  destruct (np_average _ _); cbn [bind fst snd]; [|congruence].
  intros _. rewrite Forall_forall in Hk.
  destruct (np_mean_between (map snd (c :: kept)) (Q2Qc 0.6) (Q2Qc 0.8))
    as [H0 H1]; [discriminate | |apply py_round2_between; assumption].
  intros w Hin. apply in_map_iff in Hin as (c' & <- & Hc').
  apply strategy_weight_range, Hk, Hc'.
Qed.

(** X7. In the dict of [analyze_audio_features] the tempo confidence is 0
    whenever the tempo is absent or zero, and lies between 0.6 and 0.8
    whenever a non-zero tempo is reported; this holds on the failure branch
    as well. *)
Theorem tempo_confidence_in_the_dict :
  forall (W A : Type) (librosa : Librosa W) (es : Essentia W A)
         (path : string),
    let r := analyze_audio_features librosa es path in
    (bpm r = None \/ bpm r = Some 0 -> bpm_confidence r = 0)
    /\ (forall b, bpm r = Some b -> b <> 0 ->
                  Q2Qc 0.6 <= bpm_confidence r /\ bpm_confidence r <= Q2Qc 0.8).
Proof.
  intros W A librosa es path r. subst r. unfold analyze_audio_features.
  destruct (analyze_body librosa es path) as [r|e] eqn:E.
  - destruct (analyze_body_confidences _ _ _ _ _ _ E)
      as (y & sr & _ & Hb & Hbc & _ & _).
    rewrite Hbc. split.
    + intros [H|H]; rewrite H; reflexivity.
    + intros b Hsome Hne. rewrite Hsome. cbn [truthy].
      destruct (Qc_eq_bool b 0) eqn:Eb.
      * apply Qc_eq_bool_true in Eb. contradiction.
      * cbn [negb]. apply advanced_bpm_detection_some.
        rewrite <- Hb, Hsome. discriminate.
  - cbn [failure_result bpm bpm_confidence]. split; [reflexivity|].
    intros b H. discriminate H.
Qed.

Lemma tempo_confidence_in_the_dict_witness :
  bpm_confidence
    (analyze_audio_features (failing_librosa NoBackendError)
       (failing_essentia NoBackendError) "track.mp3") = 0
  /\ (let r := analyze_audio_features
                 (metronome_librosa (Q2Qc 128) NoBackendError)
                 (failing_essentia NoBackendError) "track.mp3" in
      Q2Qc 0.6 <= bpm_confidence r /\ bpm_confidence r <= Q2Qc 0.8).
Proof.
  split.
  - apply (tempo_confidence_in_the_dict unit unit
             (failing_librosa NoBackendError)
             (failing_essentia NoBackendError) "track.mp3").
    left. reflexivity.
  - apply (proj2 (tempo_confidence_in_the_dict unit unit
                    (metronome_librosa (Q2Qc 128) NoBackendError)
                    (failing_essentia NoBackendError) "track.mp3")
                 (Q2Qc 128)).
    + vm_compute. apply f_equal. apply Qc_is_canon. reflexivity.
    + discriminate.
Defined.

(** ** The key "Unknown" *)

Lemma has_space_app (a b : string) :
  has_space (a ++ " " ++ b) = true.
Proof.
  induction a as [|c a IH]; simpl.
  - reflexivity.
  - simpl in IH. rewrite IH. apply orb_true_r.
Qed.

Lemma for_each_In {A B : Type} (body : A -> result (list B)) (xs : list A)
  (out : list B) (c : B) :
  for_each body xs = Ok out -> In c out ->
  exists x here, In x xs /\ body x = Ok here /\ In c here.
Proof.
  revert out. induction xs as [|x xs IH]; intros out; cbn [for_each].
  - intro H. injection H as <-. intros [].
  - destruct (body x) as [here|e] eqn:Eb; cbn [bind]; [|discriminate].
    destruct (for_each body xs) as [after|e]; cbn [bind]; [|discriminate].
    intro H. injection H as <-. intro Hin. apply in_app_or in Hin as [Hin|Hin].
    + exists x, here. repeat split; [left; reflexivity | exact Eb | exact Hin].
    + destruct (IH after eq_refl Hin) as (x' & here' & Hx & Hb & Hc).
      exists x', here'. repeat split; [right; exact Hx | exact Hb | exact Hc].
Qed.

Lemma scored_label (name : string) (corr : option R) (w : R) (c : string * R) :
  In c (scored name corr w) -> fst c = name.
Proof.
  destruct corr; cbn [scored]; [intros [<-|[]]; reflexivity | intros []].
Qed.

Lemma correlate_key_labels (cm : fvec) (w : R) (i : nat)
  (out : list (string * R)) (c : string * R) :
  correlate_key cm w i = Ok out -> In c out -> has_space (fst c) = true.
Proof.
  unfold correlate_key.
  destruct (np_corrcoef cm (np_roll major_profile i)) as [mc|e];
    cbn [bind]; [|discriminate].
  destruct (np_corrcoef cm (np_roll minor_profile i)) as [nc|e];
    cbn [bind]; [|discriminate].
  intro H. injection H as <-. intro Hin.
  apply in_app_or in Hin as [Hin|Hin]; apply scored_label in Hin;
    rewrite Hin; apply has_space_app.
Qed.

Lemma correlate_chroma_labels (chroma : chromagram) (w : R)
  (out : list (string * R)) (c : string * R) :
  correlate_chroma chroma w = Ok out -> In c out -> has_space (fst c) = true.
Proof.
  unfold correlate_chroma. intros H Hin.
  destruct (for_each_In _ _ _ _ H Hin) as (i & here & _ & Hb & Hc).
  exact (correlate_key_labels _ _ _ _ _ Hb Hc).
Qed.

Lemma key_candidates_labels
  (W A : Type) (librosa : Librosa W) (es : Essentia W A) (y : W) (sr : Z)
  (method1 : list (string * R)) (c : string * R) :
  chroma_based librosa y sr = Ok method1 ->
  In c (method1 ++ essentia_key es y ++ harmonic_based librosa y sr) ->
  has_space (fst c) = true.
Proof.
  intros H1 Hin. apply in_app_or in Hin as [Hin|Hin].
  - unfold chroma_based in H1.
    destruct (librosa_chroma_stft librosa y sr); cbn [bind] in H1;
      [|discriminate].
    destruct (librosa_chroma_cqt librosa y sr); cbn [bind] in H1;
      [|discriminate].
    destruct (librosa_chroma_cens librosa y sr); cbn [bind] in H1;
      [|discriminate].
    destruct (for_each_In _ _ _ _ H1 Hin) as (cw & here & _ & Hb & Hc).
    exact (correlate_chroma_labels _ _ _ _ Hb Hc).
  - apply in_app_or in Hin as [Hin|Hin].
    + unfold essentia_key in Hin.
      destruct (es_KeyExtractor es y) as [[[key scale] strength]|e];
        cbn [bind try_pass] in Hin; [|destruct Hin].
      destruct (Rltb 0.1 strength); [|destruct Hin].
      destruct Hin as [<-|[]]. apply has_space_app.
    + unfold harmonic_based in Hin.
      destruct (librosa_hpss librosa y) as [harmonic|e];
        cbn [bind try_pass] in Hin; [|destruct Hin].
      destruct (librosa_chroma_cqt librosa harmonic sr) as [chroma|e];
        cbn [bind] in Hin; [|destruct Hin].
      destruct (correlate_chroma chroma 0.6) as [out|e] eqn:E;
        cbn [try_pass] in Hin; [|destruct Hin].
      exact (correlate_chroma_labels _ _ _ _ E Hin).
Qed.

(** X8. [advanced_key_detection] returns the key "Unknown" exactly when no
    key candidate was produced (the chroma method raised, or the three
    methods together appended nothing), and "Unknown" always comes with
    confidence 0. *)
Theorem unknown_key_means_no_candidate :
  forall (W A : Type) (librosa : Librosa W) (es : Essentia W A) y sr,
    let r := advanced_key_detection librosa es y sr in
    (fst r = "Unknown"%string <->
     forall method1,
       chroma_based librosa y sr = Ok method1 ->
       method1 ++ essentia_key es y ++ harmonic_based librosa y sr = [])
    /\ (fst r = "Unknown"%string -> snd r = 0%R).
Proof.
  intros W A librosa es y sr r. subst r. unfold advanced_key_detection.
  destruct (chroma_based librosa y sr) as [method1|e] eqn:E1;
    cbn [bind except_unknown fst snd].
  - destruct (method1 ++ essentia_key es y ++ harmonic_based librosa y sr)
      as [|c ks'] eqn:Eks.
    + cbn [key_aggregate fst snd]. split; [|reflexivity].
      split; [|reflexivity]. intros _ m H. injection H as <-. exact Eks.
    + assert (Hne : c :: ks' <> []) by discriminate.
      assert (Hsel : fst (key_aggregate (c :: ks')) <> "Unknown"%string).
      { intro Hu. pose proof (selected_label_In (c :: ks') Hne) as Hin.
        apply in_map_iff in Hin as (c' & Hf & Hc').
        rewrite <- Eks in Hc'.
        pose proof (key_candidates_labels W A librosa es y sr method1 c' E1 Hc')
          as Hs.
        rewrite Hf, Hu in Hs. discriminate Hs. }
      split; [|contradiction]. split; [contradiction|].
      intro H. specialize (H method1 eq_refl). rewrite Eks in H.
      discriminate H.
  - split; [|reflexivity]. split; [|reflexivity].
    intros _ m H. discriminate H.
Qed.

Lemma unknown_key_means_no_candidate_witness :
  snd (advanced_key_detection (failing_librosa NoBackendError)
         (failing_essentia NoBackendError) tt 44100%Z) = 0%R.
Proof.
  apply (unknown_key_means_no_candidate unit unit
           (failing_librosa NoBackendError) (failing_essentia NoBackendError)
           tt 44100%Z).
  reflexivity.
Defined.

(** ** Reported tempo and the octave bands *)

Lemma rint_lower (z : Qc) (a : Z) : Qc_of_Z a <= z -> (a <= rint z)%Z.
Proof.
  intro Ha. apply (rint_within z a (Qfloor z + 1)); [exact Ha|].
  pose proof (Qlt_floor z) as Hlt.
  unfold Qcle. rewrite Qc_of_Z_this. apply Qlt_le_weak, Hlt.
Qed.

Lemma rint_upper (z : Qc) (b : Z) : z <= Qc_of_Z b -> (rint z <= b)%Z.
Proof.
  intro Hb. apply (rint_within z (Qfloor z) b); [|exact Hb].
  unfold Qcle. rewrite Qc_of_Z_this. apply Qfloor_le.
Qed.

Lemma py_round1_lower (x : Qc) (n : Z) :
  Qc_of_Z n <= x -> Qc_of_Z n <= py_round x 1.
Proof.
  intro H. unfold py_round. change (Qc_of_Z (10 ^ Z.of_nat 1)) with (Q2Qc 10).
  assert (Hk : (n * 10 <= rint (x * Q2Qc 10))%Z).
  { apply rint_lower. unfold Qc_of_Z in *. rewrite inject_Z_mult.
    change (inject_Z 10) with 10%Q. qc_arith. }
  set (k := rint (x * Q2Qc 10)) in *.
  rewrite Zle_Qle, inject_Z_mult in Hk. change (inject_Z 10) with 10%Q in Hk.
  unfold Qc_of_Z in *. qc_arith.
Qed.

Lemma py_round1_upper (x : Qc) (n : Z) :
  x <= Qc_of_Z n -> py_round x 1 <= Qc_of_Z n.
Proof.
  intro H. unfold py_round. change (Qc_of_Z (10 ^ Z.of_nat 1)) with (Q2Qc 10).
  assert (Hk : (rint (x * Q2Qc 10) <= n * 10)%Z).
  { apply rint_upper. unfold Qc_of_Z in *. rewrite inject_Z_mult.
    change (inject_Z 10) with 10%Q. qc_arith. }
  set (k := rint (x * Q2Qc 10)) in *.
  rewrite Zle_Qle, inject_Z_mult in Hk. change (inject_Z 10) with 10%Q in Hk.
  unfold Qc_of_Z in *. qc_arith.
Qed.

Lemma rounded_octave_gap (b : Qc) :
  ~ in_octave_gap (py_round (octave_correction b) 1).
Proof.
  pose proof (py_round1_lower (octave_correction b) 80) as L80.
  pose proof (py_round1_upper (octave_correction b) 60) as U60.
  pose proof (py_round1_lower (octave_correction b) 280) as L280.
  pose proof (py_round1_upper (octave_correction b) 160) as U160.
  change (Qc_of_Z 80) with (Q2Qc 80) in *.
  change (Qc_of_Z 60) with (Q2Qc 60) in *.
  change (Qc_of_Z 280) with (Q2Qc 280) in *.
  change (Qc_of_Z 160) with (Q2Qc 160) in *.
  set (r := py_round (octave_correction b) 1) in *.
  assert (Hoc : octave_correction b <= Q2Qc 60
                \/ (Q2Qc 80 <= octave_correction b
                    /\ octave_correction b <= Q2Qc 160)
                \/ Q2Qc 280 <= octave_correction b).
  { destruct (octave_cases b)
      as [[H1 E]|[(H1 & H2 & E)|[(H1 & H2 & E)|[(H1 & H2 & E)|[H1 E]]]]];
      rewrite E.
    - left. qc_arith.
    - right. left. split; qc_arith.
    - right. left. split; assumption.
    - right. left. split; qc_arith.
    - right. right. qc_arith. }
  intros [[Ha Hb]|[Ha Hb]].
  - destruct Hoc as [H|[[H _]|H]].
    + specialize (U60 H). qc_arith.
    + specialize (L80 H). qc_arith.
    + specialize (L280 H). qc_arith.
  - destruct Hoc as [H|[[_ H]|H]].
    + specialize (U60 H). qc_arith.
    + specialize (U160 H). qc_arith.
    + specialize (L280 H). qc_arith.
Qed.

Lemma tempo_aggregate_gap (cands : list candidate) (b c : Qc) :
  tempo_aggregate cands = Ok (Some b, c) -> ~ in_octave_gap b.
Proof.
  rewrite tempo_aggregate_unfold. unfold weighted_result.
  destruct (length (remove_outliers cands) =? 0)%nat; [discriminate|].
  destruct (np_average _ _) as [avg|e]; cbn [bind]; [|discriminate].
  intro H. injection H as <- _. apply rounded_octave_gap.
Qed.

(** X10. A tempo reported by [analyze_audio_features] is never strictly
    between 60 and 80, nor strictly between 160 and 280: the octave
    correction empties these bands and rounding to one decimal cannot
    re-enter them. *)
Theorem reported_tempo_avoids_the_octave_gaps :
  forall (W A : Type) (librosa : Librosa W) (es : Essentia W A)
         (path : string) (b : Qc),
    bpm (analyze_audio_features librosa es path) = Some b ->
    ~ in_octave_gap b.
Proof.
  intros W A librosa es path b. unfold analyze_audio_features.
  destruct (analyze_body librosa es path) as [r|e] eqn:E.
  - destruct (analyze_body_confidences _ _ _ _ _ _ E)
      as (y & sr & _ & Hb & _). rewrite Hb.
    unfold advanced_bpm_detection, except_none.
    destruct (tempo_aggregate (tempo_candidates librosa es y sr))
      as [[ob c]|e] eqn:Et; cbn [fst]; [|discriminate].
    intro H. subst ob. exact (tempo_aggregate_gap _ _ _ Et).
  - cbn [failure_result bpm]. discriminate.
Qed.

Lemma reported_tempo_avoids_the_octave_gaps_witness :
  ~ in_octave_gap (Q2Qc 128).
Proof.
  apply (reported_tempo_avoids_the_octave_gaps unit unit
           (metronome_librosa (Q2Qc 128) NoBackendError)
           (failing_essentia NoBackendError) "track.mp3" (Q2Qc 128)).
  vm_compute. apply f_equal. apply Qc_is_canon. reflexivity.
Defined.

(** ** Key colours *)

Lemma key_colors_keys : map fst key_colors = key_labels.
Proof. vm_compute. reflexivity. Qed.

Lemma key_colors_NoDup : NoDup (map snd key_colors).
Proof. apply nodupb_NoDup. vm_compute. reflexivity. Qed.

Lemma key_colors_not_gray (k c : string) :
  In (k, c) key_colors -> c <> default_gray.
Proof.
  intros Hin E. subst c.
  assert (H : In default_gray (map snd key_colors)).
  { apply in_map_iff. exists (k, default_gray). split; [reflexivity|exact Hin]. }
  apply existsb_eqb_In in H. vm_compute in H. discriminate H.
Qed.

Lemma table_values_injective (d : list (string * string))
  (k1 k2 c : string) :
  NoDup (map snd d) -> In (k1, c) d -> In (k2, c) d -> k1 = k2.
Proof.
  induction d as [|[k0 c0] d IH]; intros Hnd H1 H2; [destruct H1|].
  cbn [map snd] in Hnd. apply NoDup_cons_iff in Hnd as [Hn Hnd].
  assert (Hc : forall k, In (k, c) d -> In c (map snd d)).
  { intros k Hk. apply in_map_iff. exists (k, c). split; [reflexivity|exact Hk]. }
  destruct H1 as [E1|H1], H2 as [E2|H2].
  - congruence.
  - injection E1 as _ ->. exfalso. apply Hn, (Hc k2), H2.
  - injection E2 as _ ->. exfalso. apply Hn, (Hc k1), H1.
  - exact (IH Hnd H1 H2).
Qed.

Lemma get_key_color_table (k : string) :
  In k key_labels ->
  exists c, dict_get key_colors k = Some c /\ In (k, c) key_colors.
Proof.
  intro Hin. rewrite <- key_colors_keys in Hin.
  apply in_map_iff in Hin as ([k' c] & Hk & Hin). cbn [fst] in Hk. subst k'.
  exists c. split; [|exact Hin].
  apply In_dict_get; [|exact Hin].
  rewrite key_colors_keys. apply key_labels_NoDup.
Qed.

Lemma get_key_color_gray (k : string) :
  get_key_color k = default_gray <-> ~ In k key_labels.
Proof.
  unfold get_key_color. split.
  - intros H Hin. destruct (get_key_color_table k Hin) as (c & Hg & Hc).
    rewrite Hg in H. exact (key_colors_not_gray k c Hc H).
  - intro Hn. destruct (dict_get key_colors k) as [c|] eqn:Hg; [|reflexivity].
    exfalso. apply Hn. rewrite <- key_colors_keys.
    apply in_map_iff. exists (k, c). split; [reflexivity|].
    apply dict_get_In, Hg.
Qed.

(** X9. [get_key_color] returns the default gray exactly for the labels
    outside the 24 keys that the chroma methods can name, and on those 24
    keys the colour determines the key. *)
Theorem key_colour_identifies_the_key :
  forall k1 k2 : string,
    (get_key_color k1 = default_gray <-> ~ In k1 key_labels)
    /\ (In k1 key_labels -> get_key_color k1 = get_key_color k2 -> k1 = k2).
Proof.
  intros k1 k2. split; [apply get_key_color_gray|].
  intros Hin Heq.
  destruct (get_key_color_table k1 Hin) as (c1 & Hg1 & Hc1).
  assert (Hin2 : In k2 key_labels).
  { destruct (ListDec.In_dec string_dec k2 key_labels) as [H|H]; [exact H|].
    exfalso. apply get_key_color_gray in H. rewrite H in Heq.
    apply get_key_color_gray in Heq. exact (Heq Hin). }
  destruct (get_key_color_table k2 Hin2) as (c2 & Hg2 & Hc2).
  unfold get_key_color in Heq. rewrite Hg1, Hg2 in Heq. subst c2.
  exact (table_values_injective key_colors k1 k2 c1 key_colors_NoDup Hc1 Hc2).
Qed.

Lemma key_colour_identifies_the_key_witness :
  In "A minor"%string key_labels
  /\ get_key_color "A minor" = get_key_color "A minor"
  /\ "A minor"%string = "A minor"%string.
Proof.
  assert (Hin : In "A minor"%string key_labels) by (vm_compute; tauto).
  split; [exact Hin|]. split; [reflexivity|].
  exact (proj2 (key_colour_identifies_the_key "A minor" "A minor") Hin
           eq_refl).
Defined.

(** ** The vocabulary of detected keys *)

Lemma key_name_labels (i : nat) :
  (i < 12)%nat ->
  In (key_name i "major") key_labels /\ In (key_name i "minor") key_labels.
Proof.
  intro Hi. unfold key_labels. split; apply in_map_iff.
  - exists (2 * i)%nat. split.
    + unfold slot_label. rewrite Nat.mul_comm, Nat.div_mul by discriminate.
      rewrite Nat.mul_comm, Nat.even_mul. reflexivity.
    + apply in_seq. lia.
  - exists (2 * i + 1)%nat. split.
    + unfold slot_label.
      replace ((2 * i + 1) / 2)%nat with i.
      * rewrite Nat.add_comm, Nat.even_add_mul_2. reflexivity.
      * symmetry. rewrite Nat.add_comm, Nat.mul_comm.
        rewrite Nat.div_add by discriminate. reflexivity.
    + apply in_seq. lia.
Qed.

Lemma correlate_chroma_vocabulary (chroma : chromagram) (w : R)
  (out : list (string * R)) (c : string * R) :
  correlate_chroma chroma w = Ok out -> In c out -> In (fst c) key_labels.
Proof.
  unfold correlate_chroma. intros H Hin.
  destruct (for_each_In _ _ _ _ H Hin) as (i & here & Hi & Hb & Hc).
  apply in_seq in Hi. destruct (key_name_labels i) as [HM Hm]; [lia|].
  unfold correlate_key in Hb.
  destruct (np_corrcoef _ (np_roll major_profile i)) as [mc|e];
    cbn [bind] in Hb; [|discriminate].
  destruct (np_corrcoef _ (np_roll minor_profile i)) as [nc|e];
    cbn [bind] in Hb; [|discriminate].
  injection Hb as <-.
  apply in_app_or in Hc as [Hc|Hc]; apply scored_label in Hc; rewrite Hc;
    assumption.
Qed.

Lemma key_candidates_vocabulary
  (W A : Type) (librosa : Librosa W) (es : Essentia W A) (y : W) (sr : Z)
  (method1 : list (string * R)) (c : string * R) :
  chroma_based librosa y sr = Ok method1 ->
  In c (method1 ++ essentia_key es y ++ harmonic_based librosa y sr) ->
  In (fst c) key_labels
  \/ exists key scale strength,
       es_KeyExtractor es y = Ok (key, scale, strength)
       /\ fst c = (key ++ " " ++ scale)%string.
Proof.
  intros H1 Hin. apply in_app_or in Hin as [Hin|Hin].
  - left. unfold chroma_based in H1.
    destruct (librosa_chroma_stft librosa y sr); cbn [bind] in H1;
      [|discriminate].
    destruct (librosa_chroma_cqt librosa y sr); cbn [bind] in H1;
      [|discriminate].
    destruct (librosa_chroma_cens librosa y sr); cbn [bind] in H1;
      [|discriminate].
    destruct (for_each_In _ _ _ _ H1 Hin) as (cw & here & _ & Hb & Hc).
    exact (correlate_chroma_vocabulary _ _ _ _ Hb Hc).
  - apply in_app_or in Hin as [Hin|Hin].
    + right. unfold essentia_key in Hin.
      destruct (es_KeyExtractor es y) as [[[key scale] strength]|e];
        cbn [bind try_pass] in Hin; [|destruct Hin].
      destruct (Rltb 0.1 strength); [|destruct Hin].
      destruct Hin as [<-|[]]. exists key, scale, strength.
      split; reflexivity.
    + left. unfold harmonic_based in Hin.
      destruct (librosa_hpss librosa y) as [harmonic|e];
        cbn [bind try_pass] in Hin; [|destruct Hin].
      destruct (librosa_chroma_cqt librosa harmonic sr) as [chroma|e];
        cbn [bind] in Hin; [|destruct Hin].
      destruct (correlate_chroma chroma 0.6) as [out|e] eqn:E;
        cbn [try_pass] in Hin; [|destruct Hin].
      exact (correlate_chroma_vocabulary _ _ _ _ E Hin).
Qed.

(** X11. The key returned by [advanced_key_detection] is "Unknown", one of
    the 24 labels pitch name + major/minor, or the label that Essentia's key
    extractor reported; so [get_key_color] falls back to gray only for
    "Unknown" or for a label that comes from Essentia. *)
Theorem detected_key_vocabulary :
  forall (W A : Type) (librosa : Librosa W) (es : Essentia W A) y sr,
    let k := fst (advanced_key_detection librosa es y sr) in
    let from_essentia :=
      exists key scale strength,
        es_KeyExtractor es y = Ok (key, scale, strength)
        /\ k = (key ++ " " ++ scale)%string in
    (k = "Unknown"%string \/ In k key_labels \/ from_essentia)
    /\ (get_key_color k = default_gray ->
        k = "Unknown"%string \/ from_essentia).
Proof.
  intros W A librosa es y sr k from_essentia.
  assert (H : k = "Unknown"%string \/ In k key_labels \/ from_essentia).
  { subst from_essentia k. unfold advanced_key_detection.
    destruct (chroma_based librosa y sr) as [method1|e] eqn:E1;
      cbn [bind except_unknown fst]; [|left; reflexivity].
    destruct (method1 ++ essentia_key es y ++ harmonic_based librosa y sr)
      as [|c ks'] eqn:Eks; [left; reflexivity|].
    right. assert (Hne : c :: ks' <> []) by discriminate.
    pose proof (selected_label_In (c :: ks') Hne) as Hin.
    apply in_map_iff in Hin as (c' & Hf & Hc'). rewrite <- Eks in Hc'.
    rewrite <- Hf.
    exact (key_candidates_vocabulary W A librosa es y sr method1 c' E1 Hc'). }
  split; [exact H|]. intro Hg.
  destruct H as [H|[H|H]]; [left; exact H | | right; exact H].
  exfalso. apply get_key_color_gray in Hg. exact (Hg H).
Qed.

Lemma detected_key_vocabulary_witness :
  let k := fst (advanced_key_detection (failing_librosa NoBackendError)
                  (failing_essentia NoBackendError) tt 44100%Z) in
  k = "Unknown"%string
  \/ exists key scale strength,
       es_KeyExtractor (failing_essentia NoBackendError) tt
       = Ok (key, scale, strength)
       /\ k = (key ++ " " ++ scale)%string.
Proof.
  apply (proj2 (detected_key_vocabulary unit unit
                  (failing_librosa NoBackendError)
                  (failing_essentia NoBackendError) tt 44100%Z)).
  reflexivity.
Defined.

(** ** The Gemini analysis *)

Section GeminiFacts.

Context {Client File Response : Type}.
Variable genai : GenAI Client File Response.

Lemma slice12_length (v out : PyValue) :
  slice12 genai v = Ok out ->
  match out with
  | PyList items => (length items <= 12)%nat
  | PyStr s => (String.length s <= 12)%nat
  | _ => False
  end.
Proof.
  destruct v; unfold slice12; try discriminate; intro H; injection H as <-.
  - clear. revert s. generalize 12%nat as n.
    induction n as [|n IH]; intros [|c s]; cbn [substring String.length];
      try lia.
    specialize (IH s). cbn [substring] in IH. lia.
  - exact (firstn_le_length 12 items).
Qed.

Lemma parse_reply_cleaned (response : Response) (d : py_dict) :
  parse_reply genai response = Ok d -> cleaned d.
Proof.
  unfold parse_reply.
  destruct (response_text genai response) as [[t|]|e]; cbn [bind];
    try discriminate.
  destruct (json_loads genai _) as [v|e]; cbn [bind]; [|discriminate].
  destruct (py_get v "tags" _) as [tags_all|e]; cbn [bind]; [|discriminate].
  destruct (slice12 genai tags_all) as [tags|e] eqn:Es; cbn [bind];
    [|discriminate].
  destruct (py_get v "description" _) as [description|e]; cbn [bind];
    [|discriminate].
  destruct (py_get v "transcription" _) as [transcription|e]; cbn [bind];
    [|discriminate].
  destruct (py_get v "genre_confidence" _) as [gc|e]; cbn [bind];
    [|discriminate].
  destruct (py_float genai gc) as [genre_confidence|e]; cbn [bind];
    [|discriminate].
  destruct (py_get v "has_vocals" _) as [has_vocals|e]; cbn [bind];
    [|discriminate].
  destruct (py_get v "energy_level" _) as [el|e]; cbn [bind];
    [|discriminate].
  destruct (py_int genai el) as [energy_level|e]; cbn [bind];
    [|discriminate].
  destruct (py_get v "instruments_detected" _) as [instruments|e];
    cbn [bind]; [|discriminate].
  intro H. injection H as <-.
  exists tags, description, transcription, genre_confidence,
    (py_bool has_vocals), energy_level, instruments.
  split; [reflexivity|]. exact (slice12_length _ _ Es).
Qed.

(** The four ways in which the function returns. *)
Lemma gemini_cases (audio_path : string) (d : py_dict) :
  analyze_audio_with_gemini genai audio_path = Ok d ->
  d = gemini_unavailable
  \/ (exists e, d = gemini_failed e)
  \/ (exists e, d = gemini_parse_failed e)
  \/ cleaned d.
Proof.
  unfold analyze_audio_with_gemini.
  destruct (negb (GENAI_AVAILABLE genai)
            || negb (key_set (GEMINI_API_KEY genai))).
  { intro H. injection H as <-. left. reflexivity. }
  destruct (genai_Client genai) as [client|e]; cbn [bind]; [|discriminate].
  intro H. injection H as <-. right.
  destruct (files_upload genai client audio_path) as [myfile|e];
    cbn [bind try_except_all]; [|left; exists e; reflexivity].
  destruct (generate_content genai client myfile) as [response|e];
    cbn [bind try_except_all]; [|left; exists e; reflexivity].
  destruct (parse_reply genai response) as [d|e] eqn:Ep;
    cbn [try_except try_except_all].
  - right. right. exact (parse_reply_cleaned response d Ep).
  - destruct (String.eqb (exc_class e) "JSONDecodeError");
      [|left; exists e; reflexivity].
    unfold parse_failed_handler.
    destruct (response_text genai response) as [t|e']; cbn [bind].
    + right. left. exists e. reflexivity.
    + left. exists e'. reflexivity.
Qed.

End GeminiFacts.

(** X12. [analyze_audio_with_gemini] raises exactly when the SDK is
    available, the API key is set and [genai.Client()] raises, and then with
    that exception: every other failure (upload, generation, parsing,
    conversion) is returned as a dict. *)
Theorem only_client_creation_escapes :
  forall (Client File Response : Type) (genai : GenAI Client File Response)
         (audio_path : string) (e : PyExc),
    analyze_audio_with_gemini genai audio_path = Raise e <->
    GENAI_AVAILABLE genai = true
    /\ key_set (GEMINI_API_KEY genai) = true
    /\ genai_Client genai = Raise e.
Proof.
  intros Client File Response genai audio_path e.
  unfold analyze_audio_with_gemini.
  destruct (GENAI_AVAILABLE genai), (key_set (GEMINI_API_KEY genai));
    cbn [negb orb]; try (split; [discriminate | intros (? & ? & ?); discriminate]).
  destruct (genai_Client genai) as [client|e']; cbn [bind].
  - split; [discriminate | intros (_ & _ & H); discriminate H].
  - split.
    + intro H. injection H as ->. repeat split.
    + intros (_ & _ & H). injection H as ->. reflexivity.
Qed.

Lemma only_client_creation_escapes_witness :
  analyze_audio_with_gemini
    (clientless_genai (mkExc "ValueError" "Missing key inputs argument!"))
    "track.mp3"
  = Raise (mkExc "ValueError" "Missing key inputs argument!").
Proof.
  apply (proj2 (only_client_creation_escapes unit unit unit
                  (clientless_genai
                     (mkExc "ValueError" "Missing key inputs argument!"))
                  "track.mp3"
                  (mkExc "ValueError" "Missing key inputs argument!"))).
  repeat split.
Defined.

(** X13. Every dict returned by [analyze_audio_with_gemini] has the seven
    result fields.  Either [success] is true and there is no [error] entry,
    or [success] is false and there is an [error] message, with empty tags,
    no vocals and no instruments. *)
Theorem gemini_success_flag :
  forall (Client File Response : Type) (genai : GenAI Client File Response)
         (audio_path : string) (d : py_dict),
    analyze_audio_with_gemini genai audio_path = Ok d ->
    (forall field, In field gemini_fields -> dict_contains d field = true)
    /\ ((dict_get d "success" = Some (PyBool true)
         /\ dict_get d "error" = None)
        \/ (dict_get d "success" = Some (PyBool false)
            /\ (exists message, dict_get d "error" = Some (PyStr message))
            /\ dict_get d "tags" = Some (PyList [])
            /\ dict_get d "has_vocals" = Some (PyBool false)
            /\ dict_get d "instruments_detected" = Some (PyList []))).
Proof.
  intros Client File Response genai audio_path d H.
  assert (Hf : forall d' : py_dict,
             map fst d' = "success"%string :: gemini_fields
             \/ map fst d' = "success"%string :: "error"%string :: gemini_fields ->
             forall field, In field gemini_fields ->
                           dict_contains d' field = true).
  { intros d' Hk field Hin. unfold dict_contains.
    destruct (dict_get d' field) eqn:E; [reflexivity|]. exfalso.
    assert (Hn : ~ In field (map fst d')).
    { intro Hi. apply in_map_iff in Hi as ([k v] & Hk' & Hi).
      cbn [fst] in Hk'. subst k. clear Hk Hin.
      induction d' as [|[k0 v0] d' IH]; [destruct Hi|].
      cbn [dict_get] in E. destruct (String.eqb k0 field) eqn:Ek;
        [discriminate|].
      destruct Hi as [Hi|Hi]; [|exact (IH E Hi)].
      injection Hi as -> _. rewrite String.eqb_refl in Ek. discriminate. }
    apply Hn. destruct Hk as [-> | ->]; [right | right; right]; exact Hin. }
  destruct (gemini_cases genai audio_path d H)
    as [-> | [[e ->] | [[e ->] | Hc]]].
  - split; [apply Hf; right; reflexivity|]. right.
    repeat split; try reflexivity. eexists. reflexivity.
  - split; [apply Hf; right; reflexivity|]. right.
    repeat split; try reflexivity. eexists. reflexivity.
  - split; [apply Hf; right; reflexivity|]. right.
    repeat split; try reflexivity. eexists. reflexivity.
  - destruct Hc as (t & de & tr & gc & hv & el & ins & -> & _).
    split; [apply Hf; left; reflexivity|]. left. split; reflexivity.
Qed.

Lemma gemini_success_flag_witness :
  dict_contains gemini_unavailable "tags" = true.
Proof.
  apply (gemini_success_flag unit unit unit absent_genai "track.mp3"
           gemini_unavailable).
  - reflexivity.
  - vm_compute. tauto.
Defined.

(** X14. Whenever [analyze_audio_with_gemini] returns a list of tags, it has
    at most 12 entries. *)
Theorem at_most_twelve_tags :
  forall (Client File Response : Type) (genai : GenAI Client File Response)
         (audio_path : string) (d : py_dict) (tags : list PyValue),
    analyze_audio_with_gemini genai audio_path = Ok d ->
    dict_get d "tags" = Some (PyList tags) ->
    (length tags <= 12)%nat.
Proof.
  intros Client File Response genai audio_path d tags H Ht.
  destruct (gemini_cases genai audio_path d H)
    as [-> | [[e ->] | [[e ->] | Hc]]];
    try (injection Ht as <-; cbn [length]; lia).
  destruct Hc as (t & de & tr & gc & hv & el & ins & -> & Hlen).
  cbn in Ht. injection Ht as ->. exact Hlen.
Qed.

Lemma at_most_twelve_tags_witness :
  (length (map (fun i => PyInt (Z.of_nat i)) (seq 0 12)) <= 12)%nat.
Proof.
  refine (at_most_twelve_tags unit unit unit (scripted_genai many_tags)
            "track.mp3" _ _ eq_refl eq_refl).
Defined.

(** X15. A reply that is valid JSON but not an object (a list, a string, a
    number, ...) is reported by the outer handler, not as a JSON parsing
    failure: the result is the failure dict whose error is the
    AttributeError message of the missing [get] method. *)
Theorem non_object_reply_is_reported :
  forall (Client File Response : Type) (genai : GenAI Client File Response)
         (audio_path : string) (client : Client) (myfile : File)
         (response : Response) (text : string) (v : PyValue),
    GENAI_AVAILABLE genai = true ->
    key_set (GEMINI_API_KEY genai) = true ->
    genai_Client genai = Ok client ->
    files_upload genai client audio_path = Ok myfile ->
    generate_content genai client myfile = Ok response ->
    response_text genai response = Ok (Some text) ->
    json_loads genai (strip_fences genai (strip text)) = Ok v ->
    (forall d, v <> PyDict d) ->
    analyze_audio_with_gemini genai audio_path
    = Ok (gemini_failed
            (mkExc "AttributeError"
               ("'" ++ type_name v ++ "' object has no attribute 'get'"))).
Proof.
  intros Client File Response genai audio_path client myfile response text v
    Ha Hk Hc Hu Hg Ht Hj Hv.
  unfold analyze_audio_with_gemini. rewrite Ha, Hk, Hc. cbn [negb orb bind].
  rewrite Hu. cbn [bind]. rewrite Hg. cbn [bind].
  unfold parse_reply. rewrite Ht. cbn [bind]. rewrite Hj. cbn [bind].
  destruct v; try reflexivity. exfalso. exact (Hv items eq_refl).
Qed.

Lemma non_object_reply_is_reported_witness :
  analyze_audio_with_gemini (scripted_genai (PyList [])) "track.mp3"
  = Ok (gemini_failed
          (mkExc "AttributeError" "'list' object has no attribute 'get'")).
Proof.
  apply (non_object_reply_is_reported unit unit unit
           (scripted_genai (PyList [])) "track.mp3" tt tt tt "{}" (PyList []));
    try reflexivity.
  intros d H. discriminate H.
Defined.

(** ** Dicts *)

Lemma dict_get_set_same (d : py_dict) (k : string) (v : PyValue) :
  dict_get (dict_set d k v) k = Some v.
Proof.
  induction d as [|[k0 v0] d IH]; cbn [dict_set dict_get].
  - rewrite String.eqb_refl. reflexivity.
  - destruct (String.eqb k0 k) eqn:E; cbn [dict_get]; rewrite E;
      [reflexivity | exact IH].
Qed.

Lemma dict_get_set_other (d : py_dict) (k k' : string) (v : PyValue) :
  k <> k' -> dict_get (dict_set d k v) k' = dict_get d k'.
Proof.
  intro Hne. induction d as [|[k0 v0] d IH]; cbn [dict_set dict_get].
  - apply String.eqb_neq in Hne. rewrite Hne. reflexivity.
  - destruct (String.eqb k0 k) eqn:E; cbn [dict_get].
    + apply String.eqb_eq in E. subst k0.
      apply String.eqb_neq in Hne. rewrite Hne. reflexivity.
    + rewrite IH. reflexivity.
Qed.

Lemma dict_set_fresh (d : py_dict) (k : string) (v : PyValue) :
  dict_get d k = None -> dict_set d k v = d ++ [(k, v)].
Proof.
  induction d as [|[k0 v0] d IH]; cbn [dict_set dict_get app];
    [reflexivity|].
  destruct (String.eqb k0 k); [discriminate|].
  intro H. rewrite (IH H). reflexivity.
Qed.

Lemma without_gemini_fresh (d : py_dict) :
  dict_get d "gemini_analysis" = None -> without_gemini d = d.
Proof.
  unfold without_gemini.
  induction d as [|[k0 v0] d IH]; cbn [dict_get filter fst]; [reflexivity|].
  destruct (String.eqb k0 "gemini_analysis"); [discriminate|].
  cbn [negb]. intro H. rewrite (IH H). reflexivity.
Qed.

Lemma analysis_dict_no_gemini (r : AnalysisResult) :
  dict_get (analysis_dict r) "gemini_analysis" = None.
Proof. unfold analysis_dict. destruct (error r); reflexivity. Qed.

Lemma analysis_dict_truthy (r : AnalysisResult) :
  dict_truthy (analysis_dict r) = true.
Proof. reflexivity. Qed.

(** ** The combined analysis *)

Section ComprehensiveFacts.

Context {Waveform EssentiaAudio Client File Response : Type}.
Variable librosa : Librosa Waveform.
Variable es : Essentia Waveform EssentiaAudio.
Variable genai : GenAI Client File Response.

Lemma comprehensive_ok (audio_path : string) (d : py_dict) :
  analyze_audio_comprehensive librosa es genai audio_path = Ok d ->
  exists g,
    analyze_audio_with_gemini genai audio_path = Ok g
    /\ d = analysis_dict (analyze_audio_features librosa es audio_path)
           ++ [("gemini_analysis"%string, PyDict g)].
Proof.
  unfold analyze_audio_comprehensive.
  destruct (analyze_audio_with_gemini genai audio_path) as [g|e];
    cbn [bind]; [|discriminate].
  intro H. exists g. split; [reflexivity|].
  rewrite <- (dict_set_fresh _ _ (PyDict g) (analysis_dict_no_gemini _)).
  congruence.
Qed.

Lemma without_gemini_merged (r : AnalysisResult) (g : PyValue) :
  without_gemini (analysis_dict r ++ [("gemini_analysis"%string, g)])
  = analysis_dict r.
Proof.
  unfold without_gemini. rewrite filter_app. cbn [filter fst].
  rewrite String.eqb_refl. cbn [negb]. rewrite app_nil_r.
  apply without_gemini_fresh, analysis_dict_no_gemini.
Qed.

Lemma dict_get_merged (r : AnalysisResult) (g : PyValue) :
  dict_get (analysis_dict r ++ [("gemini_analysis"%string, g)])
    "gemini_analysis" = Some g.
Proof.
  rewrite <- (dict_set_fresh _ _ g (analysis_dict_no_gemini r)).
  apply dict_get_set_same.
Qed.

Lemma store_features_merged (r : AnalysisResult) (g : PyValue)
  (job : py_dict) :
  store_features (analysis_dict r ++ [("gemini_analysis"%string, g)]) job
  = dict_set (dict_set job "audio_features" (PyDict (analysis_dict r)))
      "gemini_analysis" g.
Proof.
  unfold store_features. rewrite without_gemini_merged, dict_get_merged.
  reflexivity.
Qed.

End ComprehensiveFacts.

(** X16. [analyze_audio_comprehensive] raises only when the Gemini analysis
    does.  Otherwise it returns the dict of [analyze_audio_features] (also
    when that analysis failed) with one more entry [gemini_analysis]:
    removing that entry gives back the traditional features, and every
    other key keeps its value. *)
Theorem comprehensive_keeps_both_analyses :
  forall (W A Client File Response : Type) (librosa : Librosa W)
         (es : Essentia W A) (genai : GenAI Client File Response)
         (audio_path : string),
    let traditional :=
      analysis_dict (analyze_audio_features librosa es audio_path) in
    match analyze_audio_with_gemini genai audio_path with
    | Ok g =>
        exists d,
          analyze_audio_comprehensive librosa es genai audio_path = Ok d
          /\ without_gemini d = traditional
          /\ dict_get d "gemini_analysis" = Some (PyDict g)
          /\ forall k, k <> "gemini_analysis"%string ->
                       dict_get d k = dict_get traditional k
    | Raise e =>
        analyze_audio_comprehensive librosa es genai audio_path = Raise e
    end.
Proof.
  intros W A Client File Response librosa es genai audio_path traditional.
  unfold analyze_audio_comprehensive.
  destruct (analyze_audio_with_gemini genai audio_path) as [g|e];
    cbn [bind]; [|reflexivity].
  eexists. split; [reflexivity|]. fold traditional.
  assert (Hn : dict_get traditional "gemini_analysis" = None)
    by apply analysis_dict_no_gemini.
  repeat split.
  - rewrite (dict_set_fresh _ _ _ Hn). apply without_gemini_merged.
  - apply dict_get_set_same.
  - intros k Hk. apply dict_get_set_other. congruence.
Qed.

(** X17. When the callback of the API is given the result of
    [analyze_audio_comprehensive], the job's [audio_features] is exactly the
    dict of [analyze_audio_features], its [gemini_analysis] is the Gemini
    result, [progress] and [message] are the ones passed, and no other
    field of the job changes. *)
Theorem callback_publishes_both_analyses :
  forall (W A Client File Response : Type) (librosa : Librosa W)
         (es : Essentia W A) (genai : GenAI Client File Response)
         (audio_path : string) (d job : py_dict) (progress : Z)
         (message : string),
    analyze_audio_comprehensive librosa es genai audio_path = Ok d ->
    let job' := snd (api_progress_callback progress message (Some d) job) in
    dict_get job' "audio_features"
    = Some (PyDict (analysis_dict
                      (analyze_audio_features librosa es audio_path)))
    /\ (exists g, analyze_audio_with_gemini genai audio_path = Ok g
                  /\ dict_get job' "gemini_analysis" = Some (PyDict g))
    /\ dict_get job' "progress" = Some (PyInt progress)
    /\ dict_get job' "message" = Some (PyStr message)
    /\ forall k,
         ~ In k ["progress"; "message"; "audio_features";
                 "gemini_analysis"]%string ->
         dict_get job' k = dict_get job k.
Proof.
  intros W A Client File Response librosa es genai audio_path d job progress
    message H job'.
  destruct (comprehensive_ok librosa es genai audio_path d H) as (g & Hg & ->).
  subst job'. unfold api_progress_callback. cbn [snd].
  rewrite store_features_merged.
  split; [|split; [|split; [|split]]].
  - rewrite dict_get_set_other by discriminate. apply dict_get_set_same.
  - exists g. split; [exact Hg | apply dict_get_set_same].
  - do 3 (rewrite dict_get_set_other by discriminate).
    apply dict_get_set_same.
  - do 2 (rewrite dict_get_set_other by discriminate).
    apply dict_get_set_same.
  - intros k Hk. cbn [In] in Hk.
    rewrite !dict_get_set_other; [reflexivity | | | |]; intro E; subst k;
      tauto.
Qed.

Lemma callback_publishes_both_analyses_witness :
  let traditional :=
    analysis_dict (analyze_audio_features (failing_librosa NoBackendError)
                     (failing_essentia NoBackendError) "track.mp3") in
  let d := traditional ++ [("gemini_analysis"%string,
                            PyDict gemini_unavailable)] in
  dict_get (snd (api_progress_callback 8%Z "AI audio analysis complete"%string
                   (Some d) (new_job "track")))
    "audio_features"
  = Some (PyDict traditional).
Proof.
  intros traditional d.
  apply (callback_publishes_both_analyses unit unit unit unit unit
           (failing_librosa NoBackendError) (failing_essentia NoBackendError)
           absent_genai "track.mp3" d (new_job "track") 8%Z
           "AI audio analysis complete"%string).
  reflexivity.
Defined.

(** ** Truncation *)

Lemma py_trunc_floor (x : Qc) : 0 <= x -> py_trunc x = Qfloor x.
Proof.
  intro H. unfold py_trunc, Qfloor. destruct x as [[n d] Hc]. cbn.
  unfold Qcle, Qle in H. cbn in H.
  apply Z.quot_div_nonneg; lia.
Qed.

Lemma py_trunc_mono (x y : Qc) : 0 <= x -> x <= y -> (py_trunc x <= py_trunc y)%Z.
Proof.
  intros H0 H. rewrite !py_trunc_floor.
  - apply Qfloor_resp_le. exact H.
  - eapply Qcle_trans; eassumption.
  - exact H0.
Qed.

Lemma py_trunc_Z (z : Z) : (0 <= z)%Z -> py_trunc (Qc_of_Z z) = z.
Proof.
  intro H. rewrite py_trunc_floor.
  - rewrite (Qfloor_comp _ _ (Qc_of_Z_this z)). apply Qfloor_Z.
  - unfold Qcle. rewrite Qc_of_Z_this. change (this 0) with (inject_Z 0).
    rewrite <- Zle_Qle. exact H.
Qed.

Lemma py_trunc_between (x : Qc) (a b : Z) :
  (0 <= a)%Z -> Qc_of_Z a <= x -> x <= Qc_of_Z b ->
  (a <= py_trunc x <= b)%Z.
Proof.
  intros Ha H1 H2.
  assert (H0 : 0 <= Qc_of_Z a).
  { unfold Qcle. rewrite Qc_of_Z_this. change (this 0) with (inject_Z 0).
    rewrite <- Zle_Qle. exact Ha. }
  assert (Hx : 0 <= x) by (eapply Qcle_trans; eassumption).
  split.
  - rewrite <- (py_trunc_Z a Ha). apply py_trunc_mono; assumption.
  - rewrite <- (py_trunc_Z b).
    + apply py_trunc_mono; assumption.
    + assert (Hab : Qc_of_Z a <= Qc_of_Z b) by (eapply Qcle_trans; eassumption).
      unfold Qcle in Hab. rewrite !Qc_of_Z_this in Hab.
      rewrite <- Zle_Qle in Hab. lia.
Qed.

(** ** One line of demucs output *)

Lemma prefix_append (a b : string) : String.prefix a (a ++ b) = true.
Proof.
  induction a as [|c a IH]; cbn [String.append String.prefix].
  - destruct b; reflexivity.
  - destruct (ascii_dec c c) as [_|Hn]; [exact IH | contradiction].
Qed.

Lemma scaled_progress_le (pct : N) :
  (pct <= 100)%N ->
  Q2Qc 10 + Qc_of_Z (Z.of_N pct) * Q2Qc 0.80 <= Qc_of_Z 90.
Proof.
  intro H. assert (Hz : (Z.of_N pct <= 100)%Z) by lia.
  rewrite Zle_Qle in Hz. change (inject_Z 100) with 100%Q in Hz.
  change (Qc_of_Z 90) with (Q2Qc 90). unfold Qc_of_Z. qc_arith.
Qed.

Section SeparationFacts.

Context {S : Type}.
Variable callback : Callback S.
Hypothesis callback_returns : never_raises callback.

Lemma call_returns (progress : Z) (message : string)
  (features : option py_dict) (s : S) :
  exists s', callback progress message features s = (Ok tt, s').
Proof.
  pose proof (callback_returns progress message features s) as H.
  destruct (callback progress message features s) as [r s'].
  cbn [fst] in H. subst r. exists s'. reflexivity.
Qed.

Lemma call_then_returns {B : Type} (progress : Z) (message : string)
  (features : option py_dict) (b : B) (s : S) :
  exists s',
    (_ <~ callback progress message features ;; ret b) s = (Ok b, s').
Proof.
  destruct (call_returns progress message features s) as [s' E].
  exists s'. unfold pbind, ret. rewrite E. reflexivity.
Qed.

Lemma track_line_returns (d : py_dict) (c : Qc) (line : string) (s : S) :
  exists c' s', track_line callback d c line s = (Ok c', s').
Proof.
  unfold track_line.
  destruct (re_search_percent (strip line)) as [group|].
  - destruct (c <? _).
    + destruct (call_then_returns
                  (py_trunc (Q2Qc 10
                             + Qc_of_Z (Z.of_N (int_of_digits group))
                               * Q2Qc 0.80))
                  ("Separating audio... "
                   ++ str_of_N (int_of_digits group) ++ "%")
                  (Some d)
                  (Q2Qc 10 + Qc_of_Z (Z.of_N (int_of_digits group))
                             * Q2Qc 0.80) s) as [s' E].
      eexists. exists s'. exact E.
    + eexists. exists s. reflexivity.
  - destruct (contains "Separating track" (strip line)).
    { destruct (call_then_returns 15%Z "Starting audio separation..."
                  (Some d) c s) as [s' E].
      exists c, s'. exact E. }
    destruct (contains "Selected model" (strip line)).
    { destruct (call_then_returns 12%Z "Loading AI model..."
                  (Some d) c s) as [s' E].
      exists c, s'. exact E. }
    destruct (existsb _ progress_keywords); [|exists c, s; reflexivity].
    destruct (c <? Q2Qc 20); [|exists c, s; reflexivity].
    destruct (call_then_returns 20%Z "Processing audio data..."
                (Some d) (Q2Qc 20) s) as [s' E].
    exists (Q2Qc 20), s'. exact E.
Qed.

Lemma track_lines_returns (d : py_dict) (lines : list string) :
  forall (c : Qc) (s : S),
    exists c' s', track_lines callback d c lines s = (Ok c', s').
Proof.
  induction lines as [|line lines IH]; intros c s; cbn [track_lines].
  - exists c, s. reflexivity.
  - destruct (track_line_returns d c line s) as (c1 & s1 & E1).
    destruct (IH c1 s1) as (c' & s' & E').
    exists c', s'. unfold pbind. rewrite E1. exact E'.
Qed.

End SeparationFacts.

(** ** Errors of the separation *)

(** X18. An exception that leaves [separate_audio_with_progress] is either
    the one raised by [os.makedirs] (which is outside the [try]), or a
    RuntimeError whose message is "Audio separation error: " followed by the
    text of the cause, or "Demucs separation failed: " followed by it when
    the cause is a CalledProcessError. *)
Theorem separation_errors_are_wrapped :
  forall (W A Client File Response S : Type) (librosa : Librosa W)
         (es : Essentia W A) (genai : GenAI Client File Response)
         (sys : System) (callback : Callback S)
         (input_path output_dir : string) (s : S) (e : PyExc),
    fst (separate_audio_with_progress librosa es genai sys callback
           input_path output_dir s) = Raise e ->
    os_makedirs sys output_dir = Raise e
    \/ exists cause,
         (exc_class cause <> "CalledProcessError"%string
          /\ e = mkExc "RuntimeError"
                   ("Audio separation error: " ++ exc_str cause))
         \/ (exc_class cause = "CalledProcessError"%string
             /\ e = mkExc "RuntimeError"
                      ("Demucs separation failed: " ++ exc_str cause)).
Proof.
  intros W A Client File Response S librosa es genai sys callback
    input_path output_dir s e.
  unfold separate_audio_with_progress, pbind, lift, catch.
  destruct (os_makedirs sys output_dir) as [[]|e0]; cbn [fst].
  - destruct (separate_body librosa es genai sys callback input_path
                output_dir s) as [[d|cause] s']; cbn [fst]; [discriminate|].
    unfold separation_handler, raise.
    destruct (String.eqb (exc_class cause) "CalledProcessError") eqn:Ec;
      cbn [fst]; intro H; injection H as <-; right; exists cause.
    + right. apply String.eqb_eq in Ec. split; [exact Ec | reflexivity].
    + left. apply String.eqb_neq in Ec. split; [exact Ec | reflexivity].
  - intro H. left. injection H as ->. reflexivity.
Qed.

Lemma separation_errors_are_wrapped_witness :
  os_makedirs (demucs_run [] 1) "out" = Raise (mkExc "RuntimeError"
    "Audio separation error: Demucs separation failed with code 1")
  \/ exists cause,
       (exc_class cause <> "CalledProcessError"%string
        /\ mkExc "RuntimeError"
             "Audio separation error: Demucs separation failed with code 1"
           = mkExc "RuntimeError"
               ("Audio separation error: " ++ exc_str cause))
       \/ (exc_class cause = "CalledProcessError"%string
           /\ mkExc "RuntimeError"
                "Audio separation error: Demucs separation failed with code 1"
              = mkExc "RuntimeError"
                  ("Demucs separation failed: " ++ exc_str cause)).
Proof.
  apply (separation_errors_are_wrapped unit unit unit unit unit (list report)
           (failing_librosa NoBackendError) (failing_essentia NoBackendError)
           absent_genai (demucs_run [] 1) recording_callback
           "track.mp3" "out" []).
  reflexivity.
Defined.

Section ExitCode.

Context {W A Client File Response S : Type}.
Variable librosa : Librosa W.
Variable es : Essentia W A.
Variable genai : GenAI Client File Response.
Variable sys : System.
Variable callback : Callback S.
Hypothesis callback_returns : never_raises callback.

(** With a callback that returns, the [try] block fails only where one of
    its collaborators does. *)
Lemma separate_body_exit_code (input_path output_dir : string) (s : S)
  (d : py_dict) (process : Process) (code : Z) :
  analyze_audio_comprehensive librosa es genai input_path = Ok d ->
  subprocess_Popen sys ["demucs"; "-o"; output_dir; input_path]%string
  = Ok process ->
  stdout_error process = None ->
  wait process = Ok code ->
  exists s',
    separate_body librosa es genai sys callback input_path output_dir s
    = (if negb (Z.eqb code 0)
       then Raise (mkExc "RuntimeError"
                     ("Demucs separation failed with code "
                      ++ str_of_Z code))
       else Ok d, s').
Proof.
  intros Hd Hp He Hw. unfold separate_body.
  destruct (call_returns callback callback_returns 2%Z
              "Analyzing audio with AI understanding..." None s)
    as [s1 E1].
  unfold pbind at 1. rewrite E1.
  unfold pbind at 1. unfold lift at 1. rewrite Hd.
  destruct (call_returns callback callback_returns 8%Z
              "AI audio analysis complete" (Some d) s1) as [s2 E2].
  unfold pbind at 1. rewrite E2.
  unfold pbind at 1. unfold lift at 1. rewrite Hp.
  destruct (call_returns callback callback_returns 10%Z
              "Initializing audio separation..." (Some d) s2) as [s3 E3].
  unfold pbind at 1. rewrite E3.
  destruct (track_lines_returns callback callback_returns d (stdout process)
              (Q2Qc 10) s3) as (c & s4 & E4).
  unfold pbind at 1. rewrite E4.
  rewrite He. unfold pbind at 1. unfold ret at 1.
  unfold pbind at 1. unfold lift at 1. rewrite Hw.
  destruct (negb (Z.eqb code 0)).
  - exists s4. reflexivity.
  - destruct (call_returns callback callback_returns 90%Z
                "Finalizing separated stems..." (Some d) s4) as [s5 E5].
    exists s5. unfold pbind, ret. rewrite E5. reflexivity.
Qed.

End ExitCode.



(** ** The reports of the separation *)

(** What one line adds to the log of a recording callback. *)
Lemma track_line_recording (d : py_dict) (c : Qc) (line : string)
  (log : list report) :
  exists c' evs,
    track_line recording_callback d c line log = (Ok c', log ++ evs)
    /\ ((evs = [] /\ c' = c)
        \/ (exists pct,
              line_percent line = Some pct
              /\ c' = Q2Qc 10 + Qc_of_Z (Z.of_N pct) * Q2Qc 0.80
              /\ c < c'
              /\ evs = [(py_trunc c',
                         ("Separating audio... " ++ str_of_N pct ++ "%")%string,
                         Some d)])
        \/ (c' = c
            /\ (evs = [(15%Z, "Starting audio separation..."%string, Some d)]
                \/ evs = [(12%Z, "Loading AI model..."%string, Some d)]))
        \/ (c < Q2Qc 20 /\ c' = Q2Qc 20
            /\ evs = [(20%Z, "Processing audio data..."%string, Some d)])).
Proof.
  unfold track_line, line_percent.
  destruct (re_search_percent (strip line)) as [group|]; cbn [option_map].
  - destruct (c <? _) eqn:E.
    + eexists. eexists. split; [reflexivity|]. right. left.
      exists (int_of_digits group). apply Qcltb_lt in E.
      repeat split. exact E.
    + exists c, []. rewrite app_nil_r. split; [reflexivity|]. left.
      split; reflexivity.
  - destruct (contains "Separating track" (strip line)).
    { eexists. eexists. split; [reflexivity|]. right. right. left.
      split; [reflexivity|]. left. reflexivity. }
    destruct (contains "Selected model" (strip line)).
    { eexists. eexists. split; [reflexivity|]. right. right. left.
      split; [reflexivity|]. right. reflexivity. }
    destruct (existsb _ progress_keywords).
    + destruct (c <? Q2Qc 20) eqn:E.
      * eexists. eexists. split; [reflexivity|]. right. right. right.
        apply Qcltb_lt in E. repeat split. exact E.
      * exists c, []. rewrite app_nil_r. split; [reflexivity|]. left.
        split; reflexivity.
    + exists c, []. rewrite app_nil_r. split; [reflexivity|]. left.
      split; reflexivity.
Qed.

Lemma percent_reports_app (a b : list report) :
  percent_reports (a ++ b) = percent_reports a ++ percent_reports b.
Proof. apply filter_app. Qed.

Lemma percent_reports_percent (p : Z) (pct : N) (f : option py_dict) :
  percent_reports
    [(p, ("Separating audio... " ++ str_of_N pct ++ "%")%string, f)]
  = [(p, ("Separating audio... " ++ str_of_N pct ++ "%")%string, f)].
Proof.
  unfold percent_reports. cbn [filter report_message fst snd].
  rewrite prefix_append. reflexivity.
Qed.

Lemma ten_nonneg (c : Qc) : Q2Qc 10 <= c -> 0 <= c.
Proof. intro H. qc_arith. Qed.

Lemma track_lines_recording (d : py_dict) (lines : list string) :
  forall (c : Qc) (log : list report),
    Q2Qc 10 <= c ->
    exists c' evs,
      track_lines recording_callback d c lines log = (Ok c', log ++ evs)
      /\ c <= c'
      /\ Forall (fun r => report_features r = Some d) evs
      /\ StronglySorted Z.le (map report_progress (percent_reports evs))
      /\ Forall (fun r => (py_trunc c <= report_progress r)%Z)
           (percent_reports evs)
      /\ (percentages_within lines 100 ->
          Forall (fun r => (10 <= report_progress r <= 90)%Z) evs).
Proof.
  induction lines as [|line lines IH]; intros c log Hc; cbn [track_lines].
  - exists c, []. rewrite app_nil_r. split; [reflexivity|].
    split; [apply Qcle_refl|]. repeat split; constructor.
  - destruct (track_line_recording d c line log) as (c1 & ev1 & E1 & Hcase).
    assert (Hc1 : c <= c1).
    { destruct Hcase as [[_ ->]|[(pct & _ & _ & Hlt & _)|[[-> _]|(Hlt & -> & _)]]];
        try apply Qcle_refl; apply Qclt_le_weak; exact Hlt. }
    assert (H10 : Q2Qc 10 <= c1) by (eapply Qcle_trans; eassumption).
    destruct (IH c1 (log ++ ev1) H10)
      as (c' & evs2 & E2 & Hc' & Hf2 & Hs2 & Hl2 & Hr2).
    exists c', (ev1 ++ evs2).
    assert (Hmono : (py_trunc c <= py_trunc c1)%Z)
      by (apply py_trunc_mono; [apply ten_nonneg, Hc | exact Hc1]).
    assert (Hl2' : Forall (fun r => (py_trunc c <= report_progress r)%Z)
                     (percent_reports evs2)).
    { eapply Forall_impl; [|exact Hl2]. cbv beta. intros r Hr. lia. }
    split; [|split; [|split; [|split; [|split]]]].
    + unfold pbind. rewrite E1, E2, app_assoc. reflexivity.
    + eapply Qcle_trans; eassumption.
    + apply Forall_app. split; [|exact Hf2].
      destruct Hcase
        as [[-> _]|[(pct & _ & _ & _ & ->)|[[_ [-> | ->]]|(_ & _ & ->)]]];
        repeat constructor.
    + rewrite percent_reports_app.
      destruct Hcase
        as [[-> _]|[(pct & _ & E & _ & ->)|[[_ [-> | ->]]|(_ & _ & ->)]]];
        try exact Hs2.
      rewrite percent_reports_percent. cbn [app map].
      apply SSorted_cons; [exact Hs2|].
      apply Forall_map. exact Hl2.
    + rewrite percent_reports_app.
      destruct Hcase
        as [[-> _]|[(pct & _ & E & _ & ->)|[[_ [-> | ->]]|(_ & _ & ->)]]];
        try exact Hl2'.
      rewrite percent_reports_percent. cbn [app].
      constructor; [exact Hmono | exact Hl2'].
    + intro Hw. apply Forall_app. split.
      * destruct Hcase
          as [[-> _]|[(pct & Hp & E & Hlt & ->)|[[_ [-> | ->]]|(_ & _ & ->)]]];
          repeat constructor; cbn [report_progress fst]; try lia.
        -- apply (py_trunc_between c1 10 90); [lia | exact H10 |].
           rewrite E. apply scaled_progress_le.
           apply (Hw line pct); [left; reflexivity | exact Hp].
        -- apply (py_trunc_between c1 10 90); [lia | exact H10 |].
           rewrite E. apply scaled_progress_le.
           apply (Hw line pct); [left; reflexivity | exact Hp].
      * apply Hr2. intros l pct Hin. apply Hw. right. exact Hin.
Qed.

Section RecordedSeparation.

Context {W A Client File Response : Type}.
Variable librosa : Librosa W.
Variable es : Essentia W A.
Variable genai : GenAI Client File Response.
Variable sys : System.

(** The log of a run, by the place where the run ends. *)
Lemma separate_recording (input_path output_dir : string)
  (log : list report) :
  exists r evs,
    separate_audio_with_progress librosa es genai sys recording_callback
      input_path output_dir log = (r, log ++ evs)
    /\ ((evs = [] /\ raised r)
        \/ (evs = [report_analyzing] /\ raised r)
        \/ (exists d,
              analyze_audio_comprehensive librosa es genai input_path = Ok d
              /\ evs = [report_analyzing; report_analyzed d] /\ raised r)
        \/ (exists d process c loop,
              analyze_audio_comprehensive librosa es genai input_path = Ok d
              /\ subprocess_Popen sys
                   ["demucs"; "-o"; output_dir; input_path]%string
                 = Ok process
              /\ track_lines recording_callback d (Q2Qc 10) (stdout process)
                   (log ++ [report_analyzing; report_analyzed d;
                            report_initializing d])
                 = (Ok c, (log ++ [report_analyzing; report_analyzed d;
                                   report_initializing d]) ++ loop)
              /\ ((evs = [report_analyzing; report_analyzed d;
                          report_initializing d] ++ loop
                   /\ raised r)
                  \/ (evs = [report_analyzing; report_analyzed d;
                             report_initializing d] ++ loop
                            ++ [report_finalizing d]
                      /\ r = Ok d
                      /\ stdout_error process = None
                      /\ wait process = Ok 0%Z)))).
Proof.
  unfold separate_audio_with_progress, pbind at 1, lift at 1, catch.
  destruct (os_makedirs sys output_dir) as [[]|e0].
  2:{ exists (Raise e0), []. rewrite app_nil_r. split; [reflexivity|].
      left. split; [reflexivity | exact I]. }
  assert (Hh : forall (e : PyExc) (l : list report),
             exists e', separation_handler e l = (Raise e', l)).
  { intros e l. unfold separation_handler, raise.
    destruct (String.eqb (exc_class e) "CalledProcessError");
      eexists; reflexivity. }
  unfold separate_body.
  unfold pbind at 1. unfold recording_callback at 1.
  unfold pbind at 1. unfold lift at 1.
  destruct (analyze_audio_comprehensive librosa es genai input_path)
    as [d|e1].
  2:{ destruct (Hh e1 (log ++ [report_analyzing])) as [e' E].
      exists (Raise e'), [report_analyzing]. split; [exact E|].
      right. left. split; [reflexivity | exact I]. }
  unfold pbind at 1. unfold recording_callback at 1.
  unfold pbind at 1. unfold lift at 1.
  destruct (subprocess_Popen sys _) as [process|e2].
  2:{ destruct (Hh e2 ((log ++ [report_analyzing]) ++ [report_analyzed d]))
        as [e' E].
      exists (Raise e'), [report_analyzing; report_analyzed d].
      split; [etransitivity; [exact E|]; rewrite <- app_assoc; reflexivity|].
      right. right. left. exists d. repeat split. }
  unfold pbind at 1. unfold recording_callback at 1.
  assert (Hlog : ((log ++ [(2%Z, "Analyzing audio with AI understanding..."%string, None)])
                  ++ [(8%Z, "AI audio analysis complete"%string, Some d)])
                 ++ [(10%Z, "Initializing audio separation..."%string, Some d)]
                 = log ++ [report_analyzing; report_analyzed d;
                           report_initializing d]).
  { rewrite <- !app_assoc. reflexivity. }
  rewrite Hlog.
  set (log3 := log ++ [report_analyzing; report_analyzed d;
                       report_initializing d]).
  destruct (track_lines_recording d (stdout process) (Q2Qc 10) log3
              (Qcle_refl _)) as (c & loop & El & _).
  unfold pbind at 1. rewrite El.
  assert (Hlog' : forall tail,
             (log3 ++ loop) ++ tail
             = log ++ [report_analyzing; report_analyzed d;
                       report_initializing d] ++ loop ++ tail).
  { intro tail. unfold log3. rewrite <- !app_assoc. reflexivity. }
  assert (Hend : forall e,
             exists r evs,
               separation_handler e (log3 ++ loop) = (r, log ++ evs)
               /\ evs = [report_analyzing; report_analyzed d;
                         report_initializing d] ++ loop
               /\ raised r).
  { intro e. destruct (Hh e (log3 ++ loop)) as [e' E].
    exists (Raise e'), ([report_analyzing; report_analyzed d;
                         report_initializing d] ++ loop).
    split; [|split; [reflexivity | exact I]].
    rewrite E. f_equal. unfold log3. rewrite <- !app_assoc. reflexivity. }
  destruct (stdout_error process) as [e3|] eqn:Ee.
  { unfold pbind at 1, raise at 1.
    destruct (Hend e3) as (r & evs & E & Hev).
    exists r, evs. split; [exact E|].
    right. right. right. exists d, process, c, loop.
    split; [reflexivity|]. split; [reflexivity|]. split; [exact El|].
    left. exact Hev. }
  unfold pbind at 1, ret at 1. unfold pbind at 1, lift at 1.
  destruct (wait process) as [code|e4] eqn:Ew.
  2:{ destruct (Hend e4) as (r & evs & E & Hev).
      exists r, evs. split; [exact E|].
    right. right. right. exists d, process, c, loop.
    split; [reflexivity|]. split; [reflexivity|]. split; [exact El|].
    left. exact Hev. }
  destruct (Z.eqb code 0) eqn:Ec; cbn [negb].
  - apply Z.eqb_eq in Ec. subst code.
    unfold pbind, recording_callback, ret.
    exists (Ok d), ([report_analyzing; report_analyzed d;
                     report_initializing d] ++ loop ++ [report_finalizing d]).
    split; [rewrite Hlog'; reflexivity|].
    right. right. right. exists d, process, c, loop.
    repeat split; try reflexivity; try assumption.
    right. repeat split; try reflexivity; assumption.
  - unfold raise at 1.
    destruct (Hend (mkExc "RuntimeError"
                      ("Demucs separation failed with code "
                       ++ str_of_Z code))) as (r & evs & E & Hev).
    exists r, evs. split; [exact E|].
    right. right. right. exists d, process, c, loop.
    split; [reflexivity|]. split; [reflexivity|]. split; [exact El|].
    left. exact Hev.
Qed.

End RecordedSeparation.

Lemma track_lines_recording_facts (d : py_dict) (lines : list string)
  (log loop : list report) (c : Qc) :
  track_lines recording_callback d (Q2Qc 10) lines log = (Ok c, log ++ loop) ->
  Forall (fun r => report_features r = Some d) loop
  /\ StronglySorted Z.le (map report_progress (percent_reports loop))
  /\ (percentages_within lines 100 ->
      Forall (fun r => (10 <= report_progress r <= 90)%Z) loop).
Proof.
  intro E.
  destruct (track_lines_recording d lines (Q2Qc 10) log (Qcle_refl _))
    as (c' & evs & E' & _ & Hf & Hs & _ & Hr).
  rewrite E in E'. injection E' as _ Hl. apply app_inv_head in Hl. subst evs.
  repeat split; assumption.
Qed.

(** X20. A successful run returns the result of
    [analyze_audio_comprehensive]; its callback is called with 2 before the
    analysis, with 8 and 10 after it, then for the lines of demucs, and last
    with 90, and every call but the first is given the analysis. *)
Theorem successful_separation_log :
  forall (W A Client File Response : Type) (librosa : Librosa W)
         (es : Essentia W A) (genai : GenAI Client File Response)
         (sys : System) (input_path output_dir : string) (d : py_dict),
    let run := separate_audio_with_progress librosa es genai sys
                 recording_callback input_path output_dir [] in
    fst run = Ok d ->
    analyze_audio_comprehensive librosa es genai input_path = Ok d
    /\ exists loop,
         snd run = [report_analyzing; report_analyzed d;
                    report_initializing d] ++ loop ++ [report_finalizing d]
         /\ Forall (fun r => report_features r = Some d) loop.
Proof.
  intros W A Client File Response librosa es genai sys input_path output_dir
    d run. subst run.
  destruct (separate_recording librosa es genai sys input_path output_dir [])
    as (r & evs & E & Hcase).
  rewrite E. cbn [fst snd app]. intro Hr. subst r.
  destruct Hcase as [[_ []]|[[_ []]|[(d0 & _ & _ & [])|Hlast]]].
  destruct Hlast as (d0 & process & c & loop & Hd & _ & El & Hend).
  destruct Hend as [[_ []]|(-> & Hok & _ & _)].
  injection Hok as <-. split; [exact Hd|]. exists loop.
  split; [reflexivity|].
  exact (proj1 (track_lines_recording_facts _ _ _ _ _ El)).
Qed.

Lemma successful_separation_log_witness :
  let run := separate_audio_with_progress (failing_librosa NoBackendError)
               (failing_essentia NoBackendError) absent_genai
               (demucs_run ["Separating track song.mp3"%string;
                            " 50%|#####     | 5/10"%string] 0)
               recording_callback "song.mp3" "out" [] in
  exists d loop,
    snd run = [report_analyzing; report_analyzed d; report_initializing d]
              ++ loop ++ [report_finalizing d]
    /\ Forall (fun r => report_features r = Some d) loop.
Proof.
  intro run. eexists.
  refine (proj2 (successful_separation_log unit unit unit unit unit
                   (failing_librosa NoBackendError)
                   (failing_essentia NoBackendError) absent_genai
                   (demucs_run ["Separating track song.mp3"%string;
                                " 50%|#####     | 5/10"%string] 0)
                   "song.mp3" "out" _ eq_refl)).
Defined.

(** X21. If demucs prints no percentage above 100, every progress value
    passed to the callback lies between 2 and 90, whether the run succeeds
    or fails. *)
Theorem separation_progress_range :
  forall (W A Client File Response : Type) (librosa : Librosa W)
         (es : Essentia W A) (genai : GenAI Client File Response)
         (sys : System) (input_path output_dir : string),
    (forall process,
        subprocess_Popen sys ["demucs"; "-o"; output_dir; input_path]%string
        = Ok process ->
        percentages_within (stdout process) 100) ->
    Forall (fun r => (2 <= report_progress r <= 90)%Z)
      (snd (separate_audio_with_progress librosa es genai sys
              recording_callback input_path output_dir [])).
Proof.
  intros W A Client File Response librosa es genai sys input_path output_dir
    Hw.
  destruct (separate_recording librosa es genai sys input_path output_dir [])
    as (r & evs & E & Hcase).
  rewrite E. cbn [snd app].
  assert (H2 : (2 <= report_progress report_analyzing <= 90)%Z)
    by (cbn; lia).
  assert (H8 : forall d, (2 <= report_progress (report_analyzed d) <= 90)%Z)
    by (intro d; cbn; lia).
  assert (H10 : forall d,
             (2 <= report_progress (report_initializing d) <= 90)%Z)
    by (intro d; cbn; lia).
  assert (H90 : forall d,
             (2 <= report_progress (report_finalizing d) <= 90)%Z)
    by (intro d; cbn; lia).
  destruct Hcase as [[-> _]|[[-> _]|[(d & _ & -> & _)|Hlast]]].
  - constructor.
  - constructor; [exact H2 | constructor].
  - constructor; [exact H2|]. constructor; [apply H8 | constructor].
  - destruct Hlast as (d & process & c & loop & _ & Hp & El & Hend).
    destruct (track_lines_recording_facts _ _ _ _ _ El) as (_ & _ & Hr).
    specialize (Hr (Hw process Hp)).
    assert (Hloop : Forall (fun r => (2 <= report_progress r <= 90)%Z) loop).
    { eapply Forall_impl; [|exact Hr]. cbv beta. intros a Ha. lia. }
    destruct Hend as [[-> _]|(-> & _)].
    + cbn [app]. constructor; [exact H2|]. constructor; [apply H8|].
      constructor; [apply H10 | exact Hloop].
    + cbn [app]. constructor; [exact H2|]. constructor; [apply H8|].
      constructor; [apply H10|]. apply Forall_app. split; [exact Hloop|].
      constructor; [apply H90 | constructor].
Qed.

Lemma separation_progress_range_witness :
  Forall (fun r => (2 <= report_progress r <= 90)%Z)
    (snd (separate_audio_with_progress (failing_librosa NoBackendError)
            (failing_essentia NoBackendError) absent_genai
            (demucs_run ["Separating track song.mp3"%string;
                         " 50%|#####     | 5/10"%string;
                         "100%|##########| 10/10"%string] 0)
            recording_callback "song.mp3" "out" [])).
Proof.
  apply (separation_progress_range unit unit unit unit unit
           (failing_librosa NoBackendError) (failing_essentia NoBackendError)
           absent_genai
           (demucs_run ["Separating track song.mp3"%string;
                        " 50%|#####     | 5/10"%string;
                        "100%|##########| 10/10"%string] 0)
           "song.mp3" "out").
  intros process H. injection H as <-. intros line pct Hin Hp.
  cbn [stdout In] in Hin.
  destruct Hin as [<-|[<-|[<-|[]]]]; vm_compute in Hp;
    try discriminate Hp; injection Hp as <-; vm_compute; discriminate.
Defined.

(** X22. The progress values reported for the percentages that demucs
    prints (the "Separating audio... N%" messages) never decrease. *)
Theorem percent_reports_never_go_back :
  forall (W A Client File Response : Type) (librosa : Librosa W)
         (es : Essentia W A) (genai : GenAI Client File Response)
         (sys : System) (input_path output_dir : string),
    StronglySorted Z.le
      (map report_progress
         (percent_reports
            (snd (separate_audio_with_progress librosa es genai sys
                    recording_callback input_path output_dir [])))).
Proof.
  intros W A Client File Response librosa es genai sys input_path output_dir.
  destruct (separate_recording librosa es genai sys input_path output_dir [])
    as (r & evs & E & Hcase).
  rewrite E. cbn [snd app].
  destruct Hcase as [[-> _]|[[-> _]|[(d & _ & -> & _)|Hlast]]];
    try (cbn; constructor).
  destruct Hlast as (d & process & c & loop & _ & _ & El & Hend).
  destruct (track_lines_recording_facts _ _ _ _ _ El) as (_ & Hs & _).
  destruct Hend as [[-> _]|(-> & _)].
  - rewrite percent_reports_app.
    change (percent_reports
              [report_analyzing; report_analyzed d; report_initializing d])
      with (@nil report).
    exact Hs.
  - rewrite percent_reports_app, percent_reports_app.
    change (percent_reports
              [report_analyzing; report_analyzed d; report_initializing d])
      with (@nil report).
    change (percent_reports [report_finalizing d]) with (@nil report).
    rewrite app_nil_r. exact Hs.
Qed.

(** ** What the separation leaves alone *)

Section SeparationInvariant.

Context {W A Client File Response S : Type}.
Variable librosa : Librosa W.
Variable es : Essentia W A.
Variable genai : GenAI Client File Response.
Variable sys : System.
Variable callback : Callback S.
Variable P : S -> Prop.
Hypothesis callback_keeps :
  forall progress message features s,
    P s -> P (snd (callback progress message features s)).

Lemma call_keeps {B : Type} (progress : Z) (message : string)
  (features : option py_dict) (k : unit -> prog S B) (s : S) :
  P s ->
  (forall s', P s' -> P (snd (k tt s'))) ->
  P (snd ((x <~ callback progress message features ;; k x) s)).
Proof.
  intros Hs Hk. unfold pbind.
  pose proof (callback_keeps progress message features s Hs) as H.
  destruct (callback progress message features s) as [[[]|e] s'];
    cbn [snd] in *; [apply Hk, H | exact H].
Qed.

Lemma track_line_keeps (d : py_dict) (c : Qc) (line : string) (s : S) :
  P s -> P (snd (track_line callback d c line s)).
Proof.
  intro Hs. unfold track_line.
  destruct (re_search_percent (strip line)).
  - destruct (c <? _); [|exact Hs].
    apply call_keeps; [exact Hs | intros s' H; exact H].
  - destruct (contains "Separating track" (strip line)).
    { apply call_keeps; [exact Hs | intros s' H; exact H]. }
    destruct (contains "Selected model" (strip line)).
    { apply call_keeps; [exact Hs | intros s' H; exact H]. }
    destruct (existsb _ progress_keywords); [|exact Hs].
    destruct (c <? Q2Qc 20); [|exact Hs].
    apply call_keeps; [exact Hs | intros s' H; exact H].
Qed.

Lemma track_lines_keeps (d : py_dict) (lines : list string) :
  forall (c : Qc) (s : S),
    P s -> P (snd (track_lines callback d c lines s)).
Proof.
  induction lines as [|line lines IH]; intros c s Hs; cbn [track_lines].
  - exact Hs.
  - unfold pbind. pose proof (track_line_keeps d c line s Hs) as H.
    destruct (track_line callback d c line s) as [[c1|e] s1]; cbn [snd] in *.
    + apply IH, H.
    + exact H.
Qed.

Lemma separate_body_keeps (input_path output_dir : string) (s : S) :
  P s ->
  P (snd (separate_body librosa es genai sys callback input_path output_dir
            s)).
Proof.
  intro Hs. unfold separate_body.
  apply call_keeps; [exact Hs|]. clear s Hs. intros s Hs.
  unfold pbind at 1, lift at 1.
  destruct (analyze_audio_comprehensive librosa es genai input_path)
    as [d|e]; [|exact Hs].
  apply call_keeps; [exact Hs|]. clear s Hs. intros s Hs.
  unfold pbind at 1, lift at 1.
  destruct (subprocess_Popen sys _) as [process|e]; [|exact Hs].
  apply call_keeps; [exact Hs|]. clear s Hs. intros s Hs.
  unfold pbind at 1.
  pose proof (track_lines_keeps d (stdout process) (Q2Qc 10) s Hs) as H.
  destruct (track_lines callback d (Q2Qc 10) (stdout process) s)
    as [[c|e] s1]; cbn [snd] in H; [|exact H].
  clear s Hs. unfold pbind at 1.
  destruct (stdout_error process) as [e|]; [exact H|].
  unfold ret at 1. unfold pbind at 1, lift at 1.
  destruct (wait process) as [code|e]; [|exact H].
  destruct (negb (Z.eqb code 0)); [exact H|].
  apply call_keeps; [exact H | intros s' H'; exact H'].
Qed.

Lemma separate_keeps (input_path output_dir : string) (s : S) :
  P s ->
  P (snd (separate_audio_with_progress librosa es genai sys callback
            input_path output_dir s)).
Proof.
  intro Hs. unfold separate_audio_with_progress, pbind, lift, catch.
  destruct (os_makedirs sys output_dir) as [[]|e]; [|exact Hs].
  pose proof (separate_body_keeps input_path output_dir s Hs) as H.
  destruct (separate_body librosa es genai sys callback input_path output_dir
              s) as [[d|e] s1]; cbn [snd] in *; [exact H|].
  unfold separation_handler, raise.
  destruct (String.eqb (exc_class e) "CalledProcessError"); exact H.
Qed.

End SeparationInvariant.

(** ** The job of the API *)

Lemma api_callback_returns : never_raises api_progress_callback.
Proof. intros progress message features job. reflexivity. Qed.

Lemma store_features_other (d job : py_dict) (k : string) :
  k <> "audio_features"%string -> k <> "gemini_analysis"%string ->
  dict_get (store_features d job) k = dict_get job k.
Proof.
  intros H1 H2. unfold store_features.
  destruct (dict_truthy d); [|reflexivity].
  destruct (dict_get d "gemini_analysis").
  - rewrite !dict_get_set_other by congruence. reflexivity.
  - rewrite dict_get_set_other by congruence. reflexivity.
Qed.

(** The fields of a job that the callback writes. *)
Lemma api_callback_frame (progress : Z) (message : string)
  (features : option py_dict) (job : py_dict) (k : string) :
  ~ In k ["progress"; "message"; "audio_features"; "gemini_analysis"]%string ->
  dict_get (snd (api_progress_callback progress message features job)) k
  = dict_get job k.
Proof.
  intro Hk. cbn [In] in Hk. unfold api_progress_callback. cbn [snd].
  assert (H : dict_get (dict_set (dict_set job "progress" (PyInt progress))
                          "message" (PyStr message)) k = dict_get job k).
  { rewrite !dict_get_set_other; [reflexivity| |]; intro E; subst k; tauto. }
  destruct features as [d|]; [|exact H].
  rewrite store_features_other; [exact H | |]; intro E; subst k; tauto.
Qed.

(** X23. The progress of the stem loop, [92 + (i + 1) * 2 // len(stem_files)],
    stays between 92 and 94, is 94 at the last stem and never decreases with
    the index. *)
Theorem stem_progress_range :
  forall i n : nat,
    (i < n)%nat ->
    (92 <= stem_progress i n <= 94)%Z
    /\ (S i = n -> stem_progress i n = 94%Z)
    /\ forall j, (i <= j)%nat -> (stem_progress i n <= stem_progress j n)%Z.
Proof.
  intros i n Hi. unfold stem_progress.
  assert (Hn : (0 < Z.of_nat n)%Z) by lia.
  assert (H0 : (0 <= (Z.of_nat i + 1) * 2 / Z.of_nat n)%Z)
    by (apply Z.div_pos; lia).
  assert (H2 : ((Z.of_nat i + 1) * 2 / Z.of_nat n <= 2)%Z).
  { apply Z.div_le_upper_bound; lia. }
  split; [lia|]. split.
  - intro E. subst n.
    replace ((Z.of_nat i + 1) * 2)%Z with (2 * Z.of_nat (S i))%Z by lia.
    rewrite Z.div_mul by lia. reflexivity.
  - intros j Hj.
    assert (((Z.of_nat i + 1) * 2 / Z.of_nat n
             <= (Z.of_nat j + 1) * 2 / Z.of_nat n)%Z)
      by (apply Z.div_le_mono; lia).
    lia.
Qed.

Lemma stem_progress_range_witness :
  (92 <= stem_progress 1 4 <= 94)%Z
  /\ (2%nat = 4%nat -> stem_progress 1 4 = 94%Z)
  /\ forall j, (1 <= j)%nat -> (stem_progress 1 4 <= stem_progress j 4)%Z.
Proof. apply (stem_progress_range 1 4). lia. Defined.

Section StemFacts.

Context {W A Client File Response : Type}.
Variable librosa : Librosa W.
Variable es : Essentia W A.
Variable genai : GenAI Client File Response.
Variable fs : FileSystem.

Lemma dict_contains_set (d : py_dict) (k k' : string) (v : PyValue) :
  dict_contains d k' = true \/ k = k' ->
  dict_contains (dict_set d k v) k' = true.
Proof.
  unfold dict_contains. intro H.
  destruct (String.eqb k k') eqn:E.
  - apply String.eqb_eq in E. subst k'. rewrite dict_get_set_same.
    reflexivity.
  - apply String.eqb_neq in E. rewrite dict_get_set_other by exact E.
    destruct H as [H|H]; [exact H | contradiction].
Qed.

(** One round of the loop: the stem gets an entry whatever its analysis
    does, and only [progress] and [message] of the job are written. *)
Lemma analyze_stem_returns (stems_dir : string) (n i : nat)
  (stem_file : string) (acc job : py_dict) :
  exists out job',
    analyze_stem librosa es genai fs stems_dir n i stem_file acc job
    = (Ok out, job')
    /\ dict_contains out (splitext_root fs stem_file) = true
    /\ (forall k, dict_contains acc k = true -> dict_contains out k = true)
    /\ (forall k, k <> "progress"%string -> k <> "message"%string ->
                  dict_get job' k = dict_get job k).
Proof.
  unfold analyze_stem.
  destruct (analyze_audio_comprehensive librosa es genai _) as [a|e].
  - eexists. eexists. split; [reflexivity|]. split; [|split].
    + apply dict_contains_set. right. reflexivity.
    + intros k Hk. apply dict_contains_set. left. exact Hk.
    + intros k H1 H2. rewrite !dict_get_set_other by congruence.
      reflexivity.
  - eexists. eexists. split; [reflexivity|]. split; [|split].
    + apply dict_contains_set. right. reflexivity.
    + intros k Hk. apply dict_contains_set. left. exact Hk.
    + intros k _ _. reflexivity.
Qed.

Lemma analyze_stems_returns (stems_dir : string) (n : nat)
  (stem_files : list string) :
  forall (i : nat) (acc job : py_dict),
    exists out job',
      analyze_stems librosa es genai fs stems_dir n i stem_files acc job
      = (Ok out, job')
      /\ (forall f, In f stem_files ->
                    dict_contains out (splitext_root fs f) = true)
      /\ (forall k, dict_contains acc k = true -> dict_contains out k = true)
      /\ (forall k, k <> "progress"%string -> k <> "message"%string ->
                    dict_get job' k = dict_get job k).
Proof.
  induction stem_files as [|f rest IH]; intros i acc job;
    cbn [analyze_stems].
  - exists acc, job. split; [reflexivity|]. split; [intros f []|].
    split; [intros k H; exact H | intros; reflexivity].
  - destruct (analyze_stem_returns stems_dir n i f acc job)
      as (out1 & job1 & E1 & Hf & Hacc & Hfr).
    destruct (IH (S i) out1 job1) as (out & job' & E & Hin & Hkeep & Hfr').
    exists out, job'. split; [|split; [|split]].
    + unfold pbind. rewrite E1. exact E.
    + intros g [<-|Hg]; [apply Hkeep, Hf | apply Hin, Hg].
    + intros k Hk. apply Hkeep, Hacc, Hk.
    + intros k H1 H2. rewrite (Hfr' k H1 H2). apply Hfr; assumption.
Qed.

End StemFacts.

(** X24. The stem loop never raises and gives every stem file an entry in
    [stem_analyses] under its name without extension, also when the
    analysis of the stem raises; of the job it writes only [progress] and
    [message]. *)
Theorem every_stem_gets_an_entry :
  forall (W A Client File Response : Type) (librosa : Librosa W)
         (es : Essentia W A) (genai : GenAI Client File Response)
         (fs : FileSystem) (stems_dir : string) (stem_files : list string)
         (job : py_dict),
    exists stem_analyses job',
      analyze_stems librosa es genai fs stems_dir (length stem_files) 0
        stem_files [] job = (Ok stem_analyses, job')
      /\ (forall stem_file,
             In stem_file stem_files ->
             dict_contains stem_analyses (splitext_root fs stem_file) = true)
      /\ (forall k, k <> "progress"%string -> k <> "message"%string ->
                    dict_get job' k = dict_get job k).
Proof.
  intros W A Client File Response librosa es genai fs stems_dir stem_files
    job.
  destruct (analyze_stems_returns librosa es genai fs stems_dir
              (length stem_files) stem_files 0%nat [] job)
    as (out & job' & E & Hin & _ & Hfr).
  exists out, job'. repeat split; assumption.
Qed.

Lemma every_stem_gets_an_entry_witness :
  exists stem_analyses job',
    analyze_stems (failing_librosa NoBackendError)
      (failing_essentia NoBackendError) absent_genai demo_fs
      "results/song/job1/htdemucs/song" 2 0 ["vocals.wav"; "drums.wav"]%string
      [] (new_job "song") = (Ok stem_analyses, job')
    /\ dict_contains stem_analyses "drums" = true
    /\ dict_get job' "filename" = Some (PyStr "song").
Proof.
  destruct (every_stem_gets_an_entry unit unit unit unit unit
              (failing_librosa NoBackendError)
              (failing_essentia NoBackendError) absent_genai demo_fs
              "results/song/job1/htdemucs/song"
              ["vocals.wav"; "drums.wav"]%string (new_job "song"))
    as (sa & job' & E & Hin & Hfr).
  exists sa, job'. split; [exact E|]. split.
  - apply (Hin "drums.wav"%string). right. left. reflexivity.
  - rewrite Hfr by discriminate. reflexivity.
Defined.

(** ** The thread of a job *)

Lemma agree_outside_refl (keys : list string) (a : py_dict) :
  agree_outside keys a a.
Proof. intros k _. reflexivity. Qed.

Lemma agree_outside_set (keys : list string) (a b : py_dict) (k : string)
  (v : PyValue) :
  In k keys -> agree_outside keys a b ->
  agree_outside keys (dict_set a k v) b.
Proof.
  intros Hk H k' Hk'. rewrite dict_get_set_other; [apply H, Hk'|].
  intro E. subst k'. contradiction.
Qed.

Lemma agree_outside_trans (keys : list string) (a b c : py_dict) :
  agree_outside keys a b -> agree_outside keys b c -> agree_outside keys a c.
Proof. intros H1 H2 k Hk. rewrite (H1 k Hk). apply H2, Hk. Qed.

Section ThreadFacts.

Context {W A Client File Response : Type}.
Variable librosa : Librosa W.
Variable es : Essentia W A.
Variable genai : GenAI Client File Response.
Variable sys : System.
Variable fs : FileSystem.

Lemma separate_api_frame (input_path output_dir : string) (job : py_dict) :
  agree_outside callback_fields
    (snd (separate_audio_with_progress librosa es genai sys
            api_progress_callback input_path output_dir job))
    job.
Proof.
  apply (separate_keeps librosa es genai sys api_progress_callback
           (fun s => agree_outside callback_fields s job)).
  - intros progress message features s Hs k Hk.
    rewrite api_callback_frame by exact Hk. apply Hs, Hk.
  - apply agree_outside_refl.
Qed.

(** The ways in which the [try] block of [process_audio] ends. *)
Lemma process_body_cases (base_name unique_id input_path output_dir : string)
  (job : py_dict) :
  exists r job' base,
    process_body librosa es genai sys fs base_name unique_id input_path
      output_dir job = (r, job')
    /\ agree_outside callback_fields base job
    /\ ((raised r /\ job' = base)
        \/ (r = Ok tt
            /\ job' = dict_set (dict_set base "status" (PyStr "error"))
                        "message"
                        (PyStr "No stems found in output directory."))
        \/ (r = Ok tt
            /\ exists tmp d stem_analyses,
                 tempfile_gettempdir fs = Ok tmp
                 /\ job' = completed_job base unique_id
                             (os_path_join fs tmp
                                (base_name ++ "_stems_" ++ unique_id
                                 ++ ".zip"))
                             d stem_analyses)).
Proof.
  unfold process_body.
  pose proof (separate_api_frame input_path output_dir job) as Hfr.
  unfold pbind at 1.
  destruct (separate_audio_with_progress librosa es genai sys
              api_progress_callback input_path output_dir job)
    as [[d|e] s1]; cbn [snd] in Hfr.
  2:{ exists (Raise e), s1, s1. split; [reflexivity|]. split; [exact Hfr|].
      left. split; [exact I | reflexivity]. }
  unfold pbind at 1, lift at 1.
  destruct (subdirs fs output_dir) as [[|first_subdir others]|e].
  3:{ exists (Raise e), s1, s1. split; [reflexivity|]. split; [exact Hfr|].
      left. split; [exact I | reflexivity]. }
  { eexists. eexists. exists s1. split; [reflexivity|]. split; [exact Hfr|].
    right. left. split; reflexivity. }
  unfold pbind at 1, lift at 1.
  destruct (subdirs fs (os_path_join fs output_dir first_subdir))
    as [stems_subdirs|e].
  2:{ exists (Raise e), s1, s1. split; [reflexivity|]. split; [exact Hfr|].
      left. split; [exact I | reflexivity]. }
  set (stems_dir := match stems_subdirs with
                    | [] => os_path_join fs output_dir first_subdir
                    | first_stems :: _ =>
                        os_path_join fs
                          (os_path_join fs output_dir first_subdir)
                          first_stems
                    end).
  unfold pbind at 1, job_set at 1. unfold pbind at 1, job_set at 1.
  set (s2 := dict_set (dict_set s1 "progress" (PyInt 92)) "message"
               (PyStr "Analyzing individual stems...")).
  assert (Hfr2 : agree_outside callback_fields s2 job).
  { unfold s2. apply agree_outside_set; [cbn; tauto|].
    apply agree_outside_set; [cbn; tauto | exact Hfr]. }
  unfold pbind at 1, lift at 1.
  destruct (os_listdir fs stems_dir) as [entries|e].
  2:{ exists (Raise e), s2, s2. split; [reflexivity|]. split; [exact Hfr2|].
      left. split; [exact I | reflexivity]. }
  set (stem_files := filter _ entries).
  destruct (analyze_stems_returns librosa es genai fs stems_dir
              (length stem_files) stem_files 0%nat [] s2)
    as (sa & s3 & E3 & _ & _ & Hfr3).
  unfold pbind at 1. rewrite E3.
  unfold pbind at 1, job_set at 1. unfold pbind at 1, job_set at 1.
  set (s4 := dict_set (dict_set s3 "progress" (PyInt 95)) "message"
               (PyStr "Creating download package...")).
  assert (Hfr4 : agree_outside callback_fields s4 job).
  { unfold s4. apply agree_outside_set; [cbn; tauto|].
    apply agree_outside_set; [cbn; tauto|].
    intros k Hk. rewrite Hfr3; [apply Hfr2, Hk | |]; intro E; subst k;
      apply Hk; cbn; tauto. }
  unfold pbind at 1, lift at 1.
  destruct (tempfile_gettempdir fs) as [tmp|e] eqn:Et.
  2:{ exists (Raise e), s4, s4. split; [reflexivity|]. split; [exact Hfr4|].
      left. split; [exact I | reflexivity]. }
  unfold pbind at 1, lift at 1.
  destruct (zip_stems fs _ stems_dir) as [[]|e].
  2:{ exists (Raise e), s4, s4. split; [reflexivity|]. split; [exact Hfr4|].
      left. split; [exact I | reflexivity]. }
  exists (Ok tt), (completed_job s4 unique_id
                     (os_path_join fs tmp
                        (base_name ++ "_stems_" ++ unique_id ++ ".zip"))
                     d sa), s4.
  split; [reflexivity|]. split; [exact Hfr4|]. right. right.
  split; [reflexivity|]. exists tmp, d, sa. split; reflexivity.
Qed.

End ThreadFacts.

Lemma completed_job_fields (job : py_dict) (job_id zip_path : string)
  (d stem_analyses : py_dict) :
  let job' := completed_job job job_id zip_path d stem_analyses in
  dict_get job' "status" = Some (PyStr "completed")
  /\ dict_get job' "progress" = Some (PyInt 100)
  /\ dict_get job' "message" = Some (PyStr "Audio separation completed!")
  /\ dict_get job' "download_url" = Some (PyStr ("/download/" ++ job_id))
  /\ dict_get job' "zip_path" = Some (PyStr zip_path)
  /\ dict_get job' "stem_analyses" = Some (PyDict stem_analyses)
  /\ dict_get job' "filename" = dict_get job "filename".
Proof.
  unfold completed_job. cbv zeta.
  repeat split;
    try (rewrite dict_get_set_other by discriminate;
         rewrite store_features_other by discriminate);
    repeat first [ rewrite dict_get_set_same
                 | rewrite dict_get_set_other by discriminate ];
    reflexivity.
Qed.

(** X25. If the output directory cannot be created, [process_audio] raises
    and leaves the job as it was.  Otherwise it returns normally and the job
    ends either completed, with progress 100, a download URL, a zip path and
    the stem analyses, or in error, with the message "No stems found in
    output directory." or "Error: " followed by the text of an exception. *)
Theorem process_audio_outcome :
  forall (W A Client File Response : Type) (librosa : Librosa W)
         (es : Essentia W A) (genai : GenAI Client File Response)
         (sys : System) (fs : FileSystem)
         (base_name unique_id input_path parent_dir : string)
         (job : py_dict),
    let run := process_audio librosa es genai sys fs base_name unique_id
                 input_path parent_dir job in
    match os_makedirs sys (os_path_join fs parent_dir unique_id) with
    | Raise e => run = (Raise e, job)
    | Ok _ =>
        fst run = Ok tt
        /\ ((dict_get (snd run) "status" = Some (PyStr "completed")
             /\ dict_get (snd run) "progress" = Some (PyInt 100)
             /\ dict_get (snd run) "download_url"
                = Some (PyStr ("/download/" ++ unique_id))
             /\ (exists zip_path,
                   dict_get (snd run) "zip_path" = Some (PyStr zip_path))
             /\ (exists stem_analyses,
                   dict_get (snd run) "stem_analyses"
                   = Some (PyDict stem_analyses)))
            \/ (dict_get (snd run) "status" = Some (PyStr "error")
                /\ (dict_get (snd run) "message"
                    = Some (PyStr "No stems found in output directory.")
                    \/ exists e,
                         dict_get (snd run) "message"
                         = Some (PyStr ("Error: " ++ exc_str e)))))
    end.
Proof.
  intros W A Client File Response librosa es genai sys fs base_name unique_id
    input_path parent_dir job run. subst run.
  unfold process_audio, pbind, lift, catch.
  destruct (os_makedirs sys (os_path_join fs parent_dir unique_id))
    as [[]|e0]; [|reflexivity].
  destruct (process_body_cases librosa es genai sys fs base_name unique_id
              input_path (os_path_join fs parent_dir unique_id) job)
    as (r & job' & base & E & _ & Hcase).
  rewrite E.
  destruct Hcase as [[Hr ->]|[[-> ->]|(-> & tmp & d & sa & _ & ->)]].
  - destruct r as [[]|e]; [destruct Hr|].
    unfold process_handler, pbind, job_set. cbn [fst snd].
    split; [reflexivity|]. right. split.
    + rewrite dict_get_set_other by discriminate. apply dict_get_set_same.
    + right. exists e. apply dict_get_set_same.
  - cbn [fst snd]. split; [reflexivity|]. right. split.
    + rewrite dict_get_set_other by discriminate. apply dict_get_set_same.
    + left. apply dict_get_set_same.
  - cbn [fst snd]. split; [reflexivity|]. left.
    destruct (completed_job_fields base unique_id
                (os_path_join fs tmp
                   (base_name ++ "_stems_" ++ unique_id ++ ".zip")) d sa)
      as (H1 & H2 & _ & H4 & H5 & H6 & _).
    repeat split; try assumption; eexists; eassumption.
Qed.

(** X26. After [process_audio] has run on a new job, [download_result]
    answers 404 unless the job is completed.  For a completed job it calls
    [send_file] with the stored zip path and the download name made of the
    job's file name and "_stems.zip", and returns what [send_file] returns.
    The only exception that leaves the route is one raised by [send_file]:
    the keys it reads are always there. *)
Theorem finished_job_download :
  forall (W A Client File Response FileResponse : Type) (librosa : Librosa W)
         (es : Essentia W A) (genai : GenAI Client File Response)
         (sys : System) (fs : FileSystem) (flask : Flask FileResponse)
         (base_name unique_id input_path parent_dir : string),
    let job := snd (process_audio librosa es genai sys fs base_name unique_id
                      input_path parent_dir (new_job base_name)) in
    let response := download_result flask [(unique_id, job)] unique_id in
    (dict_get job "status" = Some (PyStr "completed") ->
     exists zip_path,
       dict_get job "zip_path" = Some (PyStr zip_path)
       /\ response
          = (sent <- send_file flask (PyStr zip_path)
                       (base_name ++ "_stems.zip")%string ;;
             Ok (FileSent sent)))
    /\ (dict_get job "status" <> Some (PyStr "completed") ->
        response
        = Ok (Json [("error"%string,
                     PyStr "Job not found or not completed")] 404))
    /\ (forall e,
          response = Raise e ->
          exists zip_path,
            dict_get job "zip_path" = Some (PyStr zip_path)
            /\ send_file flask (PyStr zip_path)
                 (base_name ++ "_stems.zip")%string = Raise e).
Proof.
  intros W A Client File Response FileResponse librosa es genai sys fs flask
    base_name unique_id input_path parent_dir job response.
  assert (Hjob :
            (dict_get job "status" = Some (PyStr "completed")
             /\ exists zip_path,
                  dict_get job "zip_path" = Some (PyStr zip_path)
                  /\ response
                     = (sent <- send_file flask (PyStr zip_path)
                                  (base_name ++ "_stems.zip")%string ;;
                        Ok (FileSent sent)))
            \/ (dict_get job "status" <> Some (PyStr "completed")
                /\ response
                   = Ok (Json [("error"%string,
                                PyStr "Job not found or not completed")]
                           404))).
  { subst response job.
    unfold download_result. cbn [dict_get]. rewrite String.eqb_refl.
    unfold process_audio, pbind, lift, catch.
    destruct (os_makedirs sys (os_path_join fs parent_dir unique_id))
      as [[]|e0].
    2:{ right. cbn. split; [discriminate | reflexivity]. }
    destruct (process_body_cases librosa es genai sys fs base_name unique_id
                input_path (os_path_join fs parent_dir unique_id)
                (new_job base_name))
      as (r & job' & base & E & Hfr & Hcase).
    rewrite E.
    assert (Hname : dict_get base "filename" = Some (PyStr base_name)).
    { rewrite Hfr; [reflexivity|]. cbn. intros [H|[H|[H|[H|[]]]]];
        discriminate H. }
    destruct Hcase as [[Hr ->]|[[-> ->]|(-> & tmp & d & sa & _ & ->)]].
    - destruct r as [[]|e]; [destruct Hr|].
      unfold process_handler, pbind, job_set. cbn [fst snd].
      assert (Hs : dict_get
                     (dict_set (dict_set base "status" (PyStr "error"))
                        "message" (PyStr ("Error: " ++ exc_str e))) "status"
                   = Some (PyStr "error")).
      { rewrite dict_get_set_other by discriminate. apply dict_get_set_same. }
      right. unfold getitem. rewrite Hs.
      cbn [bind is_completed String.eqb negb].
      split; [discriminate | reflexivity].
    - cbn [fst snd].
      assert (Hs : dict_get
                     (dict_set (dict_set base "status" (PyStr "error"))
                        "message"
                        (PyStr "No stems found in output directory."))
                     "status"
                   = Some (PyStr "error")).
      { rewrite dict_get_set_other by discriminate. apply dict_get_set_same. }
      right. unfold getitem. rewrite Hs.
      cbn [bind is_completed String.eqb negb].
      split; [discriminate | reflexivity].
    - cbn [fst snd].
      destruct (completed_job_fields base unique_id
                  (os_path_join fs tmp
                     (base_name ++ "_stems_" ++ unique_id ++ ".zip")) d sa)
        as (H1 & _ & _ & _ & H5 & _ & H7).
      left. split; [exact H1|]. eexists. split; [exact H5|].
      unfold getitem. rewrite H1, H5, H7, Hname.
      cbn [bind is_completed negb format_value]. reflexivity. }
  split; [|split].
  - intro Hs. destruct Hjob as [[_ H]|[Hn _]]; [exact H | contradiction].
  - intro Hn. destruct Hjob as [[Hs _]|[_ H]]; [contradiction | exact H].
  - intros e He.
    destruct Hjob as [(_ & zip_path & Hz & Hresp)|[_ Hresp]].
    + exists zip_path. split; [exact Hz|].
      rewrite Hresp in He.
      destruct (send_file flask (PyStr zip_path)
                  (base_name ++ "_stems.zip")%string) as [sent|e'];
        cbn [bind] in He; [discriminate He|].
      injection He as ->. reflexivity.
    + rewrite Hresp in He. discriminate He.
Qed.

Lemma finished_job_download_witness :
  (let job := snd (process_audio (failing_librosa NoBackendError)
                     (failing_essentia NoBackendError) absent_genai
                     (demucs_run ["100%|##########| 10/10"%string] 0) demo_fs
                     "song" "job1" "uploads/song.mp3" "results/song"
                     (new_job "song")) in
   download_result serving_flask [("job1"%string, job)] "job1"
   = Ok (FileSent "song_stems.zip"%string)
   /\ exists zip_path,
        dict_get job "zip_path" = Some (PyStr zip_path)
        /\ send_file cleaned_up_flask (PyStr zip_path) "song_stems.zip"
           = Raise FileNotFoundError)
  /\ download_result serving_flask
       [("job1"%string,
         snd (process_audio (failing_librosa NoBackendError)
                (failing_essentia NoBackendError) absent_genai
                (demucs_run [] 1) demo_fs
                "song" "job1" "uploads/song.mp3" "results/song"
                (new_job "song")))] "job1"
     = Ok (Json [("error"%string,
                  PyStr "Job not found or not completed")] 404).
Proof.
  split; [split|].
  - destruct (proj1 (finished_job_download unit unit unit unit unit string
                       (failing_librosa NoBackendError)
                       (failing_essentia NoBackendError) absent_genai
                       (demucs_run ["100%|##########| 10/10"%string] 0)
                       demo_fs serving_flask
                       "song" "job1" "uploads/song.mp3" "results/song"))
      as (zip_path & _ & Hresp).
    + vm_compute. reflexivity.
    + rewrite Hresp. reflexivity.
  - apply (proj2 (proj2 (finished_job_download unit unit unit unit unit string
                           (failing_librosa NoBackendError)
                           (failing_essentia NoBackendError) absent_genai
                           (demucs_run ["100%|##########| 10/10"%string] 0)
                           demo_fs cleaned_up_flask
                           "song" "job1" "uploads/song.mp3" "results/song"))).
    vm_compute. reflexivity.
  - apply (proj1 (proj2 (finished_job_download unit unit unit unit unit string
                           (failing_librosa NoBackendError)
                           (failing_essentia NoBackendError) absent_genai
                           (demucs_run [] 1) demo_fs serving_flask
                           "song" "job1" "uploads/song.mp3" "results/song"))).
    vm_compute. discriminate.
Defined.

Lemma process_body_separation_raises
  (W A Client File Response : Type) (librosa : Librosa W)
  (es : Essentia W A) (genai : GenAI Client File Response)
  (sys : System) (fs : FileSystem)
  (base_name unique_id input_path output_dir : string) (job : py_dict)
  (e : PyExc) :
  fst (separate_audio_with_progress librosa es genai sys
         api_progress_callback input_path output_dir job) = Raise e ->
  process_body librosa es genai sys fs base_name unique_id input_path
    output_dir job
  = (Raise e,
     snd (separate_audio_with_progress librosa es genai sys
            api_progress_callback input_path output_dir job)).
Proof.
  unfold process_body. unfold pbind at 1.
  destruct (separate_audio_with_progress librosa es genai sys
              api_progress_callback input_path output_dir job)
    as [[d|e'] s1]; cbn [fst snd]; [discriminate|].
  intro H. injection H as ->. reflexivity.
Qed.



(** ** Tempo descriptions *)

Lemma append_inv_head (a x y : string) :
  (a ++ x)%string = (a ++ y)%string -> x = y.
Proof.
  induction a as [|c a IH]; cbn [String.append]; intro H; [exact H|].
  injection H as H. exact (IH H).
Qed.

(** X28. For a tempo reported by [analyze_audio_features],
    [format_bpm_description] answers "Slow" only at exactly 60.0, and
    "Extremely Fast" only at exactly 160.0 or from 280 on. *)
Theorem detected_tempo_descriptions :
  forall (W A : Type) (librosa : Librosa W) (es : Essentia W A)
         (path : string) (show : Qc -> string) (b : Qc),
    bpm (analyze_audio_features librosa es path) = Some b ->
    (format_bpm_description show (Some b) = (show b ++ " BPM (Slow)")%string ->
     b = Q2Qc 60)
    /\ (format_bpm_description show (Some b)
        = (show b ++ " BPM (Extremely Fast)")%string ->
        b = Q2Qc 160 \/ Q2Qc 280 <= b).
Proof.
  intros W A librosa es path show b Hb.
  assert (Hgap : ~ in_octave_gap b).
  { revert Hb. unfold analyze_audio_features.
    destruct (analyze_body librosa es path) as [r|e] eqn:E.
    - destruct (analyze_body_confidences _ _ _ _ _ _ E)
        as (y & sr & _ & Hb & _). rewrite Hb.
      unfold advanced_bpm_detection, except_none.
      destruct (tempo_aggregate (tempo_candidates librosa es y sr))
        as [[ob c]|e] eqn:Et; cbn [fst]; [|discriminate].
      intro H. subst ob. exact (tempo_aggregate_gap _ _ _ Et).
    - cbn [failure_result bpm]. discriminate. }
  unfold in_octave_gap in Hgap. unfold format_bpm_description.
  destruct (b <? Q2Qc 60) eqn:E60.
  { split; intro H; apply append_inv_head in H; discriminate H. }
  destruct (b <? Q2Qc 80) eqn:E80.
  { split; intro H; apply append_inv_head in H; try discriminate H.
    apply Qcltb_nlt in E60. apply Qcltb_lt in E80.
    apply Qcle_antisym; [|exact E60].
    apply Qcnot_lt_le. intro Hlt. apply Hgap. left. split; assumption. }
  destruct (b <? Q2Qc 100).
  { split; intro H; apply append_inv_head in H; discriminate H. }
  destruct (b <? Q2Qc 120).
  { split; intro H; apply append_inv_head in H; discriminate H. }
  destruct (b <? Q2Qc 140).
  { split; intro H; apply append_inv_head in H; discriminate H. }
  destruct (b <? Q2Qc 160) eqn:E160.
  { split; intro H; apply append_inv_head in H; discriminate H. }
  split; intro H; apply append_inv_head in H; try discriminate H.
  apply Qcltb_nlt in E160.
  destruct (Qc_eq_dec b (Q2Qc 160)) as [Heq|Hne]; [left; exact Heq|].
  right. apply Qcnot_lt_le. intro Hlt. apply Hgap. right. split; [|exact Hlt].
  apply Qcnot_le_lt. intro Hle. apply Hne. apply Qcle_antisym; assumption.
Qed.

Lemma detected_tempo_descriptions_witness :
  let r := analyze_audio_features
             (metronome_librosa (Q2Qc 59.96) NoBackendError)
             (failing_essentia NoBackendError) "track.mp3" in
  bpm r = Some (Q2Qc 60)
  /\ format_bpm_description (fun _ => "60.0"%string) (bpm r)
     = "60.0 BPM (Slow)"%string
  /\ Q2Qc 60 = Q2Qc 60.
Proof.
  intro r.
  assert (H : bpm r = Some (Q2Qc 60)).
  { vm_compute. apply f_equal. apply Qc_is_canon. reflexivity. }
  split; [exact H|]. split; [rewrite H; reflexivity|].
  exact (proj1 (detected_tempo_descriptions unit unit
                  (metronome_librosa (Q2Qc 59.96) NoBackendError)
                  (failing_essentia NoBackendError) "track.mp3"
                  (fun _ => "60.0"%string) (Q2Qc 60) H) eq_refl).
Defined.
